(** * eCAL service client: a shallow embedding of [CServiceClientImpl]

    Source: ecal/core/src/service/ecal_service_client_impl.cpp.

    The client object, the process globals it reads ([g_clientgate],
    [g_registration_provider], the client manager, the client sessions and
    the steady clock) and the calls it makes to the outside (registration,
    session creation, asynchronous calls, user callbacks) are modelled by
    explicit state passing in a small state-and-exception monad.  Every
    member function is one atomic step: the mutexes of the source are not
    modelled, and a user callback is a step that records its invocation and
    returns.  The deprecated overload of [Call] that returns the first
    response only is [Call_deprecated]; it calls its sessions synchronously
    and is no step of the runs below.  The acceptor side of a service,
    [eCAL::service::ServerImpl], and [TopicInformation] of ecal_types.h
    follow the client. *)

From Stdlib Require Import ZArith List String Ascii Bool Lia DecimalString.
Import ListNotations.

Open Scope string_scope.
Open Scope Z_scope.

(** ** Ordered maps ([std::map]) *)

(** The strict weak order of the key type of a [std::map]. *)
Class StdLess (K : Type) := {
  key_compare : K -> K -> comparison;
  key_compare_eq : forall a b, key_compare a b = Eq <-> a = b
}.

Module StdMap.

(** A [std::map<K,V>] is the list of its entries in iteration order
    (ascending keys). *)
Definition t (K V : Type) : Type := list (K * V).

Section Ops.
Context {K V : Type} `{StdLess K}.

Definition empty : t K V := [].

(** [m.find(k)]: [None] stands for [m.end()]. *)
Fixpoint find (k : K) (m : t K V) : option V :=
  match m with
  | [] => None
  | (k', v) :: m' =>
      match key_compare k k' with
      | Eq => Some v
      | _ => find k m'
      end
  end.

(** [m[k] = v]. *)
Fixpoint insert (k : K) (v : V) (m : t K V) : t K V :=
  match m with
  | [] => [(k, v)]
  | (k', v') :: m' =>
      match key_compare k k' with
      | Eq => (k, v) :: m'
      | Lt => (k, v) :: (k', v') :: m'
      | Gt => (k', v') :: insert k v m'
      end
  end.

(** [m.erase(it)] for the iterator [it] that [m.find(k)] returned: the
    entries of key [k] are dropped (a map has at most one). *)
Fixpoint erase (k : K) (m : t K V) : t K V :=
  match m with
  | [] => []
  | (k', v') :: m' =>
      match key_compare k k' with
      | Eq => erase k m'
      | _ => (k', v') :: erase k m'
      end
  end.

(** [m.empty()] *)
Definition is_empty (m : t K V) : bool :=
  match m with [] => true | _ :: _ => false end.

End Ops.
End StdMap.

(** [s.empty()] for a [std::string]. *)
Definition empty (s : string) : bool :=
  match s with EmptyString => true | String _ _ => false end.

(** ** Data types *)

(** Modelled from the spec: the declaration of [eCAL_Client_Event] is not
    among the sources.  The event kinds are the three of the
    specification, under the enumerator names the client uses, numbered in
    the order the specification lists them. *)
Inductive eCAL_Client_Event : Type :=
| client_event_connected
| client_event_disconnected
| client_event_timeout.

Definition client_event_value (e : eCAL_Client_Event) : Z :=
  match e with
  | client_event_connected => 1
  | client_event_disconnected => 2
  | client_event_timeout => 3
  end.

Definition client_event_eqb (a b : eCAL_Client_Event) : bool :=
  client_event_value a =? client_event_value b.

(** Modelled from the spec: the declaration of [eCallState] is not among
    the sources.  A response is executed or failed; [call_state_none] is
    the state of a response that nothing has been written to. *)
Inductive eCallState : Type :=
| call_state_none
| call_state_executed
| call_state_failed.

Definition eCallState_eqb (a b : eCallState) : bool :=
  match a, b with
  | call_state_none, call_state_none => true
  | call_state_executed, call_state_executed => true
  | call_state_failed, call_state_failed => true
  | _, _ => false
  end.

(** Modelled from the spec: the declaration of [SServiceAttr] (the peer
    descriptor that discovery supplies) is not among the sources.  The
    fields are the ones the client reads, under the names it reads them by:
    the stable key, host and service name, service id, the announced
    protocol version ([unsigned int]) and the two TCP ports
    ([unsigned short], 0 when absent). *)
Record SServiceAttr : Type := {
  key : string;
  hname : string;
  sname : string;
  sid : string;
  version : Z;
  tcp_port_v0 : Z;
  tcp_port_v1 : Z
}.

(** Modelled from the spec: the declaration of [SServiceResponse] is not
    among the sources.  One response slot, with the fields the client
    assigns. *)
Record SServiceResponse : Type := {
  host_name : string;
  service_name : string;
  service_id : string;
  method_name : string;
  error_msg : string;
  ret_state : Z;
  call_state : eCallState;
  response : string
}.

(** Modelled from the spec: a default-constructed [SServiceResponse], with
    empty strings, return state 0 and call state none. *)
Definition SServiceResponse_new : SServiceResponse :=
  {| host_name := ""; service_name := ""; service_id := "";
     method_name := ""; error_msg := ""; ret_state := 0;
     call_state := call_state_none; response := "" |}.

Definition ServiceResponseVecT : Type := list SServiceResponse.

(** Modelled from the spec: the declaration of [SClientEventCallbackData]
    is not among the sources.  An event callback receives the event kind,
    a timestamp in microseconds and the peer descriptor. *)
Record SClientEventCallbackData : Type := {
  type : eCAL_Client_Event;
  time : Z;
  attr : SServiceAttr
}.

(** Modelled from the spec: the declarations of the callback types are
    not among the sources.  The client treats them as [std::function]s: it
    assigns [nullptr] to them, moves them, tests [if (m_response_callback)]
    and calls them.  [None] is the empty function, [Some f] a callable
    target, named by a number. *)
Definition ResponseCallbackT : Type := option nat.
Definition ClientEventCallbackT : Type := option nat.

(** Modelled from the spec: the protocol buffer messages of the wire
    protocol ([eCAL::pb::ServiceHeader_eCallState], [eCAL::pb::ServiceHeader],
    [eCAL::pb::Response], [eCAL::pb::Request]) are not among the sources.
    Their fields are the ones the client reads and writes; a header state
    that is neither executed nor failed is [ServiceHeader_eCallState_none]. *)
Inductive ServiceHeader_eCallState : Type :=
| ServiceHeader_eCallState_none
| ServiceHeader_eCallState_executed
| ServiceHeader_eCallState_failed.

Record pb_ServiceHeader : Type := {
  pb_hname : string;
  pb_sname : string;
  pb_sid : string;
  pb_mname : string;
  pb_error : string;
  pb_state : ServiceHeader_eCallState
}.

Record pb_Response : Type := {
  pb_header : pb_ServiceHeader;
  pb_ret_state : Z;
  pb_response : string
}.

Record pb_Request : Type := {
  pb_request_mname : string;
  pb_request : string
}.

(** The protocol buffer library: parsing a response and serializing a
    request are its business, not the client's. *)
Class Protobuf : Type := {
  ParseFromString : string -> option pb_Response;
  SerializeAsString : pb_Request -> string
}.

(** [static_cast<int>] of a 64-bit value: reduction to 32 bits, two's
    complement. *)
Definition static_cast_int (z : Z) : Z :=
  (z + 2 ^ 31) mod 2 ^ 32 - 2 ^ 31.

(** Modelled from the spec: [eCAL::service::Error] is not among the
    sources.  It converts to [true] when it is an error, and renders as a
    message. *)
Record Error : Type := {
  is_error : bool;
  ToString : string
}.

(** Modelled from the spec: [eCAL::service::State] and the client session
    class are not among the sources.  A session is identified by the number
    of its creation (its incarnation) and remembers the protocol version,
    address and port it was created with; its state is one of the spec's
    three and lives with the session, outside the client. *)
Inductive State : Type :=
| CONNECTING
| CONNECTED
| FAILED.

Definition State_eqb (a b : State) : bool :=
  match a, b with
  | CONNECTING, CONNECTING => true
  | CONNECTED, CONNECTED => true
  | FAILED, FAILED => true
  | _, _ => false
  end.

Record ClientSession : Type := {
  session_id : nat;
  protocol_version : Z;
  address : string;
  port : Z
}.

(** ** The client object and its environment *)

Record CServiceClientImpl : Type := {
  m_service_name : string;
  m_service_id : string;
  m_host_name : string;
  m_client_map : StdMap.t string ClientSession;
  m_connected_services_map : StdMap.t string SServiceAttr;
  m_event_callback_map : StdMap.t eCAL_Client_Event ClientEventCallbackT;
  m_response_callback : ResponseCallbackT;
  m_created : bool
}.

(** The process globals the client reads: [g_clientgate()] ([None] when it
    is [nullptr], else the table behind [GetServiceAttr]),
    [g_registration_provider()] (present or not), the client manager
    ([None] when [get_client_manager()] is [nullptr], else [is_stopped()]),
    the number of sessions created so far, the state of every session, and
    the steady clock in nanoseconds. *)
Record Globals : Type := {
  g_clientgate : option (string -> list SServiceAttr);
  g_registration_provider : bool;
  client_manager : option bool;
  sessions_created : nat;
  get_state : nat -> State;
  steady_clock_now : Z
}.

(** Who completes an asynchronous call: slot [i] of a blocking fan-out, or
    the lambda of [CallAsync] with its captured host and service name. *)
Inductive Completion : Type :=
| slot_completion (i : nat)
| async_completion (hostname servicename : string).

(** The calls the client makes to the outside, in the order it makes
    them. *)
Inductive Effect : Type :=
| RegisterClient (service_name_ service_id_ : string) (force_ : bool)
| UnregisterClient (service_name_ service_id_ : string)
| create_client (protocol_version_ : Z) (address_ : string) (port_ : Z)
    (created : option ClientSession)
| async_call_service (session : ClientSession) (request_ : string)
    (completion : Completion)
| response_callback_call (target : nat) (service_response : SServiceResponse)
| event_callback_call (target : nat) (service_name_ : string)
    (data : SClientEventCallbackData).

Record World : Type := {
  this : CServiceClientImpl;
  globals : Globals;
  effects : list Effect
}.

(** [std::string] keys are ordered by [operator<], event kinds by their
    enumerator values. *)
#[export] Instance string_less : StdLess string.
Proof.
  refine {| key_compare := String.compare |}.
  intros a b. split.
  - apply String.compare_eq_iff.
  - intros ->. induction b as [|c b IH]; simpl; [reflexivity|].
    unfold Ascii.compare. rewrite N.compare_refl. exact IH.
Defined.

#[export] Instance client_event_less : StdLess eCAL_Client_Event.
Proof.
  refine {| key_compare :=
              fun a b => Z.compare (client_event_value a) (client_event_value b) |}.
  intros a b. split.
  - destruct a, b; simpl; intros E; try reflexivity; discriminate E.
  - intros ->. apply Z.compare_refl.
Defined.

(** ** State and exceptions *)

(** The one exception of the model: invoking an empty [std::function]. *)
Inductive Exception : Type :=
| bad_function_call.

(** A member function either returns a value or throws, and leaves a
    world behind in both cases. *)
Inductive Outcome (A : Type) : Type :=
| Ok (a : A) (w : World)
| Throw (e : Exception) (w : World).

Arguments Ok {A} a w.
Arguments Throw {A} e w.

Definition M (A : Type) : Type := World -> Outcome A.

Definition ret {A : Type} (a : A) : M A := fun w => Ok a w.

Definition bind {A B : Type} (m : M A) (k : A -> M B) : M B :=
  fun w =>
    match m w with
    | Ok a w' => k a w'
    | Throw e w' => Throw e w'
    end.

Definition throw {A : Type} (e : Exception) : M A := fun w => Throw e w.

Declare Scope client_scope.
Delimit Scope client_scope with client.
Notation "x <- m ;; k" := (bind m (fun x => k))
  (at level 61, m at next level, right associativity) : client_scope.
Notation "m ;; k" := (bind m (fun _ => k))
  (at level 61, right associativity) : client_scope.
Open Scope client_scope.

Definition world_of {A : Type} (o : Outcome A) : World :=
  match o with
  | Ok _ w => w
  | Throw _ w => w
  end.

Definition get_this : M CServiceClientImpl := fun w => Ok (this w) w.

Definition get_globals : M Globals := fun w => Ok (globals w) w.

Definition put_this (c : CServiceClientImpl) : M unit :=
  fun w => Ok tt {| this := c; globals := globals w; effects := effects w |}.

Definition put_globals (g : Globals) : M unit :=
  fun w => Ok tt {| this := this w; globals := g; effects := effects w |}.

(** A call to the outside is appended to the record of calls. *)
Definition emit (e : Effect) : M unit :=
  fun w => Ok tt {| this := this w; globals := globals w;
                    effects := effects w ++ [e] |}.

(** Assignment to one member of the client. *)
Definition set_service_name (v : string) (c : CServiceClientImpl) :=
  {| m_service_name := v; m_service_id := m_service_id c;
     m_host_name := m_host_name c; m_client_map := m_client_map c;
     m_connected_services_map := m_connected_services_map c;
     m_event_callback_map := m_event_callback_map c;
     m_response_callback := m_response_callback c;
     m_created := m_created c |}.

Definition set_service_id (v : string) (c : CServiceClientImpl) :=
  {| m_service_name := m_service_name c; m_service_id := v;
     m_host_name := m_host_name c; m_client_map := m_client_map c;
     m_connected_services_map := m_connected_services_map c;
     m_event_callback_map := m_event_callback_map c;
     m_response_callback := m_response_callback c;
     m_created := m_created c |}.

Definition set_host_name (v : string) (c : CServiceClientImpl) :=
  {| m_service_name := m_service_name c; m_service_id := m_service_id c;
     m_host_name := v; m_client_map := m_client_map c;
     m_connected_services_map := m_connected_services_map c;
     m_event_callback_map := m_event_callback_map c;
     m_response_callback := m_response_callback c;
     m_created := m_created c |}.

Definition set_client_map (v : StdMap.t string ClientSession)
    (c : CServiceClientImpl) :=
  {| m_service_name := m_service_name c; m_service_id := m_service_id c;
     m_host_name := m_host_name c; m_client_map := v;
     m_connected_services_map := m_connected_services_map c;
     m_event_callback_map := m_event_callback_map c;
     m_response_callback := m_response_callback c;
     m_created := m_created c |}.

Definition set_connected_services_map (v : StdMap.t string SServiceAttr)
    (c : CServiceClientImpl) :=
  {| m_service_name := m_service_name c; m_service_id := m_service_id c;
     m_host_name := m_host_name c; m_client_map := m_client_map c;
     m_connected_services_map := v;
     m_event_callback_map := m_event_callback_map c;
     m_response_callback := m_response_callback c;
     m_created := m_created c |}.

Definition set_event_callback_map
    (v : StdMap.t eCAL_Client_Event ClientEventCallbackT)
    (c : CServiceClientImpl) :=
  {| m_service_name := m_service_name c; m_service_id := m_service_id c;
     m_host_name := m_host_name c; m_client_map := m_client_map c;
     m_connected_services_map := m_connected_services_map c;
     m_event_callback_map := v;
     m_response_callback := m_response_callback c;
     m_created := m_created c |}.

Definition set_response_callback (v : ResponseCallbackT)
    (c : CServiceClientImpl) :=
  {| m_service_name := m_service_name c; m_service_id := m_service_id c;
     m_host_name := m_host_name c; m_client_map := m_client_map c;
     m_connected_services_map := m_connected_services_map c;
     m_event_callback_map := m_event_callback_map c;
     m_response_callback := v;
     m_created := m_created c |}.

Definition set_created (v : bool) (c : CServiceClientImpl) :=
  {| m_service_name := m_service_name c; m_service_id := m_service_id c;
     m_host_name := m_host_name c; m_client_map := m_client_map c;
     m_connected_services_map := m_connected_services_map c;
     m_event_callback_map := m_event_callback_map c;
     m_response_callback := m_response_callback c;
     m_created := v |}.

Definition modify_this (f : CServiceClientImpl -> CServiceClientImpl) : M unit :=
  c <- get_this ;; put_this (f c).

(** [CServiceClientImpl::CServiceClientImpl()] *)
Definition CServiceClientImpl_new : CServiceClientImpl :=
  {| m_service_name := ""; m_service_id := ""; m_host_name := "";
     m_client_map := StdMap.empty;
     m_connected_services_map := StdMap.empty;
     m_event_callback_map := StdMap.empty;
     m_response_callback := None;
     m_created := false |}.

(** ** Callbacks *)

(** [(e_iter->second)(m_service_name.c_str(), &sdata)]: calling the stored
    [std::function].  An empty one throws [std::bad_function_call]. *)
Definition call_event_callback (f : ClientEventCallbackT)
    (service_name_ : string) (sdata : SClientEventCallbackData) : M unit :=
  match f with
  | Some target => emit (event_callback_call target service_name_ sdata)
  | None => throw bad_function_call
  end.

(** [duration_cast<microseconds>(steady_clock::now().time_since_epoch()).count()] *)
Definition now_microseconds : M Z :=
  g <- get_globals ;; ret (Z.quot (steady_clock_now g) 1000).

(** ** Discovery refresh *)

(** Modelled from the spec: [ClientManager::create_client] is not among
    the sources.  It returns no session when the manager is stopped, and
    otherwise a fresh session in state [CONNECTING].  Its version parameter
    is a [std::uint8_t] and its port a [std::uint16_t]: the caller's
    [unsigned int] version is narrowed where it is passed, see
    [static_cast_uint8] in [CheckForNewServices_loop]. *)
Definition manager_create_client (protocol_version_ : Z) (address_ : string)
    (port_ : Z) : M (option ClientSession) :=
  g <- get_globals ;;
  match client_manager g with
  | Some false =>
      let s := {| session_id := sessions_created g;
                  protocol_version := protocol_version_;
                  address := address_; port := port_ |} in
      put_globals
        {| g_clientgate := g_clientgate g;
           g_registration_provider := g_registration_provider g;
           client_manager := client_manager g;
           sessions_created := S (sessions_created g);
           get_state := fun i => if Nat.eqb i (sessions_created g)
                                 then CONNECTING else get_state g i;
           steady_clock_now := steady_clock_now g |} ;;
      emit (create_client protocol_version_ address_ port_ (Some s)) ;;
      ret (Some s)
  | _ =>
      emit (create_client protocol_version_ address_ port_ None) ;;
      ret None
  end.

(** The conversion of an [unsigned int] to the [std::uint8_t] that
    [create_client] takes its version as: reduction modulo [2^8]. *)
Definition static_cast_uint8 (z : Z) : Z :=
  z mod 2 ^ 8.

(** The version rule of [CheckForNewServices]:
    [protocol_version = (iter.tcp_port_v1 != 0 ? iter.version : 0)] and
    [port_to_use = (protocol_version == 0 ? iter.tcp_port_v0 : iter.tcp_port_v1)]. *)
Definition protocol_version_of (iter : SServiceAttr) : Z :=
  if negb (tcp_port_v1 iter =? 0) then version iter else 0.

Definition port_to_use_of (iter : SServiceAttr) : Z :=
  if protocol_version_of iter =? 0 then tcp_port_v0 iter else tcp_port_v1 iter.

(** The loop of [CheckForNewServices] over [service_vec]; the [return]
    inside it leaves the whole function.  The port is chosen by the
    version as computed; [create_client] receives that version narrowed
    to eight bits. *)
Fixpoint CheckForNewServices_loop (service_vec : list SServiceAttr) : M unit :=
  match service_vec with
  | [] => ret tt
  | iter :: rest =>
      c <- get_this ;;
      match StdMap.find (key iter) (m_client_map c) with
      | Some _ => CheckForNewServices_loop rest
      | None =>
          g <- get_globals ;;
          match client_manager g with
          | None => ret tt
          | Some true => ret tt
          | Some false =>
              let protocol_version := protocol_version_of iter in
              let port_to_use := port_to_use_of iter in
              new_client_session <-
                manager_create_client (static_cast_uint8 protocol_version)
                  (hname iter) port_to_use ;;
              match new_client_session with
              | Some s =>
                  modify_this (fun c =>
                    set_client_map (StdMap.insert (key iter) s (m_client_map c)) c)
              | None => ret tt
              end ;;
              CheckForNewServices_loop rest
          end
      end
  end.

(** [void CServiceClientImpl::CheckForNewServices()] *)
Definition CheckForNewServices : M unit :=
  g <- get_globals ;;
  match g_clientgate g with
  | None => ret tt
  | Some GetServiceAttr =>
      c <- get_this ;;
      CheckForNewServices_loop (GetServiceAttr (m_service_name c))
  end.

(** ** Registration *)

(** The scan of [Register] over the entries of [m_client_map]: a FAILED
    session whose key is in [m_connected_services_map] has the disconnect
    callback called, when one is stored, and its key erased. *)
Fixpoint Register_scan (clients : list (string * ClientSession)) : M unit :=
  match clients with
  | [] => ret tt
  | (service_key, session) :: rest =>
      g <- get_globals ;;
      (if State_eqb (get_state g (session_id session)) FAILED then
         c <- get_this ;;
         match StdMap.find service_key (m_connected_services_map c) with
         | Some iter_second =>
             match StdMap.find client_event_disconnected (m_event_callback_map c) with
             | Some e_iter_second =>
                 t <- now_microseconds ;;
                 call_event_callback e_iter_second (m_service_name c)
                   {| type := client_event_disconnected; time := t;
                      attr := iter_second |}
             | None => ret tt
             end ;;
             modify_this (fun c =>
               set_connected_services_map
                 (StdMap.erase service_key (m_connected_services_map c)) c)
         | None => ret tt
         end
       else ret tt) ;;
      Register_scan rest
  end.

(** [void CServiceClientImpl::Register(const bool force_)] *)
Definition Register (force_ : bool) : M unit :=
  c <- get_this ;;
  if empty (m_service_name c) then ret tt
  else
    g <- get_globals ;;
    (if g_registration_provider g
     then emit (RegisterClient (m_service_name c) (m_service_id c) force_)
     else ret tt) ;;
    CheckForNewServices ;;
    c <- get_this ;;
    Register_scan (m_client_map c).

(** [void CServiceClientImpl::Unregister()] *)
Definition Unregister : M unit :=
  c <- get_this ;;
  if empty (m_service_name c) then ret tt
  else
    g <- get_globals ;;
    if g_registration_provider g
    then emit (UnregisterClient (m_service_name c) (m_service_id c))
    else ret tt.

(** [void CServiceClientImpl::RefreshRegistration()] *)
Definition RefreshRegistration : M unit :=
  c <- get_this ;;
  if negb (m_created c) then ret tt else Register false.

(** [void CServiceClientImpl::RegisterService(key_, service_)] *)
Definition RegisterService (key_ : string) (service_ : SServiceAttr) : M unit :=
  c <- get_this ;;
  match StdMap.find key_ (m_connected_services_map c) with
  | None =>
      match StdMap.find client_event_connected (m_event_callback_map c) with
      | Some e_iter_second =>
          t <- now_microseconds ;;
          call_event_callback e_iter_second (m_service_name c)
            {| type := client_event_connected; time := t; attr := service_ |}
      | None => ret tt
      end ;;
      modify_this (fun c =>
        set_connected_services_map
          (StdMap.insert key_ service_ (m_connected_services_map c)) c)
  | Some _ => ret tt
  end.

(** [bool CServiceClientImpl::IsConnected()] *)
Definition IsConnected : M bool :=
  c <- get_this ;;
  if negb (m_created c) then ret false
  else ret (negb (StdMap.is_empty (m_connected_services_map c))).

(** ** Creation and destruction *)

(** [bool CServiceClientImpl::Create(const std::string& service_name_)] *)
Definition Create (service_name_ : string) : M bool :=
  c <- get_this ;;
  if m_created c then ret false
  else
    modify_this (set_service_name service_name_) ;;
    g <- get_globals ;;
    modify_this
      (set_service_id (NilZero.string_of_int (Z.to_int (steady_clock_now g)))) ;;
    Register false ;;
    modify_this (set_created true) ;;
    ret true.

(** [bool CServiceClientImpl::Destroy()] *)
Definition Destroy : M bool :=
  c <- get_this ;;
  if negb (m_created c) then ret false
  else
    modify_this (set_client_map StdMap.empty) ;;
    modify_this (set_response_callback None) ;;
    modify_this (set_event_callback_map StdMap.empty) ;;
    Unregister ;;
    modify_this (set_service_name "") ;;
    modify_this (set_service_id "") ;;
    modify_this (set_host_name "") ;;
    modify_this (set_created false) ;;
    ret true.

(** [bool CServiceClientImpl::SetHostName(const std::string& host_name_)] *)
Definition SetHostName (host_name_ : string) : M bool :=
  (if String.eqb host_name_ "*" then modify_this (set_host_name "")
   else modify_this (set_host_name host_name_)) ;;
  ret true.

(** [bool CServiceClientImpl::AddResponseCallback(callback_)] *)
Definition AddResponseCallback (callback_ : ResponseCallbackT) : M bool :=
  modify_this (set_response_callback callback_) ;; ret true.

(** [bool CServiceClientImpl::RemResponseCallback()] *)
Definition RemResponseCallback : M bool :=
  modify_this (set_response_callback None) ;; ret true.

(** [bool CServiceClientImpl::AddEventCallback(type_, callback_)] *)
Definition AddEventCallback (type_ : eCAL_Client_Event)
    (callback_ : ClientEventCallbackT) : M bool :=
  c <- get_this ;;
  if negb (m_created c) then ret false
  else
    modify_this (fun c =>
      set_event_callback_map
        (StdMap.insert type_ callback_ (m_event_callback_map c)) c) ;;
    ret true.

(** [bool CServiceClientImpl::RemEventCallback(type_)]: the entry stays in
    the map and holds [nullptr]. *)
Definition RemEventCallback (type_ : eCAL_Client_Event) : M bool :=
  c <- get_this ;;
  if negb (m_created c) then ret false
  else
    modify_this (fun c =>
      set_event_callback_map
        (StdMap.insert type_ None (m_event_callback_map c)) c) ;;
    ret true.

(** ** Responses *)

(** [void CServiceClientImpl::fromProtobuf(response_pb, response)]: the
    [switch] leaves [call_state] as it was for a state other than executed
    and failed. *)
Definition fromProtobuf (response_pb : pb_Response) (r : SServiceResponse)
    : SServiceResponse :=
  let response_pb_header := pb_header response_pb in
  {| host_name := pb_hname response_pb_header;
     service_name := pb_sname response_pb_header;
     service_id := pb_sid response_pb_header;
     method_name := pb_mname response_pb_header;
     error_msg := pb_error response_pb_header;
     ret_state := static_cast_int (pb_ret_state response_pb);
     call_state :=
       match pb_state response_pb_header with
       | ServiceHeader_eCallState_executed => call_state_executed
       | ServiceHeader_eCallState_failed => call_state_failed
       | _ => call_state r
       end;
     response := pb_response response_pb |}.

(** [void CServiceClientImpl::fromSerializedProtobuf(response_pb_string, response)] *)
Definition fromSerializedProtobuf `{Protobuf} (response_pb_string : string)
    (r : SServiceResponse) : SServiceResponse :=
  match ParseFromString response_pb_string with
  | Some response_pb => fromProtobuf response_pb r
  | None =>
      {| host_name := host_name r; service_name := service_name r;
         service_id := service_id r; method_name := method_name r;
         error_msg := "Could not parse server response";
         ret_state := 0;
         call_state := call_state_failed;
         response := "" |}
  end.

(** The three assignments of a completion that resolves with an error. *)
Definition set_response_error (response_error : Error) (r : SServiceResponse)
    : SServiceResponse :=
  {| host_name := host_name r; service_name := service_name r;
     service_id := service_id r; method_name := method_name r;
     error_msg := ToString response_error;
     ret_state := 0;
     call_state := call_state_failed;
     response := response r |}.

(** [void CServiceClientImpl::ErrorCallback(method_name_, error_message_)] *)
Definition ErrorCallback (method_name_ error_message_ : string) : M unit :=
  c <- get_this ;;
  match m_response_callback c with
  | Some target =>
      emit (response_callback_call target
              {| host_name := ""; service_name := ""; service_id := "";
                 method_name := method_name_;
                 error_msg := error_message_;
                 ret_state := 0;
                 call_state := call_state_failed;
                 response := "" |})
  | None => ret tt
  end.

(** ** The blocking fan-out *)

(** [v[i] = x] on a vector, for an index in range. *)
Fixpoint vec_set {A : Type} (i : nat) (x : A) (v : list A) : list A :=
  match v, i with
  | [], _ => []
  | _ :: v', O => x :: v'
  | y :: v', S i' => y :: vec_set i' x v'
  end.

(** What the completions share with the caller: the slots and the two
    counters. *)
Record Aggregator : Type := {
  responses : ServiceResponseVecT;
  finished_service_call_count : Z;
  expected_service_call_count : Z
}.

Definition Aggregator_new : Aggregator :=
  {| responses := []; finished_service_call_count := 0;
     expected_service_call_count := 0 |}.

(** The slot that the dispatch loop appends for [service] before it calls
    the peer. *)
Definition Call_emplace_back (service : SServiceAttr) (method_name_ : string)
    : SServiceResponse :=
  {| host_name := hname service;
     service_name := sname service;
     service_id := key service;
     method_name := method_name_;
     error_msg := "Timeout";
     ret_state := 0;
     call_state := call_state_failed;
     response := "" |}.

(** The dispatch loop of [Call] over [service_vec]. *)
Fixpoint Call_dispatch (method_name_ request : string)
    (service_vec : list SServiceAttr) (agg : Aggregator) : M Aggregator :=
  match service_vec with
  | [] => ret agg
  | service :: rest =>
      c <- get_this ;;
      if empty (m_host_name c) || String.eqb (m_host_name c) (hname service) then
        match StdMap.find (key service) (m_client_map c) with
        | Some client =>
            let agg' :=
              {| responses :=
                   (responses agg ++ [Call_emplace_back service method_name_])%list;
                 finished_service_call_count := finished_service_call_count agg;
                 expected_service_call_count :=
                   expected_service_call_count agg + 1 |} in
            let i := (List.length (responses agg') - 1)%nat in
            emit (async_call_service client request (slot_completion i)) ;;
            Call_dispatch method_name_ request rest agg'
        | None => Call_dispatch method_name_ request rest agg
        end
      else Call_dispatch method_name_ request rest agg
  end.

(** The completion lambda of [Call] for slot [i]. *)
Definition Call_response_callback `{Protobuf} (i : nat)
    (response_error : Error) (response_ : string) (agg : Aggregator)
    : Aggregator :=
  let slot := nth i (responses agg) SServiceResponse_new in
  let slot' :=
    if is_error response_error then set_response_error response_error slot
    else fromSerializedProtobuf response_ slot in
  {| responses := vec_set i slot' (responses agg);
     finished_service_call_count := finished_service_call_count agg + 1;
     expected_service_call_count := expected_service_call_count agg |}.

(** The completions that ran before the caller's wait ended: [arrived i]
    is what the completion of slot [i] was called with, or [None] when it
    had not run by then.  Each one writes its own slot only, so the order
    they ran in does not show. *)
Fixpoint Call_completions `{Protobuf} (arrived : nat -> option (Error * string))
    (slots : list nat) (agg : Aggregator) : Aggregator :=
  match slots with
  | [] => agg
  | i :: rest =>
      match arrived i with
      | Some (response_error, response_) =>
          Call_completions arrived rest
            (Call_response_callback i response_error response_ agg)
      | None => Call_completions arrived rest agg
      end
  end.

(** [clear()], [resize(responses->size())] and the copy loop. *)
Definition Call_copy (slots : ServiceResponseVecT) : ServiceResponseVecT :=
  fold_left
    (fun vec i => vec_set i (nth i slots SServiceResponse_new) vec)
    (seq 0 (List.length slots))
    (repeat SServiceResponse_new (List.length slots)).

(** The last loop of [Call]. *)
Fixpoint Call_any_executed (slots : ServiceResponseVecT) : bool :=
  match slots with
  | [] => false
  | r :: rest =>
      if eCallState_eqb (call_state r) call_state_executed then true
      else Call_any_executed rest
  end.

(** How a blocking call ends: it returns its result, the caller's vector
    ([None] for [nullptr]) and leaves the aggregated slots behind (none
    when it returned before making the aggregator), or it waits forever. *)
Inductive CallReturn : Type :=
| Returns (result : bool) (service_response_vec_ : option ServiceResponseVecT)
    (slots : ServiceResponseVecT)
| Blocks.

(** [bool CServiceClientImpl::Call(method_name_, request_, timeout_, service_response_vec_)]:
    the gate is the one that the first guard found, a call being one
    step. *)
Definition Call `{Protobuf} (method_name_ request_ : string) (timeout_ : Z)
    (service_response_vec_ : option ServiceResponseVecT)
    (arrived : nat -> option (Error * string)) : M CallReturn :=
  g <- get_globals ;;
  c <- get_this ;;
  match g_clientgate g with
  | None => ret (Returns false service_response_vec_ [])
  | Some GetServiceAttr =>
      if negb (m_created c) then ret (Returns false service_response_vec_ [])
      else if empty (m_service_name c) || empty method_name_ then
        ret (Returns false service_response_vec_ [])
      else
        let cleared := option_map (fun _ => @nil SServiceResponse)
                         service_response_vec_ in
        CheckForNewServices ;;
        let request :=
          SerializeAsString {| pb_request_mname := method_name_;
                               pb_request := request_ |} in
        let service_vec := GetServiceAttr (m_service_name c) in
        dispatched <- Call_dispatch method_name_ request service_vec Aggregator_new ;;
        let agg :=
          Call_completions arrived (seq 0 (List.length (responses dispatched)))
            dispatched in
        if (0 <? timeout_)
           || (expected_service_call_count agg =? finished_service_call_count agg)
        then
          ret (Returns (Call_any_executed (responses agg))
                 (option_map (fun _ => Call_copy (responses agg)) cleared)
                 (responses agg))
        else ret Blocks
  end.

(** The loop of the callback variant over the responses. *)
Fixpoint Call_callbacks (response_vec : ServiceResponseVecT) : M unit :=
  match response_vec with
  | [] => ret tt
  | r :: rest =>
      c <- get_this ;;
      match m_response_callback c with
      | Some target => emit (response_callback_call target r)
      | None => ret tt
      end ;;
      Call_callbacks rest
  end.

(** [bool CServiceClientImpl::Call(method_name_, request_, timeout_)]:
    [None] when the call it makes waits forever. *)
Definition Call_callback `{Protobuf} (method_name_ request_ : string)
    (timeout_ : Z) (arrived : nat -> option (Error * string))
    : M (option bool) :=
  r <- Call method_name_ request_ timeout_ (Some []) arrived ;;
  match r with
  | Returns success (Some response_vec) _ =>
      Call_callbacks response_vec ;; ret (Some success)
  | Returns success None _ => ret (Some success)
  | Blocks => ret None
  end.

(** ** The asynchronous call *)

(** The completion lambda of [CallAsync]. *)
Definition CallAsync_response_callback `{Protobuf} (hostname servicename : string)
    (response_error : Error) (response_ : string) : M unit :=
  c <- get_this ;;
  match m_response_callback c with
  | Some target =>
      let service_response_struct :=
        {| host_name := hostname; service_name := servicename;
           service_id := ""; method_name := ""; error_msg := "";
           ret_state := 0; call_state := call_state_none; response := "" |} in
      emit (response_callback_call target
              (if is_error response_error
               then set_response_error response_error service_response_struct
               else fromSerializedProtobuf response_ service_response_struct))
  | None => ret tt
  end.

(** The loop of [CallAsync] over [service_vec]. *)
Fixpoint CallAsync_loop (request : string) (service_vec : list SServiceAttr)
    (at_least_one_service_was_called : bool) : M bool :=
  match service_vec with
  | [] => ret at_least_one_service_was_called
  | service :: rest =>
      c <- get_this ;;
      if empty (m_host_name c) || String.eqb (m_host_name c) (hname service) then
        match StdMap.find (key service) (m_client_map c) with
        | Some client =>
            emit (async_call_service client request
                    (async_completion (hname service) (sname service))) ;;
            CallAsync_loop request rest true
        | None => CallAsync_loop request rest at_least_one_service_was_called
        end
      else CallAsync_loop request rest at_least_one_service_was_called
  end.

(** [bool CServiceClientImpl::CallAsync(method_name_, request_)] *)
Definition CallAsync `{Protobuf} (method_name_ request_ : string) : M bool :=
  g <- get_globals ;;
  match g_clientgate g with
  | None => ErrorCallback method_name_ "Clientgate error." ;; ret false
  | Some GetServiceAttr =>
      c <- get_this ;;
      if negb (m_created c) then
        ErrorCallback method_name_ "Client hasn't been created yet." ;; ret false
      else if empty (m_service_name c) || empty method_name_ then
        ErrorCallback method_name_ "Invalid service or method name." ;; ret false
      else
        CheckForNewServices ;;
        let request :=
          SerializeAsString {| pb_request_mname := method_name_;
                               pb_request := request_ |} in
        CallAsync_loop request (GetServiceAttr (m_service_name c)) false
  end.

(** ** Runs *)

(** What can happen to a client: a call of one of its member functions, the
    completion of an asynchronous call, or a change of the globals around
    it (the gate and its table, the registration provider, the client
    manager, the state of a session, the clock). *)
Inductive Op : Type :=
| OpCreate (service_name_ : string)
| OpDestroy
| OpSetHostName (host_name_ : string)
| OpAddResponseCallback (callback_ : ResponseCallbackT)
| OpRemResponseCallback
| OpAddEventCallback (type_ : eCAL_Client_Event) (callback_ : ClientEventCallbackT)
| OpRemEventCallback (type_ : eCAL_Client_Event)
| OpCall (method_name_ request_ : string) (timeout_ : Z)
    (service_response_vec_ : option ServiceResponseVecT)
    (arrived : nat -> option (Error * string))
| OpCall_callback (method_name_ request_ : string) (timeout_ : Z)
    (arrived : nat -> option (Error * string))
| OpCallAsync (method_name_ request_ : string)
| OpCallAsync_response (hostname servicename : string) (response_error : Error)
    (response_ : string)
| OpIsConnected
| OpRegisterService (key_ : string) (service_ : SServiceAttr)
| OpRefreshRegistration
| OpRegister (force_ : bool)
| OpCheckForNewServices
| EnvClientGate (gate : option (string -> list SServiceAttr))
| EnvRegistrationProvider (present : bool)
| EnvClientManager (manager : option bool)
| EnvSessionState (session : nat) (state : State)
| EnvClock (now : Z).

Definition env_step (op : Op) (g : Globals) : Globals :=
  match op with
  | EnvClientGate gate =>
      {| g_clientgate := gate;
         g_registration_provider := g_registration_provider g;
         client_manager := client_manager g;
         sessions_created := sessions_created g;
         get_state := get_state g;
         steady_clock_now := steady_clock_now g |}
  | EnvRegistrationProvider present =>
      {| g_clientgate := g_clientgate g;
         g_registration_provider := present;
         client_manager := client_manager g;
         sessions_created := sessions_created g;
         get_state := get_state g;
         steady_clock_now := steady_clock_now g |}
  | EnvClientManager manager =>
      {| g_clientgate := g_clientgate g;
         g_registration_provider := g_registration_provider g;
         client_manager := manager;
         sessions_created := sessions_created g;
         get_state := get_state g;
         steady_clock_now := steady_clock_now g |}
  | EnvSessionState session state =>
      {| g_clientgate := g_clientgate g;
         g_registration_provider := g_registration_provider g;
         client_manager := client_manager g;
         sessions_created := sessions_created g;
         get_state := fun i => if Nat.eqb i session then state else get_state g i;
         steady_clock_now := steady_clock_now g |}
  | EnvClock now =>
      {| g_clientgate := g_clientgate g;
         g_registration_provider := g_registration_provider g;
         client_manager := client_manager g;
         sessions_created := sessions_created g;
         get_state := get_state g;
         steady_clock_now := now |}
  | _ => g
  end.

(** One step of a run; an exception leaves the function it was thrown in,
    and the client stays as it was at that point. *)
Definition step `{Protobuf} (op : Op) (w : World) : World :=
  match op with
  | OpCreate service_name_ => world_of (Create service_name_ w)
  | OpDestroy => world_of (Destroy w)
  | OpSetHostName host_name_ => world_of (SetHostName host_name_ w)
  | OpAddResponseCallback callback_ => world_of (AddResponseCallback callback_ w)
  | OpRemResponseCallback => world_of (RemResponseCallback w)
  | OpAddEventCallback type_ callback_ =>
      world_of (AddEventCallback type_ callback_ w)
  | OpRemEventCallback type_ => world_of (RemEventCallback type_ w)
  | OpCall method_name_ request_ timeout_ service_response_vec_ arrived =>
      world_of (Call method_name_ request_ timeout_ service_response_vec_ arrived w)
  | OpCall_callback method_name_ request_ timeout_ arrived =>
      world_of (Call_callback method_name_ request_ timeout_ arrived w)
  | OpCallAsync method_name_ request_ =>
      world_of (CallAsync method_name_ request_ w)
  | OpCallAsync_response hostname servicename response_error response_ =>
      world_of (CallAsync_response_callback hostname servicename
                  response_error response_ w)
  | OpIsConnected => world_of (IsConnected w)
  | OpRegisterService key_ service_ => world_of (RegisterService key_ service_ w)
  | OpRefreshRegistration => world_of (RefreshRegistration w)
  | OpRegister force_ => world_of (Register force_ w)
  | OpCheckForNewServices => world_of (CheckForNewServices w)
  | _ =>
      {| this := this w; globals := env_step op (globals w);
         effects := effects w |}
  end.

Definition run `{Protobuf} (ops : list Op) (w : World) : World :=
  fold_left (fun w op => step op w) ops w.

(** A freshly constructed client in a given environment. *)
Definition World_new (g : Globals) : World :=
  {| this := CServiceClientImpl_new; globals := g; effects := [] |}.

(** ** The deprecated call *)

(** The loop of the deprecated [Call] over [service_vec].  [answers n] is
    what the [n]-th [call_service] of the loop came back with, the error
    and the response; the sessions called, each with the request, are
    gathered in [called]. *)
Fixpoint Call_deprecated_loop `{Protobuf} (method_name_ request_ : string)
    (answers : nat -> Error * string) (service_vec : list SServiceAttr)
    (service_response_ : SServiceResponse)
    (called : list (ClientSession * string))
    : M (bool * SServiceResponse * list (ClientSession * string)) :=
  match service_vec with
  | [] => ret (false, service_response_, called)
  | iter :: rest =>
      c <- get_this ;;
      if empty (m_host_name c) || String.eqb (m_host_name c) (hname iter) then
        match StdMap.find (key iter) (m_client_map c) with
        | Some client =>
            let request :=
              SerializeAsString {| pb_request_mname := method_name_;
                                   pb_request := request_ |} in
            let error := fst (answers (List.length called)) in
            let response := snd (answers (List.length called)) in
            if is_error error then
              Call_deprecated_loop method_name_ request_ answers rest
                service_response_ (called ++ [(client, request)])
            else
              ret (true, fromSerializedProtobuf response service_response_,
                   (called ++ [(client, request)])%list)
        | None =>
            Call_deprecated_loop method_name_ request_ answers rest
              service_response_ called
        end
      else
        Call_deprecated_loop method_name_ request_ answers rest
          service_response_ called
  end.

(** [bool CServiceClientImpl::Call(method_name_, request_, service_response_)],
    the deprecated overload: the result, the caller's response and the
    calls to [call_service] it made. *)
Definition Call_deprecated `{Protobuf} (method_name_ request_ : string)
    (service_response_ : SServiceResponse) (answers : nat -> Error * string)
    : M (bool * SServiceResponse * list (ClientSession * string)) :=
  g <- get_globals ;;
  c <- get_this ;;
  match g_clientgate g with
  | None => ret (false, service_response_, [])
  | Some GetServiceAttr =>
      if negb (m_created c) then ret (false, service_response_, [])
      else if empty (m_service_name c) || empty method_name_ then
        ret (false, service_response_, [])
      else
        CheckForNewServices ;;
        Call_deprecated_loop method_name_ request_ answers
          (GetServiceAttr (m_service_name c)) service_response_ []
  end.

(** * The service server

    [eCAL::service::ServerImpl], the acceptor side of a service: it keeps
    the list of its sessions as weak pointers and one accept pending at a
    time.  A session is a number, in the order of creation; what a session
    does once started is not part of this file, so the moment it expires
    and its calls of the shutdown callback are steps of the environment.
    The verbose debug log ([ECAL_SERVICE_LOG_DEBUG_VERBOSE]) is left
    out. *)

Module Server.

(** The two session classes [start_accept] chooses between. *)
Inductive ServerSession : Type :=
| ServerSessionV0
| ServerSessionV1.

Inductive LogLevel : Type :=
| Info.

(** What the server does to its acceptor, its sessions and its logger. *)
Inductive Effect : Type :=
| session_create (session : nat) (class : ServerSession)
| acceptor_async_accept (session : nat) (version : Z)
| session_start (session : nat)
| session_stop (session : nat)
| acceptor_close
| logger (level : LogLevel) (message : string).

(** [session_list_], a vector of weak pointers. *)
Record ServerImpl : Type := {
  session_list_ : list nat
}.

(** [me] is what [weak_me.lock()] gives: nothing once the server is
    destroyed.  [alive] tells the sessions that have not expired;
    [accepting] is the closure of the pending accept handler, which holds
    [new_session] and [version]. *)
Record World : Type := {
  me : option ServerImpl;
  alive : nat -> bool;
  sessions_created : nat;
  accepting : option (nat * Z);
  effects : list Effect
}.

Definition emit (e : list Effect) (w : World) : World :=
  {| me := me w; alive := alive w; sessions_created := sessions_created w;
     accepting := accepting w; effects := effects w ++ e |}.

Definition set_session_list (l : list nat) (w : World) : World :=
  {| me := Some {| session_list_ := l |}; alive := alive w;
     sessions_created := sessions_created w; accepting := accepting w;
     effects := effects w |}.

(** [std::weak_ptr::lock] on a session. *)
Definition lock (w : World) (session_weak : nat) : option nat :=
  if alive w session_weak then Some session_weak else None.

(** [operator==] of two shared pointers to sessions. *)
Definition shared_ptr_eqb (a b : option nat) : bool :=
  match a, b with
  | Some x, Some y => Nat.eqb x y
  | None, None => true
  | _, _ => false
  end.

(** [std::find_if] followed by [erase] of the position found, if any. *)
Fixpoint erase_first (p : nat -> bool) (l : list nat) : list nat :=
  match l with
  | [] => []
  | x :: rest => if p x then rest else x :: erase_first p rest
  end.

(** The lambda [shutdown_callback] that [start_accept] hands to every
    session. *)
Definition shutdown_callback (session_to_remove : option nat) (w : World) : World :=
  match me w with
  | Some srv =>
      set_session_list
        (erase_first
           (fun existing_session =>
              shared_ptr_eqb session_to_remove (lock w existing_session))
           (session_list_ srv))
        w
  | None => w
  end.

(** [void ServerImpl::start_accept(unsigned int version)]. *)
Definition start_accept (version : Z) (w : World) : World :=
  let new_session := sessions_created w in
  {| me := me w;
     alive := fun s => if Nat.eqb s new_session then true else alive w s;
     sessions_created := S new_session;
     accepting := Some (new_session, version);
     effects :=
       effects w
       ++ [session_create new_session
             (if version =? 0 then ServerSessionV0 else ServerSessionV1);
           acceptor_async_accept new_session version] |}.

(** The handler given to [async_accept]; [ec] is the message of the error
    code, if it is one. *)
Definition accept_handler (new_session : nat) (version : Z) (ec : option string)
    (w : World) : World :=
  match ec with
  | Some message =>
      emit [logger Info ("Service shutting down: " ++ message)] w
  | None =>
      let w1 :=
        match me w with
        | Some srv =>
            emit [session_start new_session]
              (set_session_list (session_list_ srv ++ [new_session]) w)
        | None => w
        end in
      match me w1 with
      | Some _ => start_accept version w1
      | None => emit [logger Info "Service shutting down."] w1
      end
  end.

(** [void ServerImpl::stop()]. *)
Definition stop (w : World) : World :=
  match me w with
  | Some srv =>
      emit
        (acceptor_close
         :: flat_map
              (fun session_weak =>
                 match lock w session_weak with
                 | Some session => [session_stop session]
                 | None => []
                 end)
              (session_list_ srv))
        w
  | None => w
  end.

(** [ServerImpl::~ServerImpl()]. *)
Definition ServerImpl_destructor (w : World) : World :=
  let w1 := stop w in
  {| me := None; alive := alive w1; sessions_created := sessions_created w1;
     accepting := accepting w1; effects := effects w1 |}.

(** [ServerImpl::create]: the constructor, then [start_accept]. *)
Definition create (protocol_version : Z) : World :=
  start_accept protocol_version
    {| me := Some {| session_list_ := [] |}; alive := fun _ => false;
       sessions_created := 0; accepting := None; effects := [] |}.

(** [int ServerImpl::get_connection_count() const]. *)
Definition get_connection_count (srv : ServerImpl) : Z :=
  static_cast_int (Z.of_nat (List.length (session_list_ srv))).

(** [bool ServerImpl::is_connected() const]. *)
Definition is_connected (srv : ServerImpl) : bool :=
  0 <? get_connection_count srv.

(** What happens to a server: the pending accept completes, a session
    calls the shutdown callback, the owner stops or destroys the server,
    a session expires. *)
Inductive Op : Type :=
| OpAccepted (ec : option string)
| OpShutdown (session_to_remove : option nat)
| OpStop
| OpDestroy
| OpExpire (session : nat).

Definition step (op : Op) (w : World) : World :=
  match op with
  | OpAccepted ec =>
      match accepting w with
      | Some (new_session, version) =>
          accept_handler new_session version ec
            {| me := me w; alive := alive w;
               sessions_created := sessions_created w;
               accepting := None; effects := effects w |}
      | None => w
      end
  | OpShutdown session_to_remove =>
      match session_to_remove with
      | Some s => if alive w s then shutdown_callback session_to_remove w else w
      | None => shutdown_callback None w
      end
  | OpStop => stop w
  | OpDestroy =>
      match me w with
      | Some _ => ServerImpl_destructor w
      | None => w
      end
  | OpExpire session =>
      match accepting w with
      | Some (new_session, _) =>
          if Nat.eqb session new_session then w
          else {| me := me w;
                  alive := fun s => if Nat.eqb s session then false else alive w s;
                  sessions_created := sessions_created w;
                  accepting := accepting w; effects := effects w |}
      | None =>
          {| me := me w;
             alive := fun s => if Nat.eqb s session then false else alive w s;
             sessions_created := sessions_created w;
             accepting := accepting w; effects := effects w |}
      end
  end.

Fixpoint run (ops : list Op) (w : World) : World :=
  match ops with
  | [] => w
  | op :: rest => run rest (step op w)
  end.

End Server.

(** * Topic information *)

Module TopicInformation.

(** [struct TopicInformation] of [ecal_types.h]. *)
Record TopicInformation : Type := {
  encoding : string;
  type : string;
  descriptor : string
}.

(** [bool operator==(const TopicInformation& other) const]. *)
Definition operator_eq (this other : TopicInformation) : bool :=
  String.eqb (encoding this) (encoding other)
  && String.eqb (type this) (type other)
  && String.eqb (descriptor this) (descriptor other).

(** [bool operator!=(const TopicInformation& other) const]. *)
Definition operator_neq (this other : TopicInformation) : bool :=
  negb (operator_eq this other).

End TopicInformation.

(** * Properties *)

(** ** Lookup after insertion and erasure *)

Module StdMapFacts.
Section Facts.
Context {K V : Type} `{StdLess K}.

Lemma key_compare_refl (k : K) : key_compare k k = Eq.
Proof. apply key_compare_eq. reflexivity. Qed.

Lemma find_insert_eq (k : K) (v : V) (m : StdMap.t K V) :
  StdMap.find k (StdMap.insert k v m) = Some v.
Proof.
  induction m as [|[k' v'] m IH]; simpl.
  - rewrite key_compare_refl. reflexivity.
  - destruct (key_compare k k') eqn:E; simpl.
    + rewrite key_compare_refl. reflexivity.
    + rewrite key_compare_refl. reflexivity.
    + rewrite E. exact IH.
Qed.

Lemma find_insert_neq (k k2 : K) (v : V) (m : StdMap.t K V) :
  k2 <> k -> StdMap.find k2 (StdMap.insert k v m) = StdMap.find k2 m.
Proof.
  intros Hn. induction m as [|[k' v'] m IH]; simpl.
  - destruct (key_compare k2 k) eqn:E; try reflexivity.
    apply key_compare_eq in E. contradiction.
  - destruct (key_compare k k') eqn:E; simpl.
    + apply key_compare_eq in E. subst k'.
      destruct (key_compare k2 k) eqn:E2; try reflexivity.
      apply key_compare_eq in E2. contradiction.
    + destruct (key_compare k2 k) eqn:E2; try reflexivity.
      apply key_compare_eq in E2. contradiction.
    + rewrite IH. reflexivity.
Qed.

Lemma find_erase_eq (k : K) (m : StdMap.t K V) :
  StdMap.find k (StdMap.erase k m) = None.
Proof.
  induction m as [|[k' v'] m IH]; simpl; [reflexivity|].
  destruct (key_compare k k') eqn:E; simpl; try rewrite E; exact IH.
Qed.

Lemma find_erase_neq (k k2 : K) (m : StdMap.t K V) :
  k2 <> k -> StdMap.find k2 (StdMap.erase k m) = StdMap.find k2 m.
Proof.
  intros Hn. induction m as [|[k' v'] m IH]; simpl; [reflexivity|].
  destruct (key_compare k k') eqn:E; simpl.
  - apply key_compare_eq in E. subst k'.
    destruct (key_compare k2 k) eqn:E2; try exact IH.
    apply key_compare_eq in E2. contradiction.
  - rewrite IH. reflexivity.
  - rewrite IH. reflexivity.
Qed.

Lemma find_erase_none (k k2 : K) (m : StdMap.t K V) :
  StdMap.find k2 m = None -> StdMap.find k2 (StdMap.erase k m) = None.
Proof.
  intros Hf. induction m as [|[k' v'] m IH]; simpl; [reflexivity|].
  simpl in Hf. destruct (key_compare k2 k') eqn:E2; try discriminate Hf.
  - destruct (key_compare k k'); simpl; try rewrite E2; auto.
  - destruct (key_compare k k'); simpl; try rewrite E2; auto.
Qed.

Lemma find_some_in (k : K) (v : V) (m : StdMap.t K V) :
  StdMap.find k m = Some v -> In (k, v) m.
Proof.
  induction m as [|[k' v'] m IH]; simpl; [discriminate|].
  destruct (key_compare k k') eqn:E; intros Hf.
  - apply key_compare_eq in E. subst k'. injection Hf as ->. now left.
  - right. auto.
  - right. auto.
Qed.

End Facts.
End StdMapFacts.

(** ** A protocol buffer codec to run examples with

    A response string that starts with [+] parses to an executed response
    with return state 7 whose payload is the rest of the string; any other
    string does not parse. *)
Definition example_codec : Protobuf :=
  {| ParseFromString := fun s =>
       match s with
       | String "+"%char body =>
           Some {| pb_header :=
                     {| pb_hname := "server"; pb_sname := "svc"; pb_sid := "1";
                        pb_mname := "echo"; pb_error := "";
                        pb_state := ServiceHeader_eCallState_executed |};
                   pb_ret_state := 7;
                   pb_response := body |}
       | _ => None
       end;
     SerializeAsString := fun r => pb_request_mname r ++ ":" ++ pb_request r |}.

(** A peer that announces protocol version [v] and both ports. *)
Definition example_peer (k h : string) (v : Z) : SServiceAttr :=
  {| key := k; hname := h; sname := "svc"; sid := "9"; version := v;
     tcp_port_v0 := 5000; tcp_port_v1 := 5001 |}.

(** Globals with a gate that knows [peers] for the service "svc", a
    registration provider and a running client manager. *)
Definition example_globals (peers : list SServiceAttr) : Globals :=
  {| g_clientgate :=
       Some (fun n => if String.eqb n "svc" then peers else []);
     g_registration_provider := true;
     client_manager := Some false;
     sessions_created := 0%nat;
     get_state := fun _ => CONNECTING;
     steady_clock_now := 123456 |}.

(** The arrivals of a call in which the first peer answered in time, with
    a response that parses, and no other peer did. *)
Definition example_first_arrived (i : nat) : option (Error * string) :=
  match i with
  | O => Some ({| is_error := false; ToString := "" |}, "+hi")
  | S _ => None
  end.

(** Globals of a process in which eCAL is not initialized: no gate, no
    registration provider, no client manager. *)
Definition uninitialized_globals : Globals :=
  {| g_clientgate := None;
     g_registration_provider := false;
     client_manager := None;
     sessions_created := 0%nat;
     get_state := fun _ => CONNECTING;
     steady_clock_now := 123456 |}.

(** ** The error paths of [CallAsync] *)

(** C8.  When the client gate is absent, or the client has not been
    created, or the service name or the method name is empty, [CallAsync]
    returns false and changes nothing; with a response callback registered
    it calls that callback exactly once, with call state failed, return
    state 0, the given method name, an empty response and one of the three
    error messages, and with none registered it calls nothing. *)
Theorem CallAsync_rejected `{Protobuf} (w : World) (method_name_ request_ : string) :
  g_clientgate (globals w) = None \/ m_created (this w) = false \/
  m_service_name (this w) = "" \/ method_name_ = "" ->
  exists error_message w',
    In error_message ["Clientgate error."; "Client hasn't been created yet.";
                      "Invalid service or method name."] /\
    CallAsync method_name_ request_ w = Ok false w' /\
    this w' = this w /\ globals w' = globals w /\
    effects w' =
      (effects w ++
       match m_response_callback (this w) with
       | Some target =>
           [response_callback_call target
              {| host_name := ""; service_name := ""; service_id := "";
                 method_name := method_name_;
                 error_msg := error_message;
                 ret_state := 0;
                 call_state := call_state_failed;
                 response := "" |}]
       | None => []
       end)%list.
Proof.
  intros Hguard.
  assert (Herr : forall msg,
    exists w', (ErrorCallback method_name_ msg ;; ret false) w = Ok false w' /\
      this w' = this w /\ globals w' = globals w /\
      effects w' =
        (effects w ++
         match m_response_callback (this w) with
         | Some target =>
             [response_callback_call target
                {| host_name := ""; service_name := ""; service_id := "";
                   method_name := method_name_; error_msg := msg;
                   ret_state := 0; call_state := call_state_failed;
                   response := "" |}]
         | None => []
         end)%list).
  { intros msg. unfold ErrorCallback, bind, get_this, ret, emit.
    destruct (m_response_callback (this w)) as [target|]; simpl.
    - eexists. repeat split.
    - exists w. repeat split. rewrite app_nil_r. reflexivity. }
  unfold CallAsync. unfold bind at 1. unfold get_globals at 1.
  destruct (g_clientgate (globals w)) as [gate|] eqn:Eg.
  - unfold bind at 1. unfold get_this at 1.
    destruct (m_created (this w)) eqn:Ec; simpl negb; cbv iota.
    + destruct (empty (m_service_name (this w)) || empty method_name_) eqn:En.
      * destruct (Herr "Invalid service or method name.") as [w' Hw'].
        exists "Invalid service or method name.", w'. split; [simpl; tauto|exact Hw'].
      * exfalso. apply orb_false_iff in En. destruct En as [E1 E2].
        destruct Hguard as [Hg|[Hg|[Hg|Hg]]]; try discriminate Hg.
        -- rewrite Hg in E1. discriminate E1.
        -- rewrite Hg in E2. discriminate E2.
    + destruct (Herr "Client hasn't been created yet.") as [w' Hw'].
      exists "Client hasn't been created yet.", w'. split; [simpl; tauto|exact Hw'].
  - destruct (Herr "Clientgate error.") as [w' Hw'].
    exists "Clientgate error.", w'. split; [simpl; tauto|exact Hw'].
Qed.

(** ** Relations that member functions preserve *)

(** [preserves R m]: whatever [m] does, returning or throwing, the world it
    leaves is related by [R] to the world it started in. *)
Definition preserves {A : Type} (R : World -> World -> Prop) (m : M A) : Prop :=
  forall w, R w (world_of (m w)).

Section Preserves.
Variable R : World -> World -> Prop.
Hypothesis R_refl : forall w, R w w.
Hypothesis R_trans : forall a b c, R a b -> R b c -> R a c.

Lemma preserves_ret {A : Type} (a : A) : preserves R (ret a).
Proof. intros w. apply R_refl. Qed.

Lemma preserves_throw {A : Type} (e : Exception) : preserves R (@throw A e).
Proof. intros w. apply R_refl. Qed.

Lemma preserves_get_this : preserves R get_this.
Proof. intros w. apply R_refl. Qed.

Lemma preserves_get_globals : preserves R get_globals.
Proof. intros w. apply R_refl. Qed.

Lemma preserves_bind {A B : Type} (m : M A) (k : A -> M B) :
  preserves R m -> (forall a, preserves R (k a)) -> preserves R (bind m k).
Proof.
  intros Hm Hk w. unfold bind. specialize (Hm w).
  destruct (m w) as [a w'|e w']; simpl in *.
  - eapply R_trans; [exact Hm|]. apply Hk.
  - exact Hm.
Qed.

Lemma preserves_now_microseconds : preserves R now_microseconds.
Proof.
  apply preserves_bind; [apply preserves_get_globals|].
  intros g. apply preserves_ret.
Qed.

End Preserves.

(** ** The discovery refresh *)

(** What a refresh may change: it adds sessions to [m_client_map] for keys
    that had none, creates sessions, and calls [create_client]; the rest
    of the client, the gate, the provider, the manager, the clock and the
    state of the sessions that existed stay. *)
Definition is_create_client (e : Effect) : Prop :=
  match e with
  | create_client _ _ _ _ => True
  | _ => False
  end.

Record refreshed (w w' : World) : Prop := {
  refreshed_service_name : m_service_name (this w') = m_service_name (this w);
  refreshed_service_id : m_service_id (this w') = m_service_id (this w);
  refreshed_host_name : m_host_name (this w') = m_host_name (this w);
  refreshed_connected :
    m_connected_services_map (this w') = m_connected_services_map (this w);
  refreshed_event_callbacks :
    m_event_callback_map (this w') = m_event_callback_map (this w);
  refreshed_response_callback :
    m_response_callback (this w') = m_response_callback (this w);
  refreshed_created : m_created (this w') = m_created (this w);
  refreshed_client_map :
    forall k s, StdMap.find k (m_client_map (this w)) = Some s ->
                StdMap.find k (m_client_map (this w')) = Some s;
  refreshed_gate : g_clientgate (globals w') = g_clientgate (globals w);
  refreshed_provider :
    g_registration_provider (globals w') = g_registration_provider (globals w);
  refreshed_manager : client_manager (globals w') = client_manager (globals w);
  refreshed_clock : steady_clock_now (globals w') = steady_clock_now (globals w);
  refreshed_effects :
    exists more, effects w' = (effects w ++ more)%list /\
                 Forall is_create_client more
}.

Lemma refreshed_refl (w : World) : refreshed w w.
Proof.
  constructor; try reflexivity; auto.
  exists []. split; [symmetry; apply app_nil_r | constructor].
Qed.

Lemma refreshed_trans (a b c : World) :
  refreshed a b -> refreshed b c -> refreshed a c.
Proof.
  intros [] []. constructor; try congruence; auto.
  destruct refreshed_effects0 as [m1 [E1 F1]].
  destruct refreshed_effects1 as [m2 [E2 F2]].
  exists (m1 ++ m2)%list. split.
  - rewrite E2, E1, app_assoc. reflexivity.
  - apply Forall_app. split; assumption.
Qed.

#[local] Hint Resolve refreshed_refl refreshed_trans : core.

Lemma manager_create_client_refreshed (v : Z) (a : string) (p : Z) :
  preserves refreshed (manager_create_client v a p).
Proof.
  intros w. unfold manager_create_client, bind, get_globals, put_globals, emit, ret.
  destruct (client_manager (globals w)) as [[|]|] eqn:E; simpl;
    constructor; simpl; try reflexivity; auto;
    eexists; (split; [reflexivity | repeat constructor]).
Qed.

Lemma insert_session_refreshed (k : string) (s : ClientSession) (w : World) :
  StdMap.find k (m_client_map (this w)) = None ->
  refreshed w
    (world_of (modify_this (fun c =>
       set_client_map (StdMap.insert k s (m_client_map c)) c) w)).
Proof.
  intros Hnone. unfold modify_this, bind, get_this, put_this. simpl.
  constructor; simpl; try reflexivity.
  - intros k2 s2 Hf.
    destruct (String.eqb_spec k2 k) as [->|Hn].
    + rewrite Hnone in Hf. discriminate Hf.
    + rewrite StdMapFacts.find_insert_neq by exact Hn. exact Hf.
  - exists []. split; [symmetry; apply app_nil_r | constructor].
Qed.

Lemma CheckForNewServices_loop_refreshed (service_vec : list SServiceAttr) :
  preserves refreshed (CheckForNewServices_loop service_vec).
Proof.
  induction service_vec as [|iter rest IH]; intros w; simpl.
  - apply refreshed_refl.
  - unfold bind at 1. unfold get_this at 1.
    destruct (StdMap.find (key iter) (m_client_map (this w))) eqn:Ef.
    + apply IH.
    + unfold bind at 1. unfold get_globals at 1.
      destruct (client_manager (globals w)) as [[|]|] eqn:Em;
        try apply refreshed_refl.
      unfold bind at 1.
      pose proof (manager_create_client_refreshed
                    (static_cast_uint8 (protocol_version_of iter)) (hname iter)
                    (port_to_use_of iter) w) as Hc.
      destruct (manager_create_client (static_cast_uint8 (protocol_version_of iter))
                  (hname iter) (port_to_use_of iter) w)
        as [new w1|e w1] eqn:Ec; simpl in Hc.
      * unfold bind at 1. destruct new as [s|].
        -- assert (Hn1 : StdMap.find (key iter) (m_client_map (this w1)) = None).
           { revert Ec. unfold manager_create_client, bind, get_globals,
               put_globals, emit, ret. rewrite Em. simpl.
             intros Ec. injection Ec as _ <-. simpl. exact Ef. }
           pose proof (insert_session_refreshed (key iter) s w1 Hn1) as Hi.
           destruct (modify_this _ w1) as [[] w2|e w2] eqn:Ei; simpl in Hi.
           ++ eapply refreshed_trans; [exact Hc|].
              eapply refreshed_trans; [exact Hi|]. apply IH.
           ++ simpl. eapply refreshed_trans; [exact Hc|exact Hi].
        -- unfold ret at 1. eapply refreshed_trans; [exact Hc|]. apply IH.
      * simpl. exact Hc.
Qed.

Lemma CheckForNewServices_refreshed : preserves refreshed CheckForNewServices.
Proof.
  intros w. unfold CheckForNewServices, bind, get_globals, get_this.
  destruct (g_clientgate (globals w)); simpl.
  - apply CheckForNewServices_loop_refreshed.
  - apply refreshed_refl.
Qed.

(** The refresh never throws. *)
Lemma CheckForNewServices_loop_returns (service_vec : list SServiceAttr) (w : World) :
  exists w', CheckForNewServices_loop service_vec w = Ok tt w'.
Proof.
  revert w. induction service_vec as [|iter rest IH]; intros w; simpl.
  - exists w. reflexivity.
  - unfold bind at 1. unfold get_this at 1.
    destruct (StdMap.find (key iter) (m_client_map (this w))); [apply IH|].
    unfold bind at 1. unfold get_globals at 1.
    destruct (client_manager (globals w)) as [[|]|] eqn:Em;
      try (exists w; reflexivity).
    unfold manager_create_client, bind, get_globals, put_globals, emit, ret,
      modify_this, get_this, put_this.
    rewrite Em. simpl. apply IH.
Qed.

Lemma CheckForNewServices_returns (w : World) :
  exists w', CheckForNewServices w = Ok tt w'.
Proof.
  unfold CheckForNewServices, bind, get_globals, get_this.
  destruct (g_clientgate (globals w)).
  - apply CheckForNewServices_loop_returns.
  - exists w. reflexivity.
Qed.




(** A peer that announces version 256 with both ports: the port is chosen
    by 256, which is not 0, and the session is created with version 0. *)
Lemma CheckForNewServices_narrows_version :
  effects (@run example_codec [OpCreate "svc"]
             (World_new (example_globals [example_peer "k1" "h1" 256]))) =
    [RegisterClient "svc" "123456" false;
     create_client 0 "h1" 5001
       (Some {| session_id := 0; protocol_version := 0;
                address := "h1"; port := 5001 |})].
Proof. vm_compute. reflexivity. Qed.



(** ** Vectors of slots *)

Lemma vec_set_length {A : Type} (i : nat) (x : A) (v : list A) :
  List.length (vec_set i x v) = List.length v.
Proof.
  revert i. induction v as [|y v IH]; intros [|i]; simpl; auto.
Qed.

Lemma nth_error_vec_set_eq {A : Type} (i : nat) (x : A) (v : list A) :
  (i < List.length v)%nat -> nth_error (vec_set i x v) i = Some x.
Proof.
  revert i. induction v as [|y v IH]; intros [|i] Hlt; simpl in *; try lia.
  - reflexivity.
  - apply IH. lia.
Qed.

Lemma nth_error_vec_set_neq {A : Type} (i j : nat) (x : A) (v : list A) :
  i <> j -> nth_error (vec_set i x v) j = nth_error v j.
Proof.
  revert i j. induction v as [|y v IH]; intros [|i] [|j] Hn; simpl; auto.
  - contradiction.
Qed.

Lemma existsb_eqb_seq (i start len : nat) :
  (start <= i < start + len)%nat -> existsb (Nat.eqb i) (seq start len) = true.
Proof.
  intros Hi. apply existsb_exists. exists i. split.
  - apply in_seq. exact Hi.
  - apply Nat.eqb_refl.
Qed.

Lemma existsb_eqb_notin (i : nat) (l : list nat) :
  ~ In i l -> existsb (Nat.eqb i) l = false.
Proof.
  intros Hn. destruct (existsb (Nat.eqb i) l) eqn:E; [|reflexivity].
  apply existsb_exists in E. destruct E as [j [Hj Ej]].
  apply Nat.eqb_eq in Ej. subst j. contradiction.
Qed.

(** The copy into the caller's vector yields the slots themselves. *)
Lemma Call_copy_fold (slots : ServiceResponseVecT) (idxs : list nat) :
  forall vec j,
    List.length vec = List.length slots ->
    nth_error
      (fold_left (fun vec i => vec_set i (nth i slots SServiceResponse_new) vec)
         idxs vec) j =
    if existsb (Nat.eqb j) idxs then nth_error slots j else nth_error vec j.
Proof.
  induction idxs as [|i idxs IH]; intros vec j Hlen; simpl; [reflexivity|].
  rewrite IH by (rewrite vec_set_length; exact Hlen).
  destruct (existsb (Nat.eqb j) idxs) eqn:E.
  - rewrite orb_true_r. reflexivity.
  - rewrite orb_false_r. destruct (Nat.eqb_spec j i) as [->|Hn].
    + destruct (Nat.lt_ge_cases i (List.length slots)) as [Hlt|Hge].
      * rewrite nth_error_vec_set_eq by lia.
        symmetry. apply nth_error_nth'. exact Hlt.
      * rewrite (proj2 (nth_error_None slots i)) by exact Hge.
        apply nth_error_None. rewrite vec_set_length. lia.
    + apply nth_error_vec_set_neq. auto.
Qed.

Lemma Call_copy_eq (slots : ServiceResponseVecT) : Call_copy slots = slots.
Proof.
  apply nth_error_ext. intros j. unfold Call_copy.
  rewrite Call_copy_fold by apply repeat_length.
  destruct (Nat.lt_ge_cases j (List.length slots)) as [Hlt|Hge].
  - rewrite existsb_eqb_seq by lia. reflexivity.
  - rewrite existsb_eqb_notin by (rewrite in_seq; lia).
    rewrite (proj2 (nth_error_None slots j)) by exact Hge.
    apply nth_error_None. rewrite repeat_length. exact Hge.
Qed.

(** The last loop finds an executed slot exactly when there is one. *)
Lemma Call_any_executed_iff (slots : ServiceResponseVecT) :
  Call_any_executed slots = true <->
  exists i slot, nth_error slots i = Some slot /\
                 call_state slot = call_state_executed.
Proof.
  induction slots as [|r rest IH]; simpl.
  - split; [discriminate|]. intros [[|i] [slot [Hn _]]]; discriminate Hn.
  - destruct (call_state r) eqn:E; simpl.
    + rewrite IH. split.
      * intros [i [slot [Hn Hs]]]. exists (S i), slot. auto.
      * intros [[|i] [slot [Hn Hs]]]; simpl in Hn.
        -- injection Hn as <-. congruence.
        -- exists i, slot. auto.
    + split; [|reflexivity]. intros _. exists 0%nat, r. auto.
    + rewrite IH. split.
      * intros [i [slot [Hn Hs]]]. exists (S i), slot. auto.
      * intros [[|i] [slot [Hn Hs]]]; simpl in Hn.
        -- injection Hn as <-. congruence.
        -- exists i, slot. auto.
Qed.

(** ** Completions *)

(** What becomes of a slot: untouched while its completion has not run,
    otherwise rewritten from the error or from the response. *)
Definition resolve `{Protobuf} (a : option (Error * string))
    (slot : SServiceResponse) : SServiceResponse :=
  match a with
  | Some (response_error, response_) =>
      if is_error response_error then set_response_error response_error slot
      else fromSerializedProtobuf response_ slot
  | None => slot
  end.

Lemma Call_completions_length `{Protobuf} (arrived : nat -> option (Error * string))
    (idxs : list nat) (agg : Aggregator) :
  List.length (responses (Call_completions arrived idxs agg)) =
  List.length (responses agg).
Proof.
  revert agg. induction idxs as [|j idxs IH]; intros agg; simpl; [reflexivity|].
  destruct (arrived j) as [[e r]|]; rewrite IH; [|reflexivity].
  unfold Call_response_callback. simpl. apply vec_set_length.
Qed.

Lemma Call_completions_expected `{Protobuf} (arrived : nat -> option (Error * string))
    (idxs : list nat) (agg : Aggregator) :
  expected_service_call_count (Call_completions arrived idxs agg) =
  expected_service_call_count agg.
Proof.
  revert agg. induction idxs as [|j idxs IH]; intros agg; simpl; [reflexivity|].
  destruct (arrived j) as [[e r]|]; rewrite IH; reflexivity.
Qed.

Lemma Call_completions_finished `{Protobuf} (arrived : nat -> option (Error * string))
    (idxs : list nat) (agg : Aggregator) :
  (forall i, In i idxs -> arrived i <> None) ->
  finished_service_call_count (Call_completions arrived idxs agg) =
  finished_service_call_count agg + Z.of_nat (List.length idxs).
Proof.
  revert agg. induction idxs as [|j idxs IH]; intros agg Hall.
  - simpl. lia.
  - cbn [Call_completions]. destruct (arrived j) as [[e r]|] eqn:E.
    + rewrite IH by (intros i Hi; apply Hall; now right).
      cbn [Call_response_callback finished_service_call_count List.length]. lia.
    + exfalso. apply (Hall j); [now left|exact E].
Qed.

Lemma Call_completions_slot `{Protobuf} (arrived : nat -> option (Error * string))
    (idxs : list nat) :
  NoDup idxs ->
  forall agg i slot,
    nth_error (responses agg) i = Some slot ->
    nth_error (responses (Call_completions arrived idxs agg)) i =
    Some (if existsb (Nat.eqb i) idxs then resolve (arrived i) slot else slot).
Proof.
  induction idxs as [|j idxs IH]; intros Hnd agg i slot Hslot; simpl.
  - exact Hslot.
  - inversion Hnd as [|? ? Hnotin Hnd']; subst.
    assert (Hlt : (i < List.length (responses agg))%nat).
    { apply nth_error_Some. rewrite Hslot. discriminate. }
    destruct (Nat.eqb_spec i j) as [->|Hn]; simpl.
    + destruct (arrived j) as [[e r]|] eqn:E.
      * erewrite IH; [|exact Hnd'|].
        2:{ unfold Call_response_callback. cbn [responses].
            apply nth_error_vec_set_eq. exact Hlt. }
        rewrite (existsb_eqb_notin j idxs Hnotin).
        rewrite (nth_error_nth _ _ _ Hslot). reflexivity.
      * erewrite IH; [|exact Hnd'|exact Hslot].
        rewrite (existsb_eqb_notin j idxs Hnotin). reflexivity.
    + destruct (arrived j) as [[e r]|] eqn:E.
      * apply IH; [exact Hnd'|].
        unfold Call_response_callback. cbn [responses].
        rewrite nth_error_vec_set_neq by auto. exact Hslot.
      * apply IH; assumption.
Qed.

(** ** The dispatch loop *)

(** The peers of a snapshot that a fan-out dispatches to: those whose host
    passes the filter and whose key has a session. *)
Definition host_matches (c : CServiceClientImpl) (service : SServiceAttr) : bool :=
  empty (m_host_name c) || String.eqb (m_host_name c) (hname service).

Definition has_session (c : CServiceClientImpl) (service : SServiceAttr) : bool :=
  match StdMap.find (key service) (m_client_map c) with
  | Some _ => true
  | None => false
  end.

Definition dispatched_peers (c : CServiceClientImpl)
    (service_vec : list SServiceAttr) : list SServiceAttr :=
  filter (fun service => host_matches c service && has_session c service)
    service_vec.

Definition is_slot_call (e : Effect) : Prop :=
  match e with
  | async_call_service _ _ (slot_completion _) => True
  | _ => False
  end.

Lemma dispatched_peers_cons (c : CServiceClientImpl) (service : SServiceAttr)
    (rest : list SServiceAttr) :
  dispatched_peers c (service :: rest) =
  if host_matches c service && has_session c service
  then service :: dispatched_peers c rest
  else dispatched_peers c rest.
Proof. reflexivity. Qed.

Lemma Call_dispatch_spec (method_name_ request : string)
    (service_vec : list SServiceAttr) :
  forall agg w,
  exists agg' w' calls,
    Call_dispatch method_name_ request service_vec agg w = Ok agg' w' /\
    this w' = this w /\ globals w' = globals w /\
    effects w' = (effects w ++ calls)%list /\
    List.length calls = List.length (dispatched_peers (this w) service_vec) /\
    Forall is_slot_call calls /\
    responses agg' =
      (responses agg ++
       map (fun service => Call_emplace_back service method_name_)
         (dispatched_peers (this w) service_vec))%list /\
    finished_service_call_count agg' = finished_service_call_count agg /\
    expected_service_call_count agg' =
      expected_service_call_count agg +
      Z.of_nat (List.length (dispatched_peers (this w) service_vec)).
Proof.
  induction service_vec as [|service rest IH]; intros agg w.
  - exists agg, w, []. simpl. unfold ret.
    rewrite !app_nil_r. repeat split; auto. lia.
  - cbn [Call_dispatch]. unfold bind at 1. unfold get_this at 1.
    rewrite dispatched_peers_cons. unfold host_matches, has_session.
    destruct (empty (m_host_name (this w))
              || String.eqb (m_host_name (this w)) (hname service)) eqn:Eh;
      cbn [andb]; [|apply IH].
    destruct (StdMap.find (key service) (m_client_map (this w))) as [client|] eqn:Ef;
      [|apply IH].
    unfold bind at 1. unfold emit at 1.
    match goal with
    | |- exists agg' w' calls, Call_dispatch _ _ _ ?a ?w2 = _ /\ _ =>
        destruct (IH a w2) as [agg' [w' [calls IHc]]]
    end.
    destruct IHc as [Hrun [Hthis [Hglob [Heff [Hlen [Hall [Hresp [Hfin Hexp]]]]]]]].
    cbn [this globals effects] in *.
    exists agg', w',
      (async_call_service client request
         (slot_completion
            (List.length (responses agg ++ [Call_emplace_back service method_name_]) - 1))
       :: calls).
    split; [exact Hrun|]. split; [exact Hthis|]. split; [exact Hglob|].
    split; [rewrite Heff, <- app_assoc; reflexivity|].
    split; [cbn [List.length]; rewrite Hlen; reflexivity|].
    split; [constructor; [exact I|exact Hall]|].
    split; [rewrite Hresp; cbn [responses map]; rewrite <- app_assoc; reflexivity|].
    split; [rewrite Hfin; reflexivity|].
    rewrite Hexp. cbn [expected_service_call_count List.length]. lia.
Qed.

(** ** The blocking call, past its guards *)

Lemma Call_spec `{Protobuf} (w : World) (method_name_ request_ : string)
    (timeout_ : Z) (service_response_vec_ : option ServiceResponseVecT)
    (arrived : nat -> option (Error * string))
    (GetServiceAttr : string -> list SServiceAttr) :
  g_clientgate (globals w) = Some GetServiceAttr ->
  m_created (this w) = true ->
  empty (m_service_name (this w)) = false ->
  empty method_name_ = false ->
  exists w1 w' calls agg,
    CheckForNewServices w = Ok tt w1 /\
    Call method_name_ request_ timeout_ service_response_vec_ arrived w =
      Ok (if (0 <? timeout_)
             || (expected_service_call_count agg =? finished_service_call_count agg)
          then Returns (Call_any_executed (responses agg))
                 (option_map (fun _ => responses agg) service_response_vec_)
                 (responses agg)
          else Blocks) w' /\
    this w' = this w1 /\ globals w' = globals w1 /\
    effects w' = (effects w1 ++ calls)%list /\
    Forall is_slot_call calls /\
    let peers :=
      dispatched_peers (this w1) (GetServiceAttr (m_service_name (this w))) in
    List.length calls = List.length peers /\
    List.length (responses agg) = List.length peers /\
    expected_service_call_count agg = Z.of_nat (List.length peers) /\
    ((forall i, (i < List.length peers)%nat -> arrived i <> None) ->
     finished_service_call_count agg = Z.of_nat (List.length peers)) /\
    forall i peer,
      nth_error peers i = Some peer ->
      nth_error (responses agg) i =
      Some (resolve (arrived i) (Call_emplace_back peer method_name_)).
Proof.
  intros Hgate Hcreated Hname Hmethod.
  destruct (CheckForNewServices_returns w) as [w1 Hw1].
  destruct (Call_dispatch_spec method_name_
              (SerializeAsString {| pb_request_mname := method_name_;
                                    pb_request := request_ |})
              (GetServiceAttr (m_service_name (this w))) Aggregator_new w1)
    as [dispatched [w' [calls Hd]]].
  destruct Hd as [Hrun [Hthis [Hglob [Heff [Hlen [Hall [Hresp [Hfin Hexp]]]]]]]].
  cbn [Aggregator_new responses finished_service_call_count
       expected_service_call_count app] in Hresp, Hfin, Hexp.
  remember (dispatched_peers (this w1) (GetServiceAttr (m_service_name (this w))))
    as peers eqn:Epeers.
  assert (Hdl : List.length (responses dispatched) = List.length peers).
  { rewrite Hresp. apply length_map. }
  exists w1, w', calls,
    (Call_completions arrived (seq 0 (List.length (responses dispatched))) dispatched).
  split; [exact Hw1|]. split.
  - unfold Call. unfold bind at 1. unfold get_globals at 1.
    unfold bind at 1. unfold get_this at 1.
    rewrite Hgate, Hcreated. cbn [negb]. rewrite Hname, Hmethod. cbn [orb].
    unfold bind at 1. rewrite Hw1.
    unfold bind at 1. rewrite Hrun.
    destruct service_response_vec_ as [vec|]; cbn [option_map];
      rewrite ?Call_copy_eq;
      match goal with
      | |- (if ?c then _ else _) _ = _ => destruct c; reflexivity
      end.
  - split; [exact Hthis|]. split; [exact Hglob|]. split; [exact Heff|].
    split; [exact Hall|]. cbv zeta. rewrite <- Epeers.
    split; [exact Hlen|].
    split; [rewrite Call_completions_length; exact Hdl|].
    split; [rewrite Call_completions_expected, Hexp; lia|].
    split.
    + intros Harr. rewrite Call_completions_finished.
      * rewrite Hfin, length_seq, Hdl. lia.
      * intros i Hi. apply in_seq in Hi. apply Harr. lia.
    + intros i peer Hpeer.
      assert (Hlt : (i < List.length peers)%nat).
      { apply nth_error_Some. rewrite Hpeer. discriminate. }
      erewrite Call_completions_slot.
      * rewrite existsb_eqb_seq by lia. reflexivity.
      * apply seq_NoDup.
      * rewrite Hresp. erewrite map_nth_error; [reflexivity|exact Hpeer].
Qed.

(** The guards of [Call]: the gate is there, the client is created, and
    neither name is empty. *)
Definition Call_guards (w : World) (method_name_ : string) : bool :=
  match g_clientgate (globals w) with Some _ => true | None => false end
  && m_created (this w)
  && negb (empty (m_service_name (this w)))
  && negb (empty method_name_).

(** The peers a call dispatches to: those of the gate's snapshot that pass
    the host filter and have a session once the refresh has run. *)
Definition peers_at_dispatch (w : World) : list SServiceAttr :=
  match g_clientgate (globals w) with
  | Some GetServiceAttr =>
      dispatched_peers (this (world_of (CheckForNewServices w)))
        (GetServiceAttr (m_service_name (this w)))
  | None => []
  end.

Lemma Call_rejected `{Protobuf} (w : World) (method_name_ request_ : string)
    (timeout_ : Z) (service_response_vec_ : option ServiceResponseVecT)
    (arrived : nat -> option (Error * string)) :
  Call_guards w method_name_ = false ->
  Call method_name_ request_ timeout_ service_response_vec_ arrived w =
  Ok (Returns false service_response_vec_ []) w.
Proof.
  unfold Call_guards, Call. unfold bind at 1. unfold get_globals at 1.
  unfold bind at 1. unfold get_this at 1.
  destruct (g_clientgate (globals w)); [|reflexivity].
  destruct (m_created (this w)); [|reflexivity].
  destruct (empty (m_service_name (this w))); [reflexivity|].
  destruct (empty method_name_); [reflexivity|]. discriminate.
Qed.

Lemma Call_guards_true (w : World) (method_name_ : string) :
  Call_guards w method_name_ = true ->
  exists GetServiceAttr,
    g_clientgate (globals w) = Some GetServiceAttr /\
    m_created (this w) = true /\
    empty (m_service_name (this w)) = false /\
    empty method_name_ = false.
Proof.
  unfold Call_guards.
  destruct (g_clientgate (globals w)) as [G|]; [|discriminate].
  destruct (m_created (this w)); [|discriminate].
  destruct (empty (m_service_name (this w))); [discriminate|].
  destruct (empty method_name_); [discriminate|].
  intros _. exists G. auto.
Qed.

Lemma empty_false (s : string) : s <> "" -> empty s = false.
Proof. destruct s; [contradiction|reflexivity]. Qed.

(** ** The result of the blocking call *)

(** A client created while the gate knew no peer, after the gate has
    learnt of the peer "k1": its [m_client_map] is still empty. *)
Definition example_client_before_refresh : World :=
  @run example_codec
    [OpCreate "svc";
     EnvClientGate (Some (fun _ => [example_peer "k1" "h1" 1]))]
    (World_new (example_globals [])).

(** C1, as stated, fails without a client gate: a created client with a
    nonempty service name, called with a nonempty method name while no
    session exists, returns false at the first guard and leaves the
    caller's vector as it came, here with the one stale response it
    held.  And with a gate, a call made while [m_client_map] is empty can
    return true: the refresh inside the call makes the session it then
    dispatches to. *)
Lemma Call_no_session_as_stated_fails :
  m_created (this (@run example_codec [OpCreate "svc"]
                     (World_new uninitialized_globals))) = true /\
  m_service_name (this (@run example_codec [OpCreate "svc"]
                          (World_new uninitialized_globals))) = "svc" /\
  m_client_map (this (@run example_codec [OpCreate "svc"]
                        (World_new uninitialized_globals))) = [] /\
  @Call example_codec "echo" "hi" 100
    (Some [Call_emplace_back (example_peer "k1" "h1" 1) "old"])
    (fun _ => None)
    (@run example_codec [OpCreate "svc"] (World_new uninitialized_globals)) =
  Ok (Returns false
        (Some [Call_emplace_back (example_peer "k1" "h1" 1) "old"]) [])
     (@run example_codec [OpCreate "svc"] (World_new uninitialized_globals)) /\
  m_created (this example_client_before_refresh) = true /\
  m_client_map (this example_client_before_refresh) = [] /\
  exists w',
    @Call example_codec "echo" "hi" 100 (Some []) example_first_arrived
      example_client_before_refresh =
    Ok (Returns true
          (Some [{| host_name := "server"; service_name := "svc";
                    service_id := "1"; method_name := "echo";
                    error_msg := ""; ret_state := 7;
                    call_state := call_state_executed; response := "hi" |}])
          [{| host_name := "server"; service_name := "svc";
              service_id := "1"; method_name := "echo";
              error_msg := ""; ret_state := 7;
              call_state := call_state_executed; response := "hi" |}]) w'.
Proof. repeat split. eexists. vm_compute. reflexivity. Qed.

(** C1, amended.  On a created client with a nonempty service name and a
    nonempty method name, the blocking call returns whenever the timeout is
    positive or every completion has run; when it returns, it returns true
    exactly if one of the aggregated slots has call state executed; and
    when the client gate is present and no peer of its snapshot both passes
    the host filter and has a session after the refresh, it returns false
    and leaves the output vector empty; and when the client gate is absent
    it returns false at the first guard, with no slot, and leaves the
    output vector, the client, the globals and the calls made as they
    were. *)
Theorem Call_true_iff_executed `{Protobuf} (w : World)
    (method_name_ request_ : string) (timeout_ : Z)
    (service_response_vec_ : option ServiceResponseVecT)
    (arrived : nat -> option (Error * string)) :
  m_created (this w) = true ->
  m_service_name (this w) <> "" ->
  method_name_ <> "" ->
  (0 < timeout_ \/ (forall i, arrived i <> None) ->
   exists result out slots w',
     Call method_name_ request_ timeout_ service_response_vec_ arrived w =
     Ok (Returns result out slots) w') /\
  (forall result out slots w',
     Call method_name_ request_ timeout_ service_response_vec_ arrived w =
     Ok (Returns result out slots) w' ->
     (result = true <->
      exists i slot, nth_error slots i = Some slot /\
                     call_state slot = call_state_executed)) /\
  (forall GetServiceAttr,
     g_clientgate (globals w) = Some GetServiceAttr ->
     (forall peer,
        In peer (GetServiceAttr (m_service_name (this w))) ->
        host_matches (this (world_of (CheckForNewServices w))) peer = true ->
        StdMap.find (key peer)
          (m_client_map (this (world_of (CheckForNewServices w)))) = None) ->
     exists w',
       Call method_name_ request_ timeout_ service_response_vec_ arrived w =
       Ok (Returns false (option_map (fun _ => []) service_response_vec_) []) w') /\
  (g_clientgate (globals w) = None ->
   Call method_name_ request_ timeout_ service_response_vec_ arrived w =
   Ok (Returns false service_response_vec_ []) w).
Proof.
  intros Hcreated Hname Hmethod.
  apply empty_false in Hname. apply empty_false in Hmethod.
  destruct (g_clientgate (globals w)) as [G|] eqn:Hgate.
  - destruct (Call_spec w method_name_ request_ timeout_ service_response_vec_
                arrived G Hgate Hcreated Hname Hmethod)
      as [w1 [w' [calls [agg [Hw1 [Hcall [_ [_ [_ [_ Hrest]]]]]]]]]].
    cbv zeta in Hrest.
    destruct Hrest as [_ [Hlen [Hexp [Hfin Hslots]]]].
    rewrite Hw1 in *. cbn [world_of] in *.
    split; [|split; [|split; [|discriminate]]].
    + intros Hwait. rewrite Hcall.
      assert (Hc : (0 <? timeout_)
                   || (expected_service_call_count agg
                       =? finished_service_call_count agg) = true).
      { destruct Hwait as [Ht|Harr].
        - apply orb_true_iff. left. apply Z.ltb_lt. exact Ht.
        - apply orb_true_iff. right. rewrite Hexp, Hfin by auto.
          apply Z.eqb_refl. }
      rewrite Hc. eauto.
    + intros result out slots w'' Hret. rewrite Hcall in Hret.
      destruct ((0 <? timeout_)
                || (expected_service_call_count agg
                    =? finished_service_call_count agg));
        [|discriminate Hret].
      injection Hret as <- _ <- _. apply Call_any_executed_iff.
    + intros G' HG' Hnone. injection HG' as <-.
      assert (Hp : dispatched_peers (this w1) (G (m_service_name (this w))) = []).
      { unfold dispatched_peers.
        destruct (filter _ _) as [|peer l] eqn:Ef; [reflexivity|].
        assert (Hin : In peer (peer :: l)) by now left.
        rewrite <- Ef in Hin. apply filter_In in Hin.
        destruct Hin as [Hin Hb]. apply andb_true_iff in Hb.
        destruct Hb as [Hh Hs]. unfold has_session in Hs.
        rewrite (Hnone peer Hin Hh) in Hs. discriminate Hs. }
      rewrite Hp in *. cbn [List.length] in *.
      assert (Hr : responses agg = []).
      { destruct (responses agg); [reflexivity|discriminate Hlen]. }
      exists w'. rewrite Hcall, Hr, Hexp, Hfin.
      * rewrite Z.eqb_refl, orb_true_r. reflexivity.
      * intros i Hi. inversion Hi.
  - assert (Hg : Call_guards w method_name_ = false).
    { unfold Call_guards. rewrite Hgate. reflexivity. }
    rewrite (Call_rejected w _ _ _ _ _ Hg).
    split; [|split; [|split; [|reflexivity]]].
    + intros _. eauto.
    + intros result out slots w' Hret. injection Hret as <- _ <- _.
      split; [discriminate|]. intros [[|i] [slot [Hn _]]]; discriminate Hn.
    + intros G' HG'. discriminate HG'.
Qed.

(** A created client of the service "svc" with sessions to two peers. *)
Definition example_client_of_two : World :=
  @run example_codec [OpCreate "svc"]
    (World_new (example_globals [example_peer "k1" "h1" 1;
                                 example_peer "k2" "h2" 1])).

Lemma Call_true_iff_executed_witness :
  m_created (this example_client_of_two) = true /\
  m_service_name (this example_client_of_two) <> "" /\
  "echo" <> "" /\
  forall result out slots w',
    @Call example_codec "echo" "hi" 100 (Some []) example_first_arrived
      example_client_of_two = Ok (Returns result out slots) w' ->
    (result = true <->
     exists i slot, nth_error slots i = Some slot /\
                    call_state slot = call_state_executed).
Proof.
  split; [reflexivity|]. split; [discriminate|]. split; [discriminate|].
  apply (@Call_true_iff_executed example_codec example_client_of_two
           "echo" "hi" 100 (Some []) example_first_arrived);
    [reflexivity|discriminate|discriminate].
Defined.

(** ** Slots of peers that did not answer *)

Lemma peers_at_dispatch_eq (w w1 : World)
    (GetServiceAttr : string -> list SServiceAttr) :
  g_clientgate (globals w) = Some GetServiceAttr ->
  CheckForNewServices w = Ok tt w1 ->
  peers_at_dispatch w =
  dispatched_peers (this w1) (GetServiceAttr (m_service_name (this w))).
Proof.
  intros Hg Hw1. unfold peers_at_dispatch. rewrite Hg, Hw1. reflexivity.
Qed.

(** C2.  In a blocking call that passes its guards, the slot of every peer
    dispatched to holds, when the dispatch loop is through and no
    completion has run, the peer's host name, service name and key, the
    method name, the error message "Timeout", return state 0, call state
    failed and an empty response; and when the completion of that peer has
    not run by the time the wait ends, this is the slot the call leaves
    and copies to the caller (the call does return when the timeout is
    positive). *)
Theorem Call_timeout_slot `{Protobuf} (w : World)
    (method_name_ request_ : string) (timeout_ : Z)
    (service_response_vec_ : option ServiceResponseVecT)
    (arrived : nat -> option (Error * string))
    (i : nat) (peer : SServiceAttr) :
  Call_guards w method_name_ = true ->
  nth_error (peers_at_dispatch w) i = Some peer ->
  let timeout_slot :=
    {| host_name := hname peer; service_name := sname peer;
       service_id := key peer; method_name := method_name_;
       error_msg := "Timeout"; ret_state := 0;
       call_state := call_state_failed; response := "" |} in
  (exists GetServiceAttr w1 dispatched w2,
     g_clientgate (globals w) = Some GetServiceAttr /\
     CheckForNewServices w = Ok tt w1 /\
     Call_dispatch method_name_
       (SerializeAsString {| pb_request_mname := method_name_;
                             pb_request := request_ |})
       (GetServiceAttr (m_service_name (this w))) Aggregator_new w1 =
     Ok dispatched w2 /\
     nth_error (responses dispatched) i = Some timeout_slot) /\
  (arrived i = None ->
   (0 < timeout_ ->
    exists result out slots w',
      Call method_name_ request_ timeout_ service_response_vec_ arrived w =
      Ok (Returns result out slots) w') /\
   forall result out slots w',
     Call method_name_ request_ timeout_ service_response_vec_ arrived w =
     Ok (Returns result out slots) w' ->
     nth_error slots i = Some timeout_slot /\
     out = option_map (fun _ => slots) service_response_vec_).
Proof.
  intros Hguards Hpeer timeout_slot.
  destruct (Call_guards_true w method_name_ Hguards)
    as [G [Hgate [Hcreated [Hname Hmethod]]]].
  destruct (Call_spec w method_name_ request_ timeout_ service_response_vec_
              arrived G Hgate Hcreated Hname Hmethod)
    as [w1 [w' [calls [agg [Hw1 [Hcall [_ [_ [_ [_ Hrest]]]]]]]]]].
  cbv zeta in Hrest. destruct Hrest as [_ [_ [_ [_ Hslots]]]].
  rewrite (peers_at_dispatch_eq w w1 G Hgate Hw1) in Hpeer.
  split.
  - destruct (Call_dispatch_spec method_name_
                (SerializeAsString {| pb_request_mname := method_name_;
                                      pb_request := request_ |})
                (G (m_service_name (this w))) Aggregator_new w1)
      as [dispatched [w2 [calls2 [Hrun [_ [_ [_ [_ [_ [Hresp _]]]]]]]]]].
    exists G, w1, dispatched, w2.
    split; [exact Hgate|]. split; [exact Hw1|]. split; [exact Hrun|].
    rewrite Hresp. cbn [Aggregator_new responses app].
    erewrite map_nth_error; [reflexivity|exact Hpeer].
  - intros Harr. split.
    + intros Ht. rewrite Hcall.
      apply Z.ltb_lt in Ht. rewrite Ht. cbn [orb]. eauto.
    + intros result out slots w'' Hret. rewrite Hcall in Hret.
      destruct ((0 <? timeout_)
                || (expected_service_call_count agg
                    =? finished_service_call_count agg));
        [|discriminate Hret].
      injection Hret as _ <- <- _.
      split; [|reflexivity].
      rewrite (Hslots i peer Hpeer), Harr. reflexivity.
Qed.

Lemma Call_timeout_slot_witness :
  Call_guards example_client_of_two "echo" = true /\
  nth_error (peers_at_dispatch example_client_of_two) 1 =
    Some (example_peer "k2" "h2" 1) /\
  (example_first_arrived 1 = None ->
   (0 < 100 ->
    exists result out slots w',
      @Call example_codec "echo" "hi" 100 (Some []) example_first_arrived
        example_client_of_two = Ok (Returns result out slots) w') /\
   forall result out slots w',
     @Call example_codec "echo" "hi" 100 (Some []) example_first_arrived
       example_client_of_two = Ok (Returns result out slots) w' ->
     nth_error slots 1 =
       Some {| host_name := "h2"; service_name := "svc"; service_id := "k2";
               method_name := "echo"; error_msg := "Timeout"; ret_state := 0;
               call_state := call_state_failed; response := "" |} /\
     out = Some slots).
Proof.
  split; [reflexivity|]. split; [reflexivity|].
  apply (@Call_timeout_slot example_codec example_client_of_two "echo" "hi"
           100 (Some []) example_first_arrived 1 (example_peer "k2" "h2" 1));
    reflexivity.
Defined.

(** ** One slot per dispatched peer *)








(** ** Completions that resolve with an error *)

Lemma resolve_failed `{Protobuf} (response_error : Error) (response_ : string)
    (slot : SServiceResponse) :
  is_error response_error = true \/ ParseFromString response_ = None ->
  host_name (resolve (Some (response_error, response_)) slot) = host_name slot /\
  service_name (resolve (Some (response_error, response_)) slot) = service_name slot /\
  service_id (resolve (Some (response_error, response_)) slot) = service_id slot /\
  method_name (resolve (Some (response_error, response_)) slot) = method_name slot /\
  call_state (resolve (Some (response_error, response_)) slot) = call_state_failed /\
  ret_state (resolve (Some (response_error, response_)) slot) = 0.
Proof.
  intros Hfail. unfold resolve, fromSerializedProtobuf.
  destruct (is_error response_error) eqn:Ee.
  - repeat split.
  - destruct Hfail as [Hf|Hf]; [discriminate Hf|]. rewrite Hf. repeat split.
Qed.

(** C9.  When the completion of slot [i] of a blocking fan-out is called
    with an error, or with a response that does not parse, the slot keeps
    its host name, service name, service id and method name (the fields it
    was pre-populated with); only its error message, return state, call
    state and response can differ afterwards, and every other slot is as
    it was. *)
Theorem Call_response_callback_frame `{Protobuf} (i : nat)
    (response_error : Error) (response_ : string) (agg : Aggregator)
    (slot : SServiceResponse) :
  nth_error (responses agg) i = Some slot ->
  is_error response_error = true \/ ParseFromString response_ = None ->
  exists slot',
    nth_error
      (responses (Call_response_callback i response_error response_ agg)) i =
      Some slot' /\
    host_name slot' = host_name slot /\
    service_name slot' = service_name slot /\
    service_id slot' = service_id slot /\
    method_name slot' = method_name slot /\
    (forall j, j <> i ->
       nth_error
         (responses (Call_response_callback i response_error response_ agg)) j =
       nth_error (responses agg) j).
Proof.
  intros Hslot Hfail.
  assert (Hlt : (i < List.length (responses agg))%nat).
  { apply nth_error_Some. rewrite Hslot. discriminate. }
  exists (resolve (Some (response_error, response_)) slot).
  destruct (resolve_failed response_error response_ slot Hfail)
    as [Hh [Hs [Hi [Hm _]]]].
  split.
  - unfold Call_response_callback. cbn [responses].
    rewrite nth_error_vec_set_eq by exact Hlt.
    rewrite (nth_error_nth _ _ _ Hslot). reflexivity.
  - repeat split; try assumption.
    intros j Hj. unfold Call_response_callback. cbn [responses].
    apply nth_error_vec_set_neq. auto.
Qed.

(** The aggregator of a call to the two example peers, before any
    completion has run. *)
Definition example_dispatched : Aggregator :=
  {| responses := [Call_emplace_back (example_peer "k1" "h1" 1) "echo";
                   Call_emplace_back (example_peer "k2" "h2" 1) "echo"];
     finished_service_call_count := 0;
     expected_service_call_count := 2 |}.

Lemma Call_response_callback_frame_witness :
  nth_error (responses example_dispatched) 1 =
    Some (Call_emplace_back (example_peer "k2" "h2" 1) "echo") /\
  (is_error {| is_error := false; ToString := "" |} = true \/
   @ParseFromString example_codec "garbage" = None) /\
  exists slot',
    nth_error
      (responses
         (@Call_response_callback example_codec 1
            {| is_error := false; ToString := "" |} "garbage"
            example_dispatched)) 1 = Some slot' /\
    host_name slot' = "h2" /\
    service_name slot' = "svc" /\
    service_id slot' = "k2" /\
    method_name slot' = "echo" /\
    (forall j, j <> 1%nat ->
       nth_error
         (responses
            (@Call_response_callback example_codec 1
               {| is_error := false; ToString := "" |} "garbage"
               example_dispatched)) j =
       nth_error (responses example_dispatched) j).
Proof.
  split; [reflexivity|]. split; [right; reflexivity|].
  apply (@Call_response_callback_frame example_codec 1
           {| is_error := false; ToString := "" |} "garbage" example_dispatched
           (Call_emplace_back (example_peer "k2" "h2" 1) "echo")).
  - reflexivity.
  - right. reflexivity.
Defined.

(** The same, seen by the caller: the slot that a blocking call leaves for
    a peer whose completion failed names that peer and the method, with
    call state failed and return state 0. *)
Lemma Call_failed_completion_slot `{Protobuf} (w : World)
    (method_name_ request_ : string) (timeout_ : Z)
    (service_response_vec_ : option ServiceResponseVecT)
    (arrived : nat -> option (Error * string))
    (i : nat) (peer : SServiceAttr) (response_error : Error) (response_ : string) :
  Call_guards w method_name_ = true ->
  nth_error (peers_at_dispatch w) i = Some peer ->
  arrived i = Some (response_error, response_) ->
  is_error response_error = true \/ ParseFromString response_ = None ->
  forall result out slots w',
    Call method_name_ request_ timeout_ service_response_vec_ arrived w =
    Ok (Returns result out slots) w' ->
    exists slot,
      nth_error slots i = Some slot /\
      host_name slot = hname peer /\ service_name slot = sname peer /\
      service_id slot = key peer /\ method_name slot = method_name_ /\
      call_state slot = call_state_failed /\ ret_state slot = 0 /\
      out = option_map (fun _ => slots) service_response_vec_.
Proof.
  intros Hguards Hpeer Harr Hfail result out slots w'' Hret.
  destruct (Call_guards_true w method_name_ Hguards)
    as [G [Hgate [Hcreated [Hname Hmethod]]]].
  destruct (Call_spec w method_name_ request_ timeout_ service_response_vec_
              arrived G Hgate Hcreated Hname Hmethod)
    as [w1 [w' [calls [agg [Hw1 [Hcall [_ [_ [_ [_ Hrest]]]]]]]]]].
  cbv zeta in Hrest. destruct Hrest as [_ [_ [_ [_ Hslots]]]].
  rewrite (peers_at_dispatch_eq w w1 G Hgate Hw1) in Hpeer.
  rewrite Hcall in Hret.
  destruct ((0 <? timeout_)
            || (expected_service_call_count agg
                =? finished_service_call_count agg));
    [|discriminate Hret].
  injection Hret as _ <- <- _.
  exists (resolve (arrived i) (Call_emplace_back peer method_name_)).
  split; [apply Hslots; exact Hpeer|].
  rewrite Harr.
  destruct (resolve_failed response_error response_
              (Call_emplace_back peer method_name_) Hfail)
    as [Hh [Hs [Hi [Hm [Hc Hr]]]]].
  repeat split; assumption.
Qed.

Lemma CallAsync_rejected_witness :
  (g_clientgate (globals (@run example_codec [OpAddResponseCallback (Some 5%nat)]
                            (World_new uninitialized_globals))) = None \/
   m_created (this (@run example_codec [OpAddResponseCallback (Some 5%nat)]
                      (World_new uninitialized_globals))) = false \/
   m_service_name (this (@run example_codec [OpAddResponseCallback (Some 5%nat)]
                           (World_new uninitialized_globals))) = "" \/
   "echo" = "") /\
  exists error_message w',
    In error_message ["Clientgate error."; "Client hasn't been created yet.";
                      "Invalid service or method name."] /\
    @CallAsync example_codec "echo" "hi"
      (@run example_codec [OpAddResponseCallback (Some 5%nat)]
         (World_new uninitialized_globals)) = Ok false w' /\
    this w' = this (@run example_codec [OpAddResponseCallback (Some 5%nat)]
                      (World_new uninitialized_globals)) /\
    globals w' = uninitialized_globals /\
    effects w' =
      [response_callback_call 5
         {| host_name := ""; service_name := ""; service_id := "";
            method_name := "echo"; error_msg := error_message;
            ret_state := 0; call_state := call_state_failed;
            response := "" |}].
Proof.
  split; [left; reflexivity|].
  apply (@CallAsync_rejected example_codec
           (@run example_codec [OpAddResponseCallback (Some 5%nat)]
              (World_new uninitialized_globals)) "echo" "hi").
  left. reflexivity.
Defined.

(** ** Destruction *)

(** What [Destroy] does to a created client: it returns true, empties
    [m_client_map] and [m_event_callback_map], resets the response
    callback, the names and the created flag, unregisters when the service
    name is not empty and a registration provider is there, and leaves
    [m_connected_services_map] as it was. *)
Lemma Destroy_created (w : World) :
  m_created (this w) = true ->
  exists w',
    Destroy w = Ok true w' /\
    m_client_map (this w') = [] /\
    m_event_callback_map (this w') = [] /\
    m_response_callback (this w') = None /\
    m_created (this w') = false /\
    m_connected_services_map (this w') = m_connected_services_map (this w) /\
    globals w' = globals w /\
    effects w' =
      (effects w ++
       if negb (empty (m_service_name (this w))) && g_registration_provider (globals w)
       then [UnregisterClient (m_service_name (this w)) (m_service_id (this w))]
       else [])%list.
Proof.
  intros Hc. unfold Destroy. unfold bind at 1. unfold get_this at 1.
  rewrite Hc. cbn [negb].
  unfold Unregister, modify_this, bind, get_this, put_this, get_globals, emit, ret.
  simpl.
  destruct (empty (m_service_name (this w))); simpl.
  - eexists. split; [reflexivity|]. simpl. rewrite app_nil_r. repeat split.
  - destruct (g_registration_provider (globals w)); simpl.
    + eexists. split; [reflexivity|]. simpl. repeat split.
    + eexists. split; [reflexivity|]. simpl. rewrite app_nil_r. repeat split.
Qed.

(** A created client that the gate has told of the peer "k1". *)
Definition example_connected_client : World :=
  @run example_codec
    [OpCreate "svc"; OpRegisterService "k1" (example_peer "k1" "h1" 1)]
    (World_new (example_globals [example_peer "k1" "h1" 1])).

(** C5 fails on the connected-services map: [Destroy] on a created client
    that holds the peer "k1" in [m_connected_services_map] returns true
    with the other maps empty and the response callback reset, and the
    peer is still in [m_connected_services_map]; a client created again
    then reports itself connected at once. *)
Lemma Destroy_keeps_connected_services_map :
  m_created (this example_connected_client) = true /\
  m_created (this (@run example_codec [OpDestroy] example_connected_client)) = false /\
  m_client_map (this (@run example_codec [OpDestroy] example_connected_client)) = [] /\
  m_event_callback_map
    (this (@run example_codec [OpDestroy] example_connected_client)) = [] /\
  m_connected_services_map
    (this (@run example_codec [OpDestroy] example_connected_client)) =
    [("k1", example_peer "k1" "h1" 1)] /\
  exists w',
    IsConnected
      (@run example_codec [OpDestroy; OpCreate "svc"]
         example_connected_client) = Ok true w'.
Proof. repeat split. eexists. vm_compute. reflexivity. Qed.

(** ** Event callbacks that were removed *)

(** A created client after [RemEventCallback(client_event_connected)]. *)
Definition example_connect_callback_removed : World :=
  @run example_codec
    [OpCreate "svc";
     OpAddEventCallback client_event_connected (Some 1%nat);
     OpRemEventCallback client_event_connected]
    (World_new (example_globals [example_peer "k1" "h1" 1])).

(** A created client connected to "k1" whose session has failed, after
    [RemEventCallback(client_event_disconnected)]. *)
Definition example_disconnect_callback_removed : World :=
  @run example_codec
    [OpCreate "svc";
     OpAddEventCallback client_event_disconnected (Some 2%nat);
     OpRegisterService "k1" (example_peer "k1" "h1" 1);
     OpRemEventCallback client_event_disconnected;
     EnvSessionState 0 FAILED]
    (World_new (example_globals [example_peer "k1" "h1" 1])).

(** C10 fails: after [RemEventCallback] the map holds an empty function
    under the event kind, and both dispatch paths call what they find
    there.  [RegisterService] for a new peer throws
    [std::bad_function_call] and does not add the peer; [Register] throws
    in its scan and does not erase the peer of the failed session. *)
Lemma removed_event_callback_is_called :
  StdMap.find client_event_connected
    (m_event_callback_map (this example_connect_callback_removed)) = Some None /\
  RegisterService "k1" (example_peer "k1" "h1" 1)
    example_connect_callback_removed =
    Throw bad_function_call example_connect_callback_removed /\
  StdMap.find client_event_disconnected
    (m_event_callback_map (this example_disconnect_callback_removed)) = Some None /\
  exists w',
    Register false example_disconnect_callback_removed =
      Throw bad_function_call w' /\
    m_connected_services_map (this w') = [("k1", example_peer "k1" "h1" 1)].
Proof. repeat split. eexists. split; vm_compute; reflexivity. Qed.

(** ** Connected services and failed sessions *)



(** The scan of [Register], when no empty function is stored for the
    disconnect event: it returns, touches neither [m_client_map] nor the
    globals nor the callbacks, only erases from
    [m_connected_services_map], and erases the key of every scanned
    session that is FAILED. *)
Lemma Register_scan_reaps (clients : list (string * ClientSession)) :
  forall w,
    StdMap.find client_event_disconnected (m_event_callback_map (this w))
      <> Some None ->
    exists w',
      Register_scan clients w = Ok tt w' /\
      m_client_map (this w') = m_client_map (this w) /\
      m_event_callback_map (this w') = m_event_callback_map (this w) /\
      globals w' = globals w /\
      (forall k, StdMap.find k (m_connected_services_map (this w)) = None ->
                 StdMap.find k (m_connected_services_map (this w')) = None) /\
      (forall k s, In (k, s) clients ->
                   get_state (globals w) (session_id s) = FAILED ->
                   StdMap.find k (m_connected_services_map (this w')) = None).
Proof.
  induction clients as [|[k0 s0] rest IH]; intros w Hcb.
  - exists w. simpl. unfold ret. repeat split; auto. intros k s [].
  - cbn [Register_scan]. unfold bind at 1. unfold get_globals at 1.
    assert (Hstep : exists w1,
      (if State_eqb (get_state (globals w) (session_id s0)) FAILED
       then
         c <- get_this ;;
         match StdMap.find k0 (m_connected_services_map c) with
         | Some iter_second =>
             match StdMap.find client_event_disconnected (m_event_callback_map c) with
             | Some e_iter_second =>
                 t <- now_microseconds ;;
                 call_event_callback e_iter_second (m_service_name c)
                   {| type := client_event_disconnected; time := t;
                      attr := iter_second |}
             | None => ret tt
             end ;;
             modify_this (fun c =>
               set_connected_services_map
                 (StdMap.erase k0 (m_connected_services_map c)) c)
         | None => ret tt
         end
       else ret tt) w = Ok tt w1 /\
      m_client_map (this w1) = m_client_map (this w) /\
      m_event_callback_map (this w1) = m_event_callback_map (this w) /\
      globals w1 = globals w /\
      (forall k, StdMap.find k (m_connected_services_map (this w)) = None ->
                 StdMap.find k (m_connected_services_map (this w1)) = None) /\
      (get_state (globals w) (session_id s0) = FAILED ->
       StdMap.find k0 (m_connected_services_map (this w1)) = None)).
    { destruct (get_state (globals w) (session_id s0)) eqn:Est; cbn [State_eqb];
        try (exists w; unfold ret; repeat split; auto; discriminate).
      unfold bind at 1. unfold get_this at 1.
      destruct (StdMap.find k0 (m_connected_services_map (this w)))
        as [iter_second|] eqn:Ek0;
        [|exists w; unfold ret; repeat split; auto].
      destruct (StdMap.find client_event_disconnected
                  (m_event_callback_map (this w))) as [[target|]|] eqn:Ecb;
        [| contradiction Hcb; reflexivity |];
        unfold bind, now_microseconds, get_globals, call_event_callback, emit,
          modify_this, get_this, put_this, ret; simpl;
        (eexists; split; [reflexivity|]; simpl; repeat split; auto;
         [intros k Hk; apply StdMapFacts.find_erase_none; exact Hk
         |intros _; apply StdMapFacts.find_erase_eq]). }
    destruct Hstep as [w1 [Hrun1 [Hcm1 [Hev1 [Hg1 [Hmono1 Hk0]]]]]].
    unfold bind at 1. rewrite Hrun1.
    destruct (IH w1) as [w' [Hrun [Hcm [Hev [Hg [Hmono Hall]]]]]].
    { rewrite Hev1. exact Hcb. }
    exists w'. split; [exact Hrun|].
    split; [congruence|]. split; [congruence|]. split; [congruence|].
    split; [auto|].
    intros k s [Heq|Hin] Hfailed.
    + injection Heq as <- <-. apply Hmono. apply Hk0. exact Hfailed.
    + apply (Hall k s Hin). rewrite Hg1. exact Hfailed.
Qed.


(** A created client connected to "k1" and "k2" whose first session has
    failed. *)
Definition example_failed_session : World :=
  @run example_codec
    [OpCreate "svc";
     OpAddEventCallback client_event_disconnected (Some 2%nat);
     OpRegisterService "k1" (example_peer "k1" "h1" 1);
     OpRegisterService "k2" (example_peer "k2" "h2" 1);
     EnvSessionState 0 FAILED]
    (World_new (example_globals [example_peer "k1" "h1" 1;
                                 example_peer "k2" "h2" 1])).


(** ** Connect and disconnect events *)

(** The connect and disconnect events that the user's callbacks were
    called with for the peer [k], oldest first. *)
Definition event_of (k : string) (e : Effect) : list eCAL_Client_Event :=
  match e with
  | event_callback_call _ _ d =>
      if String.eqb (key (attr d)) k then
        match type d with
        | client_event_connected => [client_event_connected]
        | client_event_disconnected => [client_event_disconnected]
        | _ => []
        end
      else []
  | _ => []
  end.

Definition events_of_key (k : string) (l : list Effect) : list eCAL_Client_Event :=
  flat_map (event_of k) l.

(** [alternates true l]: [l] is connected, disconnected, connected, ...;
    [alternates false l] starts with disconnected instead. *)
Fixpoint alternates (expect_connected : bool) (l : list eCAL_Client_Event) : bool :=
  match l with
  | [] => true
  | client_event_connected :: l' => expect_connected && alternates false l'
  | client_event_disconnected :: l' => negb expect_connected && alternates true l'
  | _ :: _ => false
  end.

(** What an alternating sequence expects next. *)
Fixpoint expects_after (expect_connected : bool) (l : list eCAL_Client_Event) : bool :=
  match l with
  | [] => expect_connected
  | _ :: l' => expects_after (negb expect_connected) l'
  end.

Lemma expects_after_snoc (b : bool) (l : list eCAL_Client_Event)
    (e : eCAL_Client_Event) :
  expects_after b (l ++ [e]) = negb (expects_after b l).
Proof.
  revert b. induction l as [|x l IH]; intros b; simpl; [reflexivity|apply IH].
Qed.

Lemma alternates_snoc (b : bool) (l : list eCAL_Client_Event)
    (e : eCAL_Client_Event) :
  alternates b (l ++ [e]) =
  alternates b l &&
  match e with
  | client_event_connected => expects_after b l
  | client_event_disconnected => negb (expects_after b l)
  | _ => false
  end.
Proof.
  revert b. induction l as [|x l IH]; intros b.
  - destruct e, b; reflexivity.
  - destruct x; cbn [app alternates expects_after]; try reflexivity.
    + rewrite IH. destruct b; cbn [andb negb]; reflexivity.
    + rewrite IH. destruct b; cbn [andb negb]; reflexivity.
Qed.

Lemma events_of_key_app (k : string) (a b : list Effect) :
  events_of_key k (a ++ b) = (events_of_key k a ++ events_of_key k b)%list.
Proof. apply flat_map_app. Qed.

(** Steps that neither touch the connected services or the event
    callbacks nor call an event callback. *)
Record quiet (w w' : World) : Prop := {
  quiet_connected :
    m_connected_services_map (this w') = m_connected_services_map (this w);
  quiet_event_callbacks :
    m_event_callback_map (this w') = m_event_callback_map (this w);
  quiet_events :
    forall k, events_of_key k (effects w') = events_of_key k (effects w)
}.

Lemma quiet_refl (w : World) : quiet w w.
Proof. constructor; reflexivity. Qed.

Lemma quiet_trans (a b c : World) : quiet a b -> quiet b c -> quiet a c.
Proof.
  intros [] []. constructor; congruence.
Qed.

#[local] Hint Resolve quiet_refl quiet_trans : core.

Definition silent (e : Effect) : Prop := forall k, event_of k e = [].

Lemma quiet_emit (e : Effect) : silent e -> preserves quiet (emit e).
Proof.
  intros He w. unfold emit. simpl. constructor; simpl; try reflexivity.
  intros k. rewrite events_of_key_app. simpl. rewrite He. rewrite !app_nil_r.
  reflexivity.
Qed.

Lemma quiet_modify_this (f : CServiceClientImpl -> CServiceClientImpl) :
  (forall c, m_connected_services_map (f c) = m_connected_services_map c) ->
  (forall c, m_event_callback_map (f c) = m_event_callback_map c) ->
  preserves quiet (modify_this f).
Proof.
  intros Hc He w. unfold modify_this, bind, get_this, put_this. simpl.
  constructor; simpl; auto.
Qed.

Lemma refreshed_quiet (w w' : World) : refreshed w w' -> quiet w w'.
Proof.
  intros [_ _ _ Hconn Hcbs _ _ _ _ _ _ _ Heff]. constructor; try assumption.
  intros k. destruct Heff as [more [-> Hall]].
  rewrite events_of_key_app.
  assert (Hm : events_of_key k more = []).
  { induction Hall as [|e l He _ IH]; [reflexivity|].
    simpl. rewrite IH. destruct e; try contradiction. reflexivity. }
  rewrite Hm. apply app_nil_r.
Qed.

Lemma quiet_CheckForNewServices : preserves quiet CheckForNewServices.
Proof. intros w. apply refreshed_quiet. apply CheckForNewServices_refreshed. Qed.

Ltac quiet_steps :=
  repeat lazymatch goal with
    | |- preserves _ (bind _ _) =>
        apply (preserves_bind quiet quiet_trans); [|intros ?]
    | |- preserves _ (ret _) => apply (preserves_ret quiet quiet_refl)
    | |- preserves _ (throw _) => apply (preserves_throw quiet quiet_refl)
    | |- preserves _ get_this => apply (preserves_get_this quiet quiet_refl)
    | |- preserves _ get_globals => apply (preserves_get_globals quiet quiet_refl)
    | |- preserves _ now_microseconds =>
        apply (preserves_now_microseconds quiet quiet_refl quiet_trans)
    | |- preserves _ CheckForNewServices => apply quiet_CheckForNewServices
    | |- preserves _ (emit _) => apply quiet_emit; intros ?; reflexivity
    | |- preserves _ (modify_this _) =>
        apply quiet_modify_this; intros ?; reflexivity
    end.

Lemma quiet_ErrorCallback (m e : string) : preserves quiet (ErrorCallback m e).
Proof.
  unfold ErrorCallback. quiet_steps.
  destruct (m_response_callback a); quiet_steps.
Qed.

Lemma quiet_Call_dispatch (m r : string) (service_vec : list SServiceAttr) :
  forall agg, preserves quiet (Call_dispatch m r service_vec agg).
Proof.
  induction service_vec as [|service rest IH]; intros agg; cbn [Call_dispatch];
    quiet_steps.
  destruct (empty (m_host_name a) || String.eqb (m_host_name a) (hname service));
    [|apply IH].
  destruct (StdMap.find (key service) (m_client_map a)); [|apply IH].
  quiet_steps. apply IH.
Qed.

Lemma quiet_Call `{Protobuf} (m r : string) (t : Z)
    (vec : option ServiceResponseVecT) (arrived : nat -> option (Error * string)) :
  preserves quiet (Call m r t vec arrived).
Proof.
  unfold Call. quiet_steps.
  destruct (g_clientgate a); quiet_steps.
  destruct (negb (m_created a0)); quiet_steps.
  destruct (empty (m_service_name a0) || empty m); quiet_steps.
  - apply quiet_Call_dispatch.
  - match goal with |- preserves quiet (if ?c then _ else _) => destruct c end;
      quiet_steps.
Qed.

Lemma quiet_Call_callbacks (response_vec : ServiceResponseVecT) :
  preserves quiet (Call_callbacks response_vec).
Proof.
  induction response_vec as [|r rest IH]; cbn [Call_callbacks]; quiet_steps.
  - destruct (m_response_callback a); quiet_steps.
  - apply IH.
Qed.

Lemma quiet_Call_callback `{Protobuf} (m r : string) (t : Z)
    (arrived : nat -> option (Error * string)) :
  preserves quiet (Call_callback m r t arrived).
Proof.
  unfold Call_callback. quiet_steps; [apply quiet_Call|].
  destruct a as [success [response_vec|] slots|]; quiet_steps.
  apply quiet_Call_callbacks.
Qed.

Lemma quiet_CallAsync_loop (r : string) (service_vec : list SServiceAttr) :
  forall b, preserves quiet (CallAsync_loop r service_vec b).
Proof.
  induction service_vec as [|service rest IH]; intros b; cbn [CallAsync_loop];
    quiet_steps.
  destruct (empty (m_host_name a) || String.eqb (m_host_name a) (hname service));
    [|apply IH].
  destruct (StdMap.find (key service) (m_client_map a)); [|apply IH].
  quiet_steps. apply IH.
Qed.

Lemma quiet_CallAsync `{Protobuf} (m r : string) : preserves quiet (CallAsync m r).
Proof.
  unfold CallAsync. quiet_steps.
  destruct (g_clientgate a); quiet_steps; try apply quiet_ErrorCallback.
  destruct (negb (m_created a0)); quiet_steps; try apply quiet_ErrorCallback.
  destruct (empty (m_service_name a0) || empty m); quiet_steps;
    try apply quiet_ErrorCallback.
  apply quiet_CallAsync_loop.
Qed.

Lemma quiet_CallAsync_response_callback `{Protobuf} (h s : string) (e : Error)
    (r : string) : preserves quiet (CallAsync_response_callback h s e r).
Proof.
  unfold CallAsync_response_callback. quiet_steps.
  destruct (m_response_callback a); quiet_steps.
Qed.

(** [keeps P m]: [m] leaves a world in [P] when it starts in one, whether
    it returns or throws. *)
Definition keeps {A : Type} (P : World -> Prop) (m : M A) : Prop :=
  forall w, P w -> P (world_of (m w)).

Lemma keeps_bind {A B : Type} (P : World -> Prop) (m : M A) (k : A -> M B) :
  keeps P m -> (forall a, keeps P (k a)) -> keeps P (bind m k).
Proof.
  intros Hm Hk w Hw. unfold bind. specialize (Hm w Hw).
  destruct (m w) as [a w'|e w']; simpl in *; [apply Hk; exact Hm|exact Hm].
Qed.

Definition is_some {A : Type} (o : option A) : bool :=
  match o with Some _ => true | None => false end.

(** What holds of a client whose connect and disconnect callbacks are
    both set: every stored peer is stored under its own key, and for
    every key the events called so far alternate from connected on and
    end on connected exactly when the key is in
    [m_connected_services_map]. *)
Record events_in_step (w : World) : Prop := {
  connect_callback_set :
    exists target,
      StdMap.find client_event_connected (m_event_callback_map (this w)) =
      Some (Some target);
  disconnect_callback_set :
    exists target,
      StdMap.find client_event_disconnected (m_event_callback_map (this w)) =
      Some (Some target);
  stored_under_own_key :
    forall k a,
      StdMap.find k (m_connected_services_map (this w)) = Some a -> key a = k;
  alternating :
    forall k, alternates true (events_of_key k (effects w)) = true;
  connected_last :
    forall k,
      expects_after true (events_of_key k (effects w)) =
      negb (is_some (StdMap.find k (m_connected_services_map (this w))))
}.

Lemma quiet_keeps_events_in_step {A : Type} (m : M A) :
  preserves quiet m -> keeps events_in_step m.
Proof.
  intros Hq w [Hc Hd Hk Ha Hl]. destruct (Hq w) as [Qc Qe Qv].
  constructor.
  - rewrite Qe. exact Hc.
  - rewrite Qe. exact Hd.
  - rewrite Qc. exact Hk.
  - intros k. rewrite Qv. apply Ha.
  - intros k. rewrite Qv, Qc. apply Hl.
Qed.

Lemma RegisterService_keeps (key_ : string) (service_ : SServiceAttr) :
  key service_ = key_ -> keeps events_in_step (RegisterService key_ service_).
Proof.
  intros Hkey w [Hc Hd Hk Ha Hl]. unfold RegisterService.
  unfold bind at 1. unfold get_this at 1.
  destruct (StdMap.find key_ (m_connected_services_map (this w))) eqn:Ef.
  - simpl. constructor; assumption.
  - destruct Hc as [target Hc]. rewrite Hc.
    unfold bind, now_microseconds, get_globals, call_event_callback, emit,
      modify_this, get_this, put_this, ret. simpl.
    constructor; simpl.
    + exists target. exact Hc.
    + exact Hd.
    + intros k a. destruct (String.eqb_spec k key_) as [->|Hn].
      * rewrite StdMapFacts.find_insert_eq. intros Ha'. injection Ha' as <-.
        exact Hkey.
      * rewrite StdMapFacts.find_insert_neq by exact Hn. apply Hk.
    + intros k. rewrite events_of_key_app. simpl. rewrite Hkey.
      destruct (String.eqb_spec key_ k) as [<-|Hn]; simpl.
      * rewrite alternates_snoc, Ha, Hl, Ef. reflexivity.
      * rewrite !app_nil_r. apply Ha.
    + intros k. rewrite events_of_key_app. simpl. rewrite Hkey.
      destruct (String.eqb_spec key_ k) as [<-|Hn]; simpl.
      * rewrite expects_after_snoc, Hl, Ef, StdMapFacts.find_insert_eq.
        reflexivity.
      * rewrite !app_nil_r, Hl.
        rewrite StdMapFacts.find_insert_neq by auto. reflexivity.
Qed.

Lemma Register_scan_keeps (clients : list (string * ClientSession)) :
  keeps events_in_step (Register_scan clients).
Proof.
  induction clients as [|[k0 s0] rest IH]; cbn [Register_scan].
  - intros w Hw. exact Hw.
  - apply keeps_bind; [intros w Hw; exact Hw|]. intros g.
    apply keeps_bind; [|intros _; exact IH].
    destruct (State_eqb (get_state g (session_id s0)) FAILED);
      [|intros w Hw; exact Hw].
    intros w [Hc Hd Hk Ha Hl].
    unfold bind at 1. unfold get_this at 1.
    destruct (StdMap.find k0 (m_connected_services_map (this w)))
      as [iter_second|] eqn:Ef.
    2:{ simpl. constructor; assumption. }
    pose proof (Hk k0 iter_second Ef) as Hkey.
    destruct Hd as [target Hd]. rewrite Hd.
    unfold bind, now_microseconds, get_globals, call_event_callback, emit,
      modify_this, get_this, put_this, ret. simpl.
    constructor; simpl.
    + exact Hc.
    + exists target. exact Hd.
    + intros k a. destruct (String.eqb_spec k k0) as [->|Hn].
      * rewrite StdMapFacts.find_erase_eq. discriminate.
      * rewrite StdMapFacts.find_erase_neq by exact Hn. apply Hk.
    + intros k. rewrite events_of_key_app. simpl. rewrite Hkey.
      destruct (String.eqb_spec k0 k) as [<-|Hn]; simpl.
      * rewrite alternates_snoc, Ha, Hl, Ef. reflexivity.
      * rewrite !app_nil_r. apply Ha.
    + intros k. rewrite events_of_key_app. simpl. rewrite Hkey.
      destruct (String.eqb_spec k0 k) as [<-|Hn]; simpl.
      * rewrite expects_after_snoc, Hl, Ef, StdMapFacts.find_erase_eq.
        reflexivity.
      * rewrite !app_nil_r, Hl.
        rewrite StdMapFacts.find_erase_neq by auto. reflexivity.
Qed.

Lemma Register_keeps (force_ : bool) : keeps events_in_step (Register force_).
Proof.
  unfold Register.
  apply keeps_bind; [intros w Hw; exact Hw|]. intros c.
  destruct (empty (m_service_name c)); [intros w Hw; exact Hw|].
  apply keeps_bind; [intros w Hw; exact Hw|]. intros g.
  apply keeps_bind.
  { apply quiet_keeps_events_in_step.
    destruct (g_registration_provider g); quiet_steps. }
  intros _. apply keeps_bind.
  { apply quiet_keeps_events_in_step. apply quiet_CheckForNewServices. }
  intros _. apply keeps_bind; [intros w Hw; exact Hw|]. intros c'.
  apply Register_scan_keeps.
Qed.

Lemma Create_keeps (service_name_ : string) :
  keeps events_in_step (Create service_name_).
Proof.
  unfold Create.
  apply keeps_bind; [intros w Hw; exact Hw|]. intros c.
  destruct (m_created c); [intros w Hw; exact Hw|].
  apply keeps_bind; [apply quiet_keeps_events_in_step; quiet_steps|]. intros _.
  apply keeps_bind; [intros w Hw; exact Hw|]. intros g.
  apply keeps_bind; [apply quiet_keeps_events_in_step; quiet_steps|]. intros _.
  apply keeps_bind; [apply Register_keeps|]. intros _.
  apply quiet_keeps_events_in_step. quiet_steps.
Qed.

Lemma set_event_callback_keeps (type_ : eCAL_Client_Event)
    (callback_ : ClientEventCallbackT) :
  callback_ <> None \/
  (type_ <> client_event_connected /\ type_ <> client_event_disconnected) ->
  keeps events_in_step
    (modify_this (fun c =>
       set_event_callback_map
         (StdMap.insert type_ callback_ (m_event_callback_map c)) c)).
Proof.
  intros Hok w [[tc Hc] [td Hd] Hk Ha Hl].
  unfold modify_this, bind, get_this, put_this. simpl.
  constructor; simpl; try assumption.
  - destruct type_;
      try (exists tc; rewrite StdMapFacts.find_insert_neq by discriminate;
           exact Hc).
    rewrite StdMapFacts.find_insert_eq.
    destruct callback_ as [t|]; [exists t; reflexivity|].
    destruct Hok as [Hn|[Hn _]]; contradiction.
  - destruct type_;
      try (exists td; rewrite StdMapFacts.find_insert_neq by discriminate;
           exact Hd).
    rewrite StdMapFacts.find_insert_eq.
    destruct callback_ as [t|]; [exists t; reflexivity|].
    destruct Hok as [Hn|[_ Hn]]; contradiction.
Qed.

(** The steps of a run that leave the two callbacks in place and register
    peers as the client gate does, each under its own key: everything but
    [Destroy], removing or emptying the connect or disconnect callback, and
    [RegisterService] with a key that is not the descriptor's. *)
Definition regular_op (op : Op) : bool :=
  match op with
  | OpDestroy => false
  | OpRemEventCallback type_
  | OpAddEventCallback type_ None =>
      negb (client_event_eqb type_ client_event_connected)
      && negb (client_event_eqb type_ client_event_disconnected)
  | OpRegisterService key_ service_ => String.eqb (key service_) key_
  | _ => true
  end.

Lemma regular_kind (type_ : eCAL_Client_Event) :
  negb (client_event_eqb type_ client_event_connected)
  && negb (client_event_eqb type_ client_event_disconnected) = true ->
  type_ <> client_event_connected /\ type_ <> client_event_disconnected.
Proof. destruct type_; simpl; intros E; try discriminate E; split; discriminate. Qed.

Lemma step_keeps_events_in_step `{Protobuf} (op : Op) (w : World) :
  regular_op op = true -> events_in_step w -> events_in_step (step op w).
Proof.
  intros Hop Hw. destruct op; cbn [step]; try discriminate Hop.
  - apply Create_keeps. exact Hw.
  - apply quiet_keeps_events_in_step; [|exact Hw].
    unfold SetHostName. quiet_steps.
    destruct (String.eqb host_name_ "*"); quiet_steps.
  - apply quiet_keeps_events_in_step; [|exact Hw].
    unfold AddResponseCallback. quiet_steps.
  - apply quiet_keeps_events_in_step; [|exact Hw].
    unfold RemResponseCallback. quiet_steps.
  - revert w Hw. unfold AddEventCallback.
    apply keeps_bind; [intros w Hw; exact Hw|]. intros c.
    destruct (negb (m_created c)); [intros w Hw; exact Hw|].
    apply keeps_bind; [|intros _ w Hw; exact Hw].
    apply set_event_callback_keeps.
    destruct callback_ as [t|]; [left; discriminate|right].
    apply regular_kind. exact Hop.
  - revert w Hw. unfold RemEventCallback.
    apply keeps_bind; [intros w Hw; exact Hw|]. intros c.
    destruct (negb (m_created c)); [intros w Hw; exact Hw|].
    apply keeps_bind; [|intros _ w Hw; exact Hw].
    apply set_event_callback_keeps. right. apply regular_kind. exact Hop.
  - apply quiet_keeps_events_in_step; [apply quiet_Call|exact Hw].
  - apply quiet_keeps_events_in_step; [apply quiet_Call_callback|exact Hw].
  - apply quiet_keeps_events_in_step; [apply quiet_CallAsync|exact Hw].
  - apply quiet_keeps_events_in_step;
      [apply quiet_CallAsync_response_callback|exact Hw].
  - apply quiet_keeps_events_in_step; [|exact Hw].
    unfold IsConnected. quiet_steps.
    destruct (negb (m_created a)); quiet_steps.
  - apply RegisterService_keeps; [|exact Hw].
    apply String.eqb_eq. exact Hop.
  - revert w Hw. unfold RefreshRegistration.
    apply keeps_bind; [intros w Hw; exact Hw|]. intros c.
    destruct (negb (m_created c)); [intros w Hw; exact Hw|].
    apply Register_keeps.
  - apply Register_keeps. exact Hw.
  - apply quiet_keeps_events_in_step; [apply quiet_CheckForNewServices|exact Hw].
  - destruct Hw. constructor; assumption.
  - destruct Hw. constructor; assumption.
  - destruct Hw. constructor; assumption.
  - destruct Hw. constructor; assumption.
  - destruct Hw. constructor; assumption.
Qed.

Lemma run_keeps_events_in_step `{Protobuf} (ops : list Op) :
  forall w,
    forallb regular_op ops = true -> events_in_step w ->
    events_in_step (run ops w).
Proof.
  induction ops as [|op ops IH]; intros w Hops Hw; [exact Hw|].
  cbn [forallb] in Hops. apply andb_true_iff in Hops. destruct Hops as [Hop Hops].
  unfold run. cbn [fold_left]. apply IH; [exact Hops|].
  apply step_keeps_events_in_step; assumption.
Qed.

(** With no connected service the scan of [Register] does nothing. *)
Lemma Register_scan_idle (clients : list (string * ClientSession)) (w : World) :
  m_connected_services_map (this w) = [] -> Register_scan clients w = Ok tt w.
Proof.
  intros Hconn. induction clients as [|[k0 s0] rest IH]; [reflexivity|].
  cbn [Register_scan]. unfold bind at 1. unfold get_globals at 1.
  destruct (State_eqb (get_state (globals w) (session_id s0)) FAILED).
  - unfold bind at 1. unfold bind at 1. unfold get_this at 1.
    rewrite Hconn. cbn [StdMap.find]. unfold ret at 1. exact IH.
  - unfold bind at 1. unfold ret at 1. exact IH.
Qed.

Lemma Register_idle (force_ : bool) (w : World) :
  m_connected_services_map (this w) = [] ->
  exists w',
    Register force_ w = Ok tt w' /\ quiet w w' /\
    m_created (this w') = m_created (this w).
Proof.
  intros Hconn. unfold Register. unfold bind at 1. unfold get_this at 1.
  destruct (empty (m_service_name (this w))).
  { exists w. repeat split; auto. }
  unfold bind at 1. unfold get_globals at 1.
  assert (H0 : exists w0,
    (if g_registration_provider (globals w)
     then emit (RegisterClient (m_service_name (this w))
                  (m_service_id (this w)) force_)
     else ret tt) w = Ok tt w0 /\ quiet w w0 /\ this w0 = this w).
  { destruct (g_registration_provider (globals w)).
    - eexists. split; [reflexivity|]. split; [|reflexivity].
      apply (quiet_emit (RegisterClient _ _ _)). intros k. reflexivity.
    - exists w. repeat split; auto. }
  destruct H0 as [w0 [Hrun0 [Hq0 Hthis0]]].
  unfold bind at 1. rewrite Hrun0.
  destruct (CheckForNewServices_returns w0) as [w1 Hw1].
  pose proof (CheckForNewServices_refreshed w0) as Hr.
  rewrite Hw1 in Hr. cbn [world_of] in Hr.
  unfold bind at 1. rewrite Hw1.
  unfold bind at 1. unfold get_this at 1.
  rewrite Register_scan_idle.
  - exists w1. split; [reflexivity|]. split.
    + eapply quiet_trans; [exact Hq0|]. apply refreshed_quiet. exact Hr.
    + rewrite (refreshed_created _ _ Hr), Hthis0. reflexivity.
  - rewrite (refreshed_connected _ _ Hr), Hthis0. exact Hconn.
Qed.

(** [Create] on a fresh client returns true and leaves a created client
    that has no connected service and no callback, and has called no
    event callback. *)
Lemma Create_new (g : Globals) (service_name_ : string) :
  exists w',
    Create service_name_ (World_new g) = Ok true w' /\
    m_created (this w') = true /\
    m_connected_services_map (this w') = [] /\
    m_event_callback_map (this w') = [] /\
    forall k, events_of_key k (effects w') = [].
Proof.
  unfold Create. unfold bind at 1. unfold get_this at 1.
  cbn [World_new this CServiceClientImpl_new m_created].
  unfold bind at 1. unfold modify_this at 1. unfold bind at 1.
  unfold get_this at 1. unfold put_this at 1.
  unfold bind at 1. unfold get_globals at 1.
  unfold bind at 1. unfold modify_this at 1. unfold bind at 1.
  unfold get_this at 1. unfold put_this at 1.
  cbn [this globals effects].
  unfold bind at 1.
  match goal with
  | |- context [Register false ?w] =>
      destruct (Register_idle false w eq_refl) as [w1 [Hrun [[Qc Qe Qv] Hcr]]]
  end.
  rewrite Hrun.
  unfold modify_this, bind, get_this, put_this, ret.
  eexists. split; [reflexivity|]. cbn in *.
  repeat split; auto.
Qed.

(** C6, amended.  On a client whose connect and disconnect callbacks are
    set right after [Create] and stay set (no [Destroy], no removal or
    emptying of either), with peers registered under their own keys, the
    connect and disconnect events that the callbacks are called with for
    any one peer key alternate, starting with connected: no two of a kind
    follow each other, and every disconnected follows a connected. *)
Theorem events_alternate `{Protobuf} (g : Globals) (service_name_ : string)
    (on_connect on_disconnect : nat) (ops : list Op) (k : string) :
  forallb regular_op ops = true ->
  alternates true
    (events_of_key k
       (effects
          (run ([OpCreate service_name_;
                 OpAddEventCallback client_event_connected (Some on_connect);
                 OpAddEventCallback client_event_disconnected (Some on_disconnect)]
                ++ ops)
             (World_new g)))) = true.
Proof.
  intros Hops. unfold run. rewrite fold_left_app.
  apply (alternating (fold_left (fun w op => step op w) ops _)).
  apply (run_keeps_events_in_step ops); [exact Hops|].
  cbn [fold_left step].
  destruct (Create_new g service_name_) as [w1 [Hrun [Hcr [Hconn [Hev Hno]]]]].
  rewrite Hrun. cbn [world_of].
  unfold AddEventCallback, modify_this, bind, get_this, put_this, ret.
  cbn [this]. rewrite Hcr. cbn [negb world_of this m_created set_event_callback_map].
  rewrite Hcr. cbn [negb world_of this m_created set_event_callback_map].
  constructor; cbn [this effects m_event_callback_map m_connected_services_map
                    set_event_callback_map].
  - exists on_connect.
    rewrite StdMapFacts.find_insert_neq by discriminate.
    apply StdMapFacts.find_insert_eq.
  - exists on_disconnect. apply StdMapFacts.find_insert_eq.
  - intros k' a. rewrite Hconn. discriminate.
  - intros k'. rewrite Hno. reflexivity.
  - intros k'. rewrite Hno, Hconn. reflexivity.
Qed.

Lemma events_alternate_witness :
  forallb regular_op
    [OpRegisterService "k1" (example_peer "k1" "h1" 1);
     EnvSessionState 0 FAILED;
     OpRefreshRegistration;
     OpRegisterService "k1" (example_peer "k1" "h1" 1);
     OpCall "echo" "hi" 100 (Some []) example_first_arrived] = true /\
  alternates true
    (events_of_key "k1"
       (effects
          (@run example_codec
             ([OpCreate "svc";
               OpAddEventCallback client_event_connected (Some 1%nat);
               OpAddEventCallback client_event_disconnected (Some 2%nat)]
              ++ [OpRegisterService "k1" (example_peer "k1" "h1" 1);
                  EnvSessionState 0 FAILED;
                  OpRefreshRegistration;
                  OpRegisterService "k1" (example_peer "k1" "h1" 1);
                  OpCall "echo" "hi" 100 (Some []) example_first_arrived])
             (World_new (example_globals [example_peer "k1" "h1" 1]))))) = true.
Proof.
  split; [reflexivity|].
  apply (@events_alternate example_codec
           (example_globals [example_peer "k1" "h1" 1]) "svc" 1%nat 2%nat).
  reflexivity.
Defined.

(** A client with both callbacks set that the gate has told of the peer
    "k1"; the same client after the session to "k1" failed, a refresh of
    the registration, and the gate announcing "k1" again; and a client
    with the disconnect callback only, after the same failure. *)
Definition example_first_connect : World :=
  @run example_codec
    [OpCreate "svc";
     OpAddEventCallback client_event_connected (Some 1%nat);
     OpAddEventCallback client_event_disconnected (Some 2%nat);
     OpRegisterService "k1" (example_peer "k1" "h1" 1)]
    (World_new (example_globals [example_peer "k1" "h1" 1])).

Definition example_reconnected : World :=
  @run example_codec
    [EnvSessionState 0 FAILED;
     OpRefreshRegistration;
     OpRegisterService "k1" (example_peer "k1" "h1" 1)]
    example_first_connect.

Definition example_disconnect_only : World :=
  @run example_codec
    [OpCreate "svc";
     OpAddEventCallback client_event_disconnected (Some 2%nat);
     OpRegisterService "k1" (example_peer "k1" "h1" 1);
     EnvSessionState 0 FAILED;
     OpRefreshRegistration]
    (World_new (example_globals [example_peer "k1" "h1" 1])).

(** How often the connect callback was called for the peer [k]. *)
Definition connected_count (k : string) (l : list Effect) : nat :=
  List.length
    (filter (client_event_eqb client_event_connected) (events_of_key k l)).

(** C6, as stated, fails twice.  The session of "k1" is created once and
    stays in [m_client_map] after it failed, and the connect callback is
    called a second time for "k1" while that same session is the one in
    the map: connected fires twice for one session incarnation.  And with
    only the disconnect callback set, the first event the user sees for
    "k1" is a disconnected. *)
Lemma connected_twice_for_one_session :
  m_client_map (this example_first_connect) =
    [("k1", {| session_id := 0; protocol_version := 1;
               address := "h1"; port := 5001 |})] /\
  m_client_map (this example_reconnected) =
    [("k1", {| session_id := 0; protocol_version := 1;
               address := "h1"; port := 5001 |})] /\
  sessions_created (globals example_reconnected) = 1%nat /\
  connected_count "k1" (effects example_reconnected) = 2%nat /\
  events_of_key "k1" (effects example_first_connect) =
    [client_event_connected] /\
  events_of_key "k1" (effects example_reconnected) =
    [client_event_connected; client_event_disconnected;
     client_event_connected] /\
  events_of_key "k1" (effects example_disconnect_only) =
    [client_event_disconnected] /\
  alternates true (events_of_key "k1" (effects example_disconnect_only)) = false.
Proof. repeat split. Qed.

(** * Further properties of the client *)

(** ** Examples *)

(** The session the refresh creates for the first example peer. *)
Definition example_session : ClientSession :=
  {| session_id := 0; protocol_version := 1; address := "h1"; port := 5001 |}.

(** The slots of a call to two peers of which the first answered. *)
Definition example_slots : ServiceResponseVecT :=
  [{| host_name := "server"; service_name := "svc"; service_id := "1";
      method_name := "echo"; error_msg := ""; ret_state := 7;
      call_state := call_state_executed; response := "hi" |};
   Call_emplace_back (example_peer "k2" "h2" 1) "echo"].

(** The client of two peers with a response callback. *)
Definition example_client_with_callback : World :=
  @run example_codec [OpAddResponseCallback (Some 5%nat)] example_client_of_two.

(** An error of the transport. *)
Definition example_refused : Error :=
  {| is_error := true; ToString := "refused" |}.

(** Answers of which the first is an error and the others are not. *)
Definition example_answers (n : nat) : Error * string :=
  match n with
  | O => (example_refused, "")
  | S _ => ({| is_error := false; ToString := "" |}, "+hi")
  end.

(** ** More on the discovery refresh *)

(** A refresh has nothing to do when the client manager is not running or
    every peer of the snapshot has a session. *)
Lemma CheckForNewServices_loop_idle (service_vec : list SServiceAttr) (w : World) :
  client_manager (globals w) <> Some false \/
  (forall peer, In peer service_vec ->
     StdMap.find (key peer) (m_client_map (this w)) <> None) ->
  CheckForNewServices_loop service_vec w = Ok tt w.
Proof.
  intros Hidle. induction service_vec as [|iter rest IH]; [reflexivity|].
  cbn [CheckForNewServices_loop]. unfold bind at 1. unfold get_this at 1.
  destruct (StdMap.find (key iter) (m_client_map (this w))) eqn:Ef.
  - apply IH. destruct Hidle as [Hm|Hall]; [left; exact Hm|right].
    intros peer Hin. apply Hall. now right.
  - unfold bind at 1. unfold get_globals at 1.
    destruct (client_manager (globals w)) as [[|]|] eqn:Em; try reflexivity.
    exfalso. destruct Hidle as [Hm|Hall]; [apply Hm; reflexivity|].
    apply (Hall iter); [now left|exact Ef].
Qed.

(** With the client manager running, a refresh leaves a session for every
    peer of the snapshot. *)
Lemma CheckForNewServices_loop_complete (service_vec : list SServiceAttr) :
  forall w,
    client_manager (globals w) = Some false ->
    forall peer, In peer service_vec ->
      StdMap.find (key peer)
        (m_client_map (this (world_of (CheckForNewServices_loop service_vec w))))
      <> None.
Proof.
  induction service_vec as [|iter rest IH]; intros w Hm peer Hin; [contradiction|].
  pose proof (CheckForNewServices_loop_refreshed rest) as Hrest.
  cbn [CheckForNewServices_loop]. unfold bind at 1. unfold get_this at 1.
  destruct (StdMap.find (key iter) (m_client_map (this w))) as [s0|] eqn:Ef.
  - destruct Hin as [<-|Hin]; [|apply IH; assumption].
    rewrite (refreshed_client_map _ _ (Hrest w) _ _ Ef). discriminate.
  - unfold bind at 1. unfold get_globals at 1. rewrite Hm.
    unfold manager_create_client, bind, get_globals, put_globals, emit, ret,
      modify_this, get_this, put_this.
    rewrite Hm. simpl.
    match goal with
    | |- context [CheckForNewServices_loop rest ?w2] => set (w2' := w2)
    end.
    destruct Hin as [<-|Hin].
    + rewrite (refreshed_client_map _ _ (Hrest w2') (key iter)
                 {| session_id := sessions_created (globals w);
                    protocol_version := static_cast_uint8 (protocol_version_of iter);
                    address := hname iter; port := port_to_use_of iter |}).
      * discriminate.
      * subst w2'. simpl. apply StdMapFacts.find_insert_eq.
    + apply IH; [|exact Hin]. subst w2'. simpl. reflexivity.
Qed.

(** X1.  A refresh in a process without a client gate, or whose client
    manager is absent or stopped, changes nothing: no session is made, no
    call goes out. *)
Theorem CheckForNewServices_without_manager (w : World) :
  g_clientgate (globals w) = None \/ client_manager (globals w) <> Some false ->
  CheckForNewServices w = Ok tt w.
Proof.
  intros Hno. unfold CheckForNewServices, bind, get_globals, get_this.
  destruct (g_clientgate (globals w)) as [G|] eqn:Eg; [|reflexivity].
  apply CheckForNewServices_loop_idle. left.
  destruct Hno as [Hg|Hm]; [discriminate Hg|exact Hm].
Qed.

Lemma CheckForNewServices_without_manager_witness :
  (g_clientgate (globals (World_new uninitialized_globals)) = None \/
   client_manager (globals (World_new uninitialized_globals)) <> Some false) /\
  CheckForNewServices (World_new uninitialized_globals) =
  Ok tt (World_new uninitialized_globals).
Proof.
  split; [left; reflexivity|].
  apply (CheckForNewServices_without_manager (World_new uninitialized_globals)).
  left. reflexivity.
Defined.

(** X2.  With the gate present and the client manager running, a refresh
    returns with a session stored for every peer of the gate's
    snapshot. *)
Theorem CheckForNewServices_complete (w : World)
    (GetServiceAttr : string -> list SServiceAttr) :
  g_clientgate (globals w) = Some GetServiceAttr ->
  client_manager (globals w) = Some false ->
  exists w',
    CheckForNewServices w = Ok tt w' /\
    forall peer,
      In peer (GetServiceAttr (m_service_name (this w))) ->
      exists s, StdMap.find (key peer) (m_client_map (this w')) = Some s.
Proof.
  intros Hg Hm. destruct (CheckForNewServices_returns w) as [w' Hw'].
  exists w'. split; [exact Hw'|]. intros peer Hin.
  pose proof (CheckForNewServices_loop_complete
                (GetServiceAttr (m_service_name (this w))) w Hm peer Hin) as Hc.
  revert Hw'. unfold CheckForNewServices, bind, get_globals, get_this.
  rewrite Hg. intros Hw'. rewrite Hw' in Hc. cbn [world_of] in Hc.
  destruct (StdMap.find (key peer) (m_client_map (this w'))) as [s|];
    [exists s; reflexivity|contradiction].
Qed.

Lemma CheckForNewServices_complete_witness :
  g_clientgate (globals example_client_before_refresh) =
    Some (fun _ => [example_peer "k1" "h1" 1]) /\
  client_manager (globals example_client_before_refresh) = Some false /\
  exists w',
    CheckForNewServices example_client_before_refresh = Ok tt w' /\
    forall peer,
      In peer [example_peer "k1" "h1" 1] ->
      exists s, StdMap.find (key peer) (m_client_map (this w')) = Some s.
Proof.
  split; [reflexivity|]. split; [reflexivity|].
  apply (CheckForNewServices_complete example_client_before_refresh
           (fun _ => [example_peer "k1" "h1" 1])); reflexivity.
Defined.

Lemma CheckForNewServices_settles (w w' : World) :
  CheckForNewServices w = Ok tt w' ->
  forall w2,
    g_clientgate (globals w2) = g_clientgate (globals w') ->
    client_manager (globals w2) = client_manager (globals w') ->
    m_service_name (this w2) = m_service_name (this w') ->
    m_client_map (this w2) = m_client_map (this w') ->
    CheckForNewServices w2 = Ok tt w2.
Proof.
  intros Hw' w2 Hg2 Hm2 Hn2 Hc2.
  pose proof (CheckForNewServices_refreshed w) as Hr.
  rewrite Hw' in Hr. cbn [world_of] in Hr.
  unfold CheckForNewServices, bind, get_globals, get_this.
  rewrite Hg2, (refreshed_gate _ _ Hr).
  destruct (g_clientgate (globals w)) as [G|] eqn:Eg; [|reflexivity].
  apply CheckForNewServices_loop_idle.
  rewrite Hm2, Hn2, Hc2, (refreshed_manager _ _ Hr), (refreshed_service_name _ _ Hr).
  destruct (client_manager (globals w)) as [[|]|] eqn:Em;
    try (left; discriminate).
  right. intros peer Hin.
  pose proof (CheckForNewServices_loop_complete
                (G (m_service_name (this w))) w Em peer Hin) as Hc.
  revert Hw'. unfold CheckForNewServices, bind, get_globals, get_this.
  rewrite Eg. intros Hw'. rewrite Hw' in Hc. exact Hc.
Qed.

(** X3.  A refresh repeated in the same surroundings does nothing: every
    session that could be made has been made by the first. *)
Theorem CheckForNewServices_twice (w w' : World) :
  CheckForNewServices w = Ok tt w' ->
  CheckForNewServices w' = Ok tt w'.
Proof.
  intros Hw'. apply (CheckForNewServices_settles w w' Hw'); reflexivity.
Qed.

Lemma CheckForNewServices_twice_witness :
  CheckForNewServices example_client_before_refresh =
    Ok tt (world_of (CheckForNewServices example_client_before_refresh)) /\
  CheckForNewServices (world_of (CheckForNewServices example_client_before_refresh)) =
    Ok tt (world_of (CheckForNewServices example_client_before_refresh)).
Proof.
  split; [vm_compute; reflexivity|].
  apply (CheckForNewServices_twice example_client_before_refresh).
  vm_compute; reflexivity.
Defined.

(** ** Sessions stay *)

(** [sessions_kept w w']: every session that [w] stores is stored in [w']
    under the same key. *)
Definition sessions_kept (w w' : World) : Prop :=
  forall k s,
    StdMap.find k (m_client_map (this w)) = Some s ->
    StdMap.find k (m_client_map (this w')) = Some s.

Lemma sessions_kept_refl (w : World) : sessions_kept w w.
Proof. intros k s Hf. exact Hf. Qed.

Lemma sessions_kept_trans (a b c : World) :
  sessions_kept a b -> sessions_kept b c -> sessions_kept a c.
Proof. intros Hab Hbc k s Hf. apply Hbc, Hab, Hf. Qed.

Lemma sessions_kept_emit (e : Effect) : preserves sessions_kept (emit e).
Proof. intros w k s Hf. exact Hf. Qed.

Lemma sessions_kept_modify_this (f : CServiceClientImpl -> CServiceClientImpl) :
  (forall c, m_client_map (f c) = m_client_map c) ->
  preserves sessions_kept (modify_this f).
Proof.
  intros Hf w k s Hk. unfold modify_this, bind, get_this, put_this. simpl.
  rewrite Hf. exact Hk.
Qed.

Lemma sessions_kept_CheckForNewServices :
  preserves sessions_kept CheckForNewServices.
Proof.
  intros w k s. apply (refreshed_client_map _ _ (CheckForNewServices_refreshed w)).
Qed.

Lemma sessions_kept_call_event_callback (f : ClientEventCallbackT) (n : string)
    (d : SClientEventCallbackData) :
  preserves sessions_kept (call_event_callback f n d).
Proof. intros w k s Hf. destruct f; exact Hf. Qed.

Ltac kept_steps :=
  repeat lazymatch goal with
    | |- preserves _ (bind _ _) =>
        apply (preserves_bind sessions_kept sessions_kept_trans); [|intros ?]
    | |- preserves _ (ret _) =>
        apply (preserves_ret sessions_kept sessions_kept_refl)
    | |- preserves _ (throw _) =>
        apply (preserves_throw sessions_kept sessions_kept_refl)
    | |- preserves _ get_this =>
        apply (preserves_get_this sessions_kept sessions_kept_refl)
    | |- preserves _ get_globals =>
        apply (preserves_get_globals sessions_kept sessions_kept_refl)
    | |- preserves _ now_microseconds =>
        apply (preserves_now_microseconds sessions_kept sessions_kept_refl
                 sessions_kept_trans)
    | |- preserves _ CheckForNewServices => apply sessions_kept_CheckForNewServices
    | |- preserves _ (emit _) => apply sessions_kept_emit
    | |- preserves _ (call_event_callback _ _ _) =>
        apply sessions_kept_call_event_callback
    | |- preserves _ (modify_this _) =>
        apply sessions_kept_modify_this; intros ?; reflexivity
    | |- preserves _ (match ?x with _ => _ end) => destruct x
    end.

Lemma sessions_kept_Register_scan (clients : list (string * ClientSession)) :
  preserves sessions_kept (Register_scan clients).
Proof.
  induction clients as [|[k0 s0] rest IH]; cbn [Register_scan]; kept_steps.
  all: exact IH.
Qed.

Lemma sessions_kept_Register (force_ : bool) :
  preserves sessions_kept (Register force_).
Proof. unfold Register. kept_steps. apply sessions_kept_Register_scan. Qed.

Lemma sessions_kept_Call_dispatch (m r : string) (service_vec : list SServiceAttr) :
  forall agg, preserves sessions_kept (Call_dispatch m r service_vec agg).
Proof.
  induction service_vec as [|service rest IH]; intros agg; cbn [Call_dispatch];
    kept_steps; apply IH.
Qed.

Lemma sessions_kept_Call `{Protobuf} (m r : string) (t : Z)
    (vec : option ServiceResponseVecT) (arrived : nat -> option (Error * string)) :
  preserves sessions_kept (Call m r t vec arrived).
Proof. unfold Call. kept_steps. apply sessions_kept_Call_dispatch. Qed.

Lemma sessions_kept_Call_callbacks (response_vec : ServiceResponseVecT) :
  preserves sessions_kept (Call_callbacks response_vec).
Proof.
  induction response_vec as [|r rest IH]; cbn [Call_callbacks]; kept_steps;
    exact IH.
Qed.

Lemma sessions_kept_ErrorCallback (m e : string) :
  preserves sessions_kept (ErrorCallback m e).
Proof. unfold ErrorCallback. kept_steps. Qed.

Lemma sessions_kept_CallAsync_loop (r : string) (service_vec : list SServiceAttr) :
  forall b, preserves sessions_kept (CallAsync_loop r service_vec b).
Proof.
  induction service_vec as [|service rest IH]; intros b; cbn [CallAsync_loop];
    kept_steps; apply IH.
Qed.

Lemma step_keeps_sessions `{Protobuf} (op : Op) (w : World) :
  op <> OpDestroy -> sessions_kept w (step op w).
Proof.
  intros Hop. destruct op; cbn [step];
    try (exfalso; apply Hop; reflexivity);
    try (intros k s Hf; exact Hf);
    revert w;
    lazymatch goal with
    | |- forall w, sessions_kept w (world_of (?m w)) =>
        change (preserves sessions_kept m)
    end;
    unfold Create, SetHostName, AddEventCallback, RemEventCallback,
      Call_callback, CallAsync, CallAsync_response_callback, IsConnected,
      RegisterService, RefreshRegistration;
    kept_steps;
    first [ apply sessions_kept_Register
          | apply sessions_kept_Call
          | apply sessions_kept_Call_callbacks
          | apply sessions_kept_ErrorCallback
          | apply sessions_kept_CallAsync_loop
          | apply sessions_kept_CheckForNewServices ].
Qed.

(** X4.  A session, once stored under a key, stays stored under it through
    every run that does not destroy the client: no refresh, registration
    pass or call replaces or removes it, whatever its state and whether
    or not discovery still knows the peer. *)
Theorem sessions_stay `{Protobuf} (ops : list Op) (w : World) (k : string)
    (s : ClientSession) :
  ~ In OpDestroy ops ->
  StdMap.find k (m_client_map (this w)) = Some s ->
  StdMap.find k (m_client_map (this (run ops w))) = Some s.
Proof.
  revert w. induction ops as [|op ops IH]; intros w Hno Hf; [exact Hf|].
  unfold run. cbn [fold_left]. apply IH.
  - intros Hin. apply Hno. now right.
  - apply step_keeps_sessions; [|exact Hf]. intros ->. apply Hno. now left.
Qed.

Lemma sessions_stay_witness :
  ~ In OpDestroy [OpSetHostName "h1"; OpRegister false] /\
  StdMap.find "k1" (m_client_map (this example_client_of_two)) =
    Some example_session /\
  StdMap.find "k1"
    (m_client_map
       (this (@run example_codec [OpSetHostName "h1"; OpRegister false]
                example_client_of_two))) =
    Some example_session.
Proof.
  assert (Hops : ~ In OpDestroy [OpSetHostName "h1"; OpRegister false]).
  { intros [H|[H|[]]]; discriminate H. }
  split; [exact Hops|]. split; [vm_compute; reflexivity|].
  apply (@sessions_stay example_codec [OpSetHostName "h1"; OpRegister false]
           example_client_of_two "k1" example_session Hops).
  vm_compute; reflexivity.
Defined.

(** ** Events that are never called *)

Definition is_timeout_event (e : Effect) : Prop :=
  match e with
  | event_callback_call _ _ d => type d = client_event_timeout
  | _ => False
  end.

(** [no_timeout w w']: [w'] has the calls of [w] and then more, none of
    them an event callback called with a timeout event. *)
Definition no_timeout (w w' : World) : Prop :=
  exists more,
    effects w' = (effects w ++ more)%list /\
    Forall (fun e => ~ is_timeout_event e) more.

Lemma no_timeout_refl (w : World) : no_timeout w w.
Proof. exists []. split; [symmetry; apply app_nil_r|constructor]. Qed.

Lemma no_timeout_trans (a b c : World) :
  no_timeout a b -> no_timeout b c -> no_timeout a c.
Proof.
  intros [m1 [E1 F1]] [m2 [E2 F2]]. exists (m1 ++ m2)%list. split.
  - rewrite E2, E1, app_assoc. reflexivity.
  - apply Forall_app. split; assumption.
Qed.

Lemma no_timeout_emit (e : Effect) :
  ~ is_timeout_event e -> preserves no_timeout (emit e).
Proof.
  intros He w. exists [e]. split; [reflexivity|]. constructor; [exact He|constructor].
Qed.

Lemma no_timeout_modify_this (f : CServiceClientImpl -> CServiceClientImpl) :
  preserves no_timeout (modify_this f).
Proof.
  intros w. exists []. split; [symmetry; apply app_nil_r|constructor].
Qed.

Lemma no_timeout_CheckForNewServices : preserves no_timeout CheckForNewServices.
Proof.
  intros w.
  destruct (refreshed_effects _ _ (CheckForNewServices_refreshed w))
    as [more [E F]].
  exists more. split; [exact E|].
  eapply Forall_impl; [|exact F].
  intros e He. destruct e; try contradiction; intros [].
Qed.

Lemma no_timeout_call_event_callback (f : ClientEventCallbackT) (n : string)
    (d : SClientEventCallbackData) :
  type d <> client_event_timeout ->
  preserves no_timeout (call_event_callback f n d).
Proof.
  intros Hd. destruct f as [target|]; [|intros w; apply no_timeout_refl].
  apply no_timeout_emit. exact Hd.
Qed.

Ltac calm_steps :=
  repeat lazymatch goal with
    | |- preserves _ (bind _ _) =>
        apply (preserves_bind no_timeout no_timeout_trans); [|intros ?]
    | |- preserves _ (ret _) => apply (preserves_ret no_timeout no_timeout_refl)
    | |- preserves _ (throw _) =>
        apply (preserves_throw no_timeout no_timeout_refl)
    | |- preserves _ get_this =>
        apply (preserves_get_this no_timeout no_timeout_refl)
    | |- preserves _ get_globals =>
        apply (preserves_get_globals no_timeout no_timeout_refl)
    | |- preserves _ now_microseconds =>
        apply (preserves_now_microseconds no_timeout no_timeout_refl
                 no_timeout_trans)
    | |- preserves _ CheckForNewServices => apply no_timeout_CheckForNewServices
    | |- preserves _ (emit _) => apply no_timeout_emit; intros []
    | |- preserves _ (call_event_callback _ _ _) =>
        apply no_timeout_call_event_callback; discriminate
    | |- preserves _ (modify_this _) => apply no_timeout_modify_this
    | |- preserves _ (match ?x with _ => _ end) => destruct x
    end.

Lemma no_timeout_Register_scan (clients : list (string * ClientSession)) :
  preserves no_timeout (Register_scan clients).
Proof.
  induction clients as [|[k0 s0] rest IH]; cbn [Register_scan]; calm_steps.
  all: exact IH.
Qed.

Lemma no_timeout_Register (force_ : bool) : preserves no_timeout (Register force_).
Proof. unfold Register. calm_steps. apply no_timeout_Register_scan. Qed.

Lemma no_timeout_Call_dispatch (m r : string) (service_vec : list SServiceAttr) :
  forall agg, preserves no_timeout (Call_dispatch m r service_vec agg).
Proof.
  induction service_vec as [|service rest IH]; intros agg; cbn [Call_dispatch];
    calm_steps; apply IH.
Qed.

Lemma no_timeout_Call `{Protobuf} (m r : string) (t : Z)
    (vec : option ServiceResponseVecT) (arrived : nat -> option (Error * string)) :
  preserves no_timeout (Call m r t vec arrived).
Proof. unfold Call. calm_steps. apply no_timeout_Call_dispatch. Qed.

Lemma no_timeout_Call_callbacks (response_vec : ServiceResponseVecT) :
  preserves no_timeout (Call_callbacks response_vec).
Proof.
  induction response_vec as [|r rest IH]; cbn [Call_callbacks]; calm_steps;
    exact IH.
Qed.

Lemma no_timeout_ErrorCallback (m e : string) :
  preserves no_timeout (ErrorCallback m e).
Proof. unfold ErrorCallback. calm_steps. Qed.

Lemma no_timeout_CallAsync_loop (r : string) (service_vec : list SServiceAttr) :
  forall b, preserves no_timeout (CallAsync_loop r service_vec b).
Proof.
  induction service_vec as [|service rest IH]; intros b; cbn [CallAsync_loop];
    calm_steps; apply IH.
Qed.

Lemma step_no_timeout `{Protobuf} (op : Op) (w : World) :
  no_timeout w (step op w).
Proof.
  destruct op; cbn [step];
    try (exists []; split; [symmetry; apply app_nil_r|constructor]);
    revert w;
    lazymatch goal with
    | |- forall w, no_timeout w (world_of (?m w)) =>
        change (preserves no_timeout m)
    end;
    unfold Create, Destroy, Unregister, SetHostName, AddResponseCallback,
      RemResponseCallback, AddEventCallback, RemEventCallback,
      Call_callback, CallAsync, CallAsync_response_callback, IsConnected,
      RegisterService, RefreshRegistration;
    calm_steps;
    first [ apply no_timeout_Register
          | apply no_timeout_Call
          | apply no_timeout_Call_callbacks
          | apply no_timeout_ErrorCallback
          | apply no_timeout_CallAsync_loop
          | apply no_timeout_CheckForNewServices ].
Qed.

(** X5.  No run of the client ever calls an event callback with a timeout
    event: whatever is registered for [client_event_timeout], every event
    callback that a run calls is called with a connected or a disconnected
    event. *)
Theorem timeout_event_never_called `{Protobuf} (ops : list Op) (w : World) :
  exists more,
    effects (run ops w) = (effects w ++ more)%list /\
    forall target name data,
      In (event_callback_call target name data) more ->
      type data = client_event_connected \/
      type data = client_event_disconnected.
Proof.
  assert (Hrun : no_timeout w (run ops w)).
  { revert w. induction ops as [|op ops IH]; intros w; [apply no_timeout_refl|].
    unfold run. cbn [fold_left].
    eapply no_timeout_trans; [apply step_no_timeout|apply IH]. }
  destruct Hrun as [more [E F]]. exists more. split; [exact E|].
  intros target name data Hin.
  rewrite Forall_forall in F. specialize (F _ Hin). cbn in F.
  destruct (type data); auto. contradiction F. reflexivity.
Qed.

(** ** Registration passes *)

(** What the scan of [Register] leaves alone: everything but
    [m_connected_services_map] and the record of calls. *)
Record scanned (w w' : World) : Prop := {
  scanned_service_name : m_service_name (this w') = m_service_name (this w);
  scanned_service_id : m_service_id (this w') = m_service_id (this w);
  scanned_client_map : m_client_map (this w') = m_client_map (this w);
  scanned_event_callbacks :
    m_event_callback_map (this w') = m_event_callback_map (this w);
  scanned_globals : globals w' = globals w
}.

Lemma scanned_refl (w : World) : scanned w w.
Proof. constructor; reflexivity. Qed.

Lemma scanned_trans (a b c : World) : scanned a b -> scanned b c -> scanned a c.
Proof. intros [] []. constructor; congruence. Qed.

Ltac scan_steps :=
  repeat lazymatch goal with
    | |- preserves _ (bind _ _) =>
        apply (preserves_bind scanned scanned_trans); [|intros ?]
    | |- preserves _ (ret _) => apply (preserves_ret scanned scanned_refl)
    | |- preserves _ get_this => apply (preserves_get_this scanned scanned_refl)
    | |- preserves _ get_globals =>
        apply (preserves_get_globals scanned scanned_refl)
    | |- preserves _ now_microseconds =>
        apply (preserves_now_microseconds scanned scanned_refl scanned_trans)
    | |- preserves _ (call_event_callback ?f _ _) =>
        destruct f; intros ?; constructor; reflexivity
    | |- preserves _ (modify_this _) => intros ?; constructor; reflexivity
    | |- preserves _ (match ?x with _ => _ end) => destruct x
    end.

Lemma Register_scan_scanned (clients : list (string * ClientSession)) :
  preserves scanned (Register_scan clients).
Proof.
  induction clients as [|[k0 s0] rest IH]; cbn [Register_scan]; scan_steps.
  all: exact IH.
Qed.

(** The scan has nothing to do when no FAILED session has its key among
    the connected services. *)
Lemma Register_scan_settled (clients : list (string * ClientSession)) (w : World) :
  (forall k s, In (k, s) clients ->
     get_state (globals w) (session_id s) = FAILED ->
     StdMap.find k (m_connected_services_map (this w)) = None) ->
  Register_scan clients w = Ok tt w.
Proof.
  intros Hall. induction clients as [|[k0 s0] rest IH]; [reflexivity|].
  cbn [Register_scan]. unfold bind at 1. unfold get_globals at 1.
  assert (IH' : Register_scan rest w = Ok tt w).
  { apply IH. intros k s Hin. apply Hall. now right. }
  destruct (get_state (globals w) (session_id s0)) eqn:Est; cbn [State_eqb];
    try (unfold bind at 1; unfold ret at 1; exact IH').
  unfold bind at 1. unfold bind at 1. unfold get_this at 1.
  rewrite (Hall k0 s0 (or_introl eq_refl) Est). unfold ret at 1. exact IH'.
Qed.

(** One pass of [Register] on a client with a name, when no empty function
    is stored for the disconnect event: the refresh, then the scan. *)
Lemma Register_pass (w : World) (force_ : bool) :
  empty (m_service_name (this w)) = false ->
  StdMap.find client_event_disconnected (m_event_callback_map (this w))
    <> Some None ->
  exists w0 wr w',
    this w0 = this w /\ globals w0 = globals w /\
    effects w0 =
      (effects w ++
       if g_registration_provider (globals w)
       then [RegisterClient (m_service_name (this w)) (m_service_id (this w)) force_]
       else [])%list /\
    CheckForNewServices w0 = Ok tt wr /\
    Register_scan (m_client_map (this wr)) wr = Ok tt w' /\
    Register force_ w = Ok tt w'.
Proof.
  intros Hname Hcb.
  set (w0 := world_of ((if g_registration_provider (globals w)
                        then emit (RegisterClient (m_service_name (this w))
                                     (m_service_id (this w)) force_)
                        else ret tt) w)).
  assert (H0 : (if g_registration_provider (globals w)
                then emit (RegisterClient (m_service_name (this w))
                             (m_service_id (this w)) force_)
                else ret tt) w = Ok tt w0 /\
               this w0 = this w /\ globals w0 = globals w /\
               effects w0 =
                 (effects w ++
                  if g_registration_provider (globals w)
                  then [RegisterClient (m_service_name (this w))
                          (m_service_id (this w)) force_]
                  else [])%list).
  { subst w0. destruct (g_registration_provider (globals w)); cbn.
    - repeat split.
    - repeat split. symmetry. apply app_nil_r. }
  destruct H0 as [Hrun0 [Hthis0 [Hg0 Heff0]]].
  destruct (CheckForNewServices_returns w0) as [wr Hwr].
  pose proof (CheckForNewServices_refreshed w0) as Hr.
  rewrite Hwr in Hr. cbn [world_of] in Hr.
  destruct (Register_scan_reaps (m_client_map (this wr)) wr) as [w' [Hrun _]].
  { rewrite (refreshed_event_callbacks _ _ Hr), Hthis0. exact Hcb. }
  exists w0, wr, w'. repeat split; try assumption.
  unfold Register. unfold bind at 1. unfold get_this at 1. rewrite Hname.
  unfold bind at 1. unfold get_globals at 1.
  unfold bind at 1. rewrite Hrun0.
  unfold bind at 1. rewrite Hwr.
  unfold bind at 1. unfold get_this at 1. exact Hrun.
Qed.

(** X6.  A registration pass right after a registration pass is silent: it
    registers the client again when a provider is there, and that is all;
    no session is made, no event callback is called, no connected service
    is dropped.  A disconnect is reported by the first pass after the
    failure and by no later one. *)
Theorem Register_again_is_silent (w : World) (force_ again_ : bool) :
  StdMap.find client_event_disconnected (m_event_callback_map (this w))
    <> Some None ->
  exists w1 w2,
    Register force_ w = Ok tt w1 /\
    Register again_ w1 = Ok tt w2 /\
    this w2 = this w1 /\ globals w2 = globals w1 /\
    effects w2 =
      (effects w1 ++
       if negb (empty (m_service_name (this w1)))
          && g_registration_provider (globals w1)
       then [RegisterClient (m_service_name (this w1)) (m_service_id (this w1))
               again_]
       else [])%list.
Proof.
  intros Hcb.
  destruct (empty (m_service_name (this w))) eqn:Hname.
  { exists w, w.
    assert (Hr : forall f, Register f w = Ok tt w).
    { intros f. unfold Register. unfold bind at 1. unfold get_this at 1.
      rewrite Hname. reflexivity. }
    rewrite !Hr, Hname. cbn [negb andb]. rewrite app_nil_r. repeat split. }
  destruct (Register_pass w force_ Hname Hcb)
    as [w0 [wr [w1 [Hthis0 [Hg0 [Heff0 [Hwr [Hscan Hrun]]]]]]]].
  pose proof (Register_scan_scanned (m_client_map (this wr)) wr) as Hs.
  rewrite Hscan in Hs. cbn [world_of] in Hs.
  pose proof (CheckForNewServices_refreshed w0) as Hr.
  rewrite Hwr in Hr. cbn [world_of] in Hr.
  destruct (Register_scan_reaps (m_client_map (this wr)) wr)
    as [w1' [Hscan' [_ [_ [_ [_ Hreaped]]]]]].
  { rewrite (refreshed_event_callbacks _ _ Hr), Hthis0. exact Hcb. }
  rewrite Hscan in Hscan'. injection Hscan' as <-.
  assert (Hname1 : empty (m_service_name (this w1)) = false).
  { rewrite (scanned_service_name _ _ Hs), (refreshed_service_name _ _ Hr),
      Hthis0. exact Hname. }
  assert (Hcb1 : StdMap.find client_event_disconnected
                   (m_event_callback_map (this w1)) <> Some None).
  { rewrite (scanned_event_callbacks _ _ Hs),
      (refreshed_event_callbacks _ _ Hr), Hthis0. exact Hcb. }
  destruct (Register_pass w1 again_ Hname1 Hcb1)
    as [v0 [vr [w2 [Vthis0 [Vg0 [Veff0 [Vwr [Vscan Vrun]]]]]]]].
  assert (Hidle : CheckForNewServices v0 = Ok tt v0).
  { apply (CheckForNewServices_settles w0 wr Hwr).
    - rewrite Vg0, (scanned_globals _ _ Hs). reflexivity.
    - rewrite Vg0, (scanned_globals _ _ Hs). reflexivity.
    - rewrite Vthis0. apply (scanned_service_name _ _ Hs).
    - rewrite Vthis0. apply (scanned_client_map _ _ Hs). }
  rewrite Hidle in Vwr. injection Vwr as <-.
  assert (Hquiet : Register_scan (m_client_map (this v0)) v0 = Ok tt v0).
  { apply Register_scan_settled. intros k s Hin Hfailed.
    rewrite Vthis0. apply (Hreaped k s).
    - rewrite <- (scanned_client_map _ _ Hs), <- Vthis0. exact Hin.
    - rewrite <- (scanned_globals _ _ Hs), <- Vg0. exact Hfailed. }
  rewrite Hquiet in Vscan. injection Vscan as <-.
  exists w1, v0. split; [exact Hrun|]. split; [exact Vrun|].
  split; [exact Vthis0|]. split; [exact Vg0|].
  rewrite Veff0, Hname1. cbn [negb andb]. reflexivity.
Qed.

Lemma Register_again_is_silent_witness :
  StdMap.find client_event_disconnected
    (m_event_callback_map (this example_failed_session)) <> Some None /\
  exists w1 w2,
    Register false example_failed_session = Ok tt w1 /\
    Register true w1 = Ok tt w2 /\
    this w2 = this w1 /\ globals w2 = globals w1 /\
    effects w2 =
      (effects w1 ++
       if negb (empty (m_service_name (this w1)))
          && g_registration_provider (globals w1)
       then [RegisterClient (m_service_name (this w1)) (m_service_id (this w1))
               true]
       else [])%list.
Proof.
  split; [vm_compute; discriminate|].
  apply (Register_again_is_silent example_failed_session false true).
  vm_compute; discriminate.
Defined.

(** X7.  [RegisterService] for a key that is already connected changes
    nothing, whatever descriptor comes with it: once a call has returned,
    a second call for the key returns without calling the connect callback
    and the descriptor stored under the key stays the one it was. *)
Theorem RegisterService_again (w w1 : World) (key_ : string)
    (service_ again_ : SServiceAttr) :
  RegisterService key_ service_ w = Ok tt w1 ->
  RegisterService key_ again_ w1 = Ok tt w1 /\
  exists stored,
    StdMap.find key_ (m_connected_services_map (this w1)) = Some stored /\
    (StdMap.find key_ (m_connected_services_map (this w)) = None ->
     stored = service_).
Proof.
  unfold RegisterService. unfold bind at 1. unfold get_this at 1.
  destruct (StdMap.find key_ (m_connected_services_map (this w)))
    as [a0|] eqn:Ef.
  - unfold ret. intros Hw1. injection Hw1 as <-.
    unfold bind, get_this. rewrite Ef. split; [reflexivity|].
    exists a0. split; [reflexivity|discriminate].
  - destruct (StdMap.find client_event_connected (m_event_callback_map (this w)))
      as [[target|]|];
      unfold bind, now_microseconds, get_globals, call_event_callback, emit,
        modify_this, get_this, put_this, ret, throw; simpl;
      intros Hw1; try discriminate Hw1; injection Hw1 as <-; simpl;
      rewrite StdMapFacts.find_insert_eq;
      (split; [reflexivity|]); exists service_; auto.
Qed.

Lemma RegisterService_again_witness :
  RegisterService "k1" (example_peer "k1" "h1" 1) example_client_of_two =
    Ok tt (world_of (RegisterService "k1" (example_peer "k1" "h1" 1)
                       example_client_of_two)) /\
  RegisterService "k1" (example_peer "k1" "other" 1)
    (world_of (RegisterService "k1" (example_peer "k1" "h1" 1)
                 example_client_of_two)) =
    Ok tt (world_of (RegisterService "k1" (example_peer "k1" "h1" 1)
                       example_client_of_two)) /\
  exists stored,
    StdMap.find "k1"
      (m_connected_services_map
         (this (world_of (RegisterService "k1" (example_peer "k1" "h1" 1)
                            example_client_of_two)))) = Some stored /\
    (StdMap.find "k1" (m_connected_services_map (this example_client_of_two)) = None ->
     stored = example_peer "k1" "h1" 1).
Proof.
  split; [vm_compute; reflexivity|].
  apply (RegisterService_again example_client_of_two
           (world_of (RegisterService "k1" (example_peer "k1" "h1" 1)
                        example_client_of_two))
           "k1" (example_peer "k1" "h1" 1) (example_peer "k1" "other" 1)).
  vm_compute; reflexivity.
Defined.

(** A refresh leaves the state of the sessions made before it. *)
Lemma CheckForNewServices_loop_states (service_vec : list SServiceAttr) :
  forall w i,
    (i < sessions_created (globals w))%nat ->
    get_state (globals (world_of (CheckForNewServices_loop service_vec w))) i =
    get_state (globals w) i.
Proof.
  induction service_vec as [|iter rest IH]; intros w i Hi; [reflexivity|].
  cbn [CheckForNewServices_loop]. unfold bind at 1. unfold get_this at 1.
  destruct (StdMap.find (key iter) (m_client_map (this w))); [apply IH; exact Hi|].
  unfold bind at 1. unfold get_globals at 1.
  destruct (client_manager (globals w)) as [[|]|] eqn:Em; try reflexivity.
  unfold manager_create_client, bind, get_globals, put_globals, emit, ret,
    modify_this, get_this, put_this.
  rewrite Em. simpl. rewrite IH by (simpl; lia). simpl.
  destruct (Nat.eqb_spec i (sessions_created (globals w))); [lia|reflexivity].
Qed.

(** The scan calls the disconnect callback for a FAILED session whose key
    is connected, with the descriptor stored under the key. *)
Lemma Register_scan_reports (clients : list (string * ClientSession)) :
  forall w target k s a,
    StdMap.find client_event_disconnected (m_event_callback_map (this w)) =
      Some (Some target) ->
    In (k, s) clients ->
    get_state (globals w) (session_id s) = FAILED ->
    StdMap.find k (m_connected_services_map (this w)) = Some a ->
    In (event_callback_call target (m_service_name (this w))
          {| type := client_event_disconnected;
             time := Z.quot (steady_clock_now (globals w)) 1000;
             attr := a |})
       (effects (world_of (Register_scan clients w))).
Proof.
  induction clients as [|[k0 s0] rest IH];
    intros w target k s a Hcb Hin Hfailed Hconn; [contradiction|].
  assert (Hgrow : forall v e, In e (effects v) ->
                              In e (effects (world_of (Register_scan rest v)))).
  { intros v e He.
    destruct (no_timeout_Register_scan rest v) as [more [E _]].
    rewrite E. apply in_or_app. now left. }
  cbn [Register_scan]. unfold bind at 1. unfold get_globals at 1.
  destruct (String.eqb_spec k0 k) as [->|Hn].
  - destruct (State_eqb (get_state (globals w) (session_id s0)) FAILED) eqn:Es0.
    + unfold bind at 1. unfold bind at 1. unfold get_this at 1.
      rewrite Hconn, Hcb.
      unfold bind, now_microseconds, get_globals, call_event_callback, emit,
        modify_this, get_this, put_this, ret. simpl.
      apply Hgrow. simpl. apply in_or_app. right. now left.
    + destruct Hin as [Heq|Hin].
      * injection Heq as ->. rewrite Hfailed in Es0. discriminate Es0.
      * unfold bind at 1. unfold ret at 1. apply (IH w target k s a); assumption.
  - destruct Hin as [Heq|Hin]; [injection Heq as -> _; contradiction|].
    destruct (State_eqb (get_state (globals w) (session_id s0)) FAILED).
    + unfold bind at 1. unfold bind at 1. unfold get_this at 1.
      destruct (StdMap.find k0 (m_connected_services_map (this w))) as [a0|].
      * rewrite Hcb.
        unfold bind, now_microseconds, get_globals, call_event_callback, emit,
          modify_this, get_this, put_this, ret. simpl.
        match goal with
        | |- In _ (effects (world_of (Register_scan rest ?v))) =>
            apply (IH v target k s a); simpl; auto
        end.
        rewrite StdMapFacts.find_erase_neq by auto. exact Hconn.
      * unfold ret at 1. apply (IH w target k s a); assumption.
    + unfold bind at 1. unfold ret at 1. apply (IH w target k s a); assumption.
Qed.

Lemma CheckForNewServices_states (w : World) (i : nat) :
  (i < sessions_created (globals w))%nat ->
  get_state (globals (world_of (CheckForNewServices w))) i =
  get_state (globals w) i.
Proof.
  intros Hi. unfold CheckForNewServices, bind, get_globals, get_this.
  destruct (g_clientgate (globals w)); [|reflexivity].
  apply CheckForNewServices_loop_states. exact Hi.
Qed.

(** X8.  A registration pass reports a failed peer with what was stored
    when it connected.  For a session made earlier that is FAILED and whose
    key is among the connected services, [Register] calls the disconnect
    callback with the client's service name, the event kind disconnected,
    the steady clock in microseconds and the descriptor stored under the
    key, and the key is not connected afterwards. *)
Theorem Register_reports_disconnect (w : World) (force_ : bool) (target : nat)
    (k : string) (s : ClientSession) (a : SServiceAttr) :
  m_service_name (this w) <> "" ->
  StdMap.find client_event_disconnected (m_event_callback_map (this w)) =
    Some (Some target) ->
  StdMap.find k (m_client_map (this w)) = Some s ->
  (session_id s < sessions_created (globals w))%nat ->
  get_state (globals w) (session_id s) = FAILED ->
  StdMap.find k (m_connected_services_map (this w)) = Some a ->
  exists w',
    Register force_ w = Ok tt w' /\
    In (event_callback_call target (m_service_name (this w))
          {| type := client_event_disconnected;
             time := Z.quot (steady_clock_now (globals w)) 1000;
             attr := a |})
       (effects w') /\
    StdMap.find k (m_connected_services_map (this w')) = None.
Proof.
  intros Hname Hcb Hcm Hid Hfailed Hconn. apply empty_false in Hname.
  assert (Hcb' : StdMap.find client_event_disconnected
                   (m_event_callback_map (this w)) <> Some None).
  { rewrite Hcb. discriminate. }
  destruct (Register_pass w force_ Hname Hcb')
    as [w0 [wr [w' [Hthis0 [Hg0 [Heff0 [Hwr [Hscan Hrun]]]]]]]].
  pose proof (CheckForNewServices_refreshed w0) as Hr.
  pose proof (CheckForNewServices_states w0 (session_id s)) as Hst.
  rewrite Hwr in Hr, Hst. cbn [world_of] in Hr, Hst.
  rewrite Hg0 in Hst. specialize (Hst Hid).
  assert (Hcbr : StdMap.find client_event_disconnected
                   (m_event_callback_map (this wr)) = Some (Some target)).
  { rewrite (refreshed_event_callbacks _ _ Hr), Hthis0. exact Hcb. }
  assert (Hcmr : StdMap.find k (m_client_map (this wr)) = Some s).
  { apply (refreshed_client_map _ _ Hr). rewrite Hthis0. exact Hcm. }
  assert (Hfr : get_state (globals wr) (session_id s) = FAILED).
  { rewrite Hst. exact Hfailed. }
  exists w'. split; [exact Hrun|]. split.
  - pose proof (Register_scan_reports (m_client_map (this wr)) wr target k s a
                  Hcbr (StdMapFacts.find_some_in _ _ _ Hcmr) Hfr) as Hin.
    rewrite Hscan in Hin. cbn [world_of] in Hin.
    rewrite (refreshed_service_name _ _ Hr), (refreshed_clock _ _ Hr),
      (refreshed_connected _ _ Hr), Hthis0, Hg0 in Hin.
    apply Hin. exact Hconn.
  - destruct (Register_scan_reaps (m_client_map (this wr)) wr)
      as [w2 [Hscan2 [_ [_ [_ [_ Hreaped]]]]]].
    { rewrite Hcbr. discriminate. }
    rewrite Hscan in Hscan2. injection Hscan2 as <-.
    apply (Hreaped k s); [apply StdMapFacts.find_some_in; exact Hcmr|exact Hfr].
Qed.

Lemma Register_reports_disconnect_witness :
  m_service_name (this example_failed_session) <> "" /\
  StdMap.find client_event_disconnected
    (m_event_callback_map (this example_failed_session)) = Some (Some 2%nat) /\
  StdMap.find "k1" (m_client_map (this example_failed_session)) =
    Some example_session /\
  (session_id example_session < sessions_created (globals example_failed_session))%nat /\
  get_state (globals example_failed_session) (session_id example_session) = FAILED /\
  StdMap.find "k1" (m_connected_services_map (this example_failed_session)) =
    Some (example_peer "k1" "h1" 1) /\
  exists w',
    Register false example_failed_session = Ok tt w' /\
    In (event_callback_call 2%nat (m_service_name (this example_failed_session))
          {| type := client_event_disconnected;
             time := Z.quot (steady_clock_now (globals example_failed_session)) 1000;
             attr := example_peer "k1" "h1" 1 |})
       (effects w') /\
    StdMap.find "k1" (m_connected_services_map (this w')) = None.
Proof.
  split; [vm_compute; discriminate|]. split; [vm_compute; reflexivity|].
  split; [vm_compute; reflexivity|]. split; [vm_compute; lia|].
  split; [vm_compute; reflexivity|]. split; [vm_compute; reflexivity|].
  apply (Register_reports_disconnect example_failed_session false 2%nat "k1"
           example_session (example_peer "k1" "h1" 1)).
  - vm_compute; discriminate.
  - vm_compute; reflexivity.
  - vm_compute; reflexivity.
  - vm_compute; lia.
  - vm_compute; reflexivity.
  - vm_compute; reflexivity.
Defined.

(** ** Creation and destruction, together *)

(** [Create] on a client that is not created and has no connected
    service: the names are set, the client is registered when it has a name
    and a provider is there, the refresh runs, and the client is created. *)
Lemma Create_unconnected (w : World) (service_name_ : string) :
  m_created (this w) = false ->
  m_connected_services_map (this w) = [] ->
  exists w' sessions,
    Create service_name_ w = Ok true w' /\
    m_service_name (this w') = service_name_ /\
    m_service_id (this w') =
      NilZero.string_of_int (Z.to_int (steady_clock_now (globals w))) /\
    m_host_name (this w') = m_host_name (this w) /\
    m_connected_services_map (this w') = [] /\
    m_event_callback_map (this w') = m_event_callback_map (this w) /\
    m_response_callback (this w') = m_response_callback (this w) /\
    m_created (this w') = true /\
    g_registration_provider (globals w') = g_registration_provider (globals w) /\
    Forall is_create_client sessions /\
    effects w' =
      (effects w ++
       (if negb (empty service_name_) && g_registration_provider (globals w)
        then [RegisterClient service_name_
                (NilZero.string_of_int (Z.to_int (steady_clock_now (globals w))))
                false]
        else []) ++ sessions)%list.
Proof.
  intros Hcr Hconn. unfold Create. unfold bind at 1. unfold get_this at 1.
  rewrite Hcr.
  unfold bind at 1. unfold modify_this at 1. unfold bind at 1.
  unfold get_this at 1. unfold put_this at 1.
  unfold bind at 1. unfold get_globals at 1.
  unfold bind at 1. unfold modify_this at 1. unfold bind at 1.
  unfold get_this at 1. unfold put_this at 1.
  cbn [this globals effects]. unfold bind at 1.
  unfold Register. unfold bind at 1. unfold get_this at 1.
  cbn [this m_service_name set_service_id set_service_name].
  destruct (empty service_name_) eqn:Hname.
  - unfold ret at 1. unfold modify_this, bind, get_this, put_this, ret.
    eexists; exists []. split; [reflexivity|]. cbn.
    rewrite app_nil_r. repeat split; auto.
  - unfold bind at 1. unfold get_globals at 1. cbn [globals].
    unfold bind at 1.
    match goal with
    | |- context [(if ?p then emit ?e else ret tt) ?v] =>
        assert (H0 : exists w0,
                  (if p then emit e else ret tt) v = Ok tt w0 /\
                  this w0 = this v /\ globals w0 = globals v /\
                  effects w0 = (effects v ++ if p then [e] else [])%list)
    end.
    { destruct (g_registration_provider (globals w)); eexists;
        (split; [reflexivity|]); cbn; repeat split.
      symmetry. apply app_nil_r. }
    destruct H0 as [w0 [Hrun0 [Hthis0 [Hg0 Heff0]]]]. rewrite Hrun0.
    destruct (CheckForNewServices_returns w0) as [wr Hwr].
    pose proof (CheckForNewServices_refreshed w0) as Hr.
    rewrite Hwr in Hr. cbn [world_of] in Hr.
    unfold bind at 1. rewrite Hwr.
    unfold bind at 1. unfold get_this at 1.
    rewrite Register_scan_idle
      by (rewrite (refreshed_connected _ _ Hr), Hthis0; exact Hconn).
    unfold modify_this, bind, get_this, put_this, ret.
    destruct (refreshed_effects _ _ Hr) as [sessions [Hsess Hall]].
    eexists; exists sessions. split; [reflexivity|]. cbn.
    rewrite (refreshed_service_name _ _ Hr), (refreshed_service_id _ _ Hr),
      (refreshed_host_name _ _ Hr), (refreshed_connected _ _ Hr),
      (refreshed_event_callbacks _ _ Hr), (refreshed_response_callback _ _ Hr),
      (refreshed_provider _ _ Hr), Hthis0, Hg0, Hsess, Heff0.
    cbn. rewrite <- app_assoc. repeat split; auto.
Qed.

Lemma Destroy_this (w : World) :
  m_created (this w) = true ->
  exists w',
    Destroy w = Ok true w' /\
    this w' =
      {| m_service_name := ""; m_service_id := ""; m_host_name := "";
         m_client_map := [];
         m_connected_services_map := m_connected_services_map (this w);
         m_event_callback_map := [];
         m_response_callback := None;
         m_created := false |}.
Proof.
  intros Hc. unfold Destroy. unfold bind at 1. unfold get_this at 1.
  rewrite Hc. cbn [negb].
  unfold Unregister, modify_this, bind, get_this, put_this, get_globals, emit, ret.
  simpl.
  destruct (empty (m_service_name (this w))); simpl.
  - eexists. split; reflexivity.
  - destruct (g_registration_provider (globals w)); simpl;
      eexists; split; reflexivity.
Qed.

(** X9.  Construction with a name and destruction undo each other.  On a
    freshly constructed client [Create] returns true and a second [Create]
    is refused without any change; [Destroy] then returns true and leaves
    the client exactly as it was constructed, and a second [Destroy] is
    refused without any change. *)
Theorem Create_Destroy_round_trip (g : Globals) (service_name_ again_ : string) :
  exists w1 w2,
    Create service_name_ (World_new g) = Ok true w1 /\
    Create again_ w1 = Ok false w1 /\
    Destroy w1 = Ok true w2 /\
    this w2 = CServiceClientImpl_new /\
    Destroy w2 = Ok false w2.
Proof.
  destruct (Create_unconnected (World_new g) service_name_ eq_refl eq_refl)
    as [w1 [sessions [Hrun [_ [_ [_ [Hconn [_ [_ [Hcr _]]]]]]]]]].
  destruct (Destroy_this w1 Hcr) as [w2 [Hd Hthis]].
  exists w1, w2. split; [exact Hrun|]. split; [|split; [exact Hd|]].
  - unfold Create, bind, get_this. rewrite Hcr. reflexivity.
  - rewrite Hthis, Hconn. split; [reflexivity|].
    unfold Destroy, bind, get_this. rewrite Hthis. reflexivity.
Qed.

Definition is_registration (e : Effect) : bool :=
  match e with
  | RegisterClient _ _ _ | UnregisterClient _ _ => true
  | _ => false
  end.

(** X10.  A client is unregistered as what it was registered as.  With a
    registration provider and a nonempty service name, the calls to the
    provider over [Create] and [Destroy] of a fresh client are one
    [RegisterClient] and one [UnregisterClient] with the same service name
    and the same service id, the steady clock's count at creation in
    decimal; with an empty service name or without a provider there is
    none. *)
Theorem registration_is_paired (g : Globals) (service_name_ : string) :
  exists w1 w2,
    Create service_name_ (World_new g) = Ok true w1 /\
    Destroy w1 = Ok true w2 /\
    filter is_registration (effects w2) =
      if negb (empty service_name_) && g_registration_provider g
      then [RegisterClient service_name_
              (NilZero.string_of_int (Z.to_int (steady_clock_now g))) false;
            UnregisterClient service_name_
              (NilZero.string_of_int (Z.to_int (steady_clock_now g)))]
      else [].
Proof.
  destruct (Create_unconnected (World_new g) service_name_ eq_refl eq_refl)
    as [w1 [sessions [Hrun [Hn [Hid [_ [_ [_ [_ [Hcr [Hp [Hall Heff]]]]]]]]]]]].
  destruct (Destroy_created w1 Hcr)
    as [w2 [Hd [_ [_ [_ [_ [_ [_ Heff2]]]]]]]].
  exists w1, w2. split; [exact Hrun|]. split; [exact Hd|].
  assert (Hs : filter is_registration sessions = []).
  { clear Heff. induction Hall as [|e l He _ IH]; [reflexivity|].
    destruct e; try contradiction. exact IH. }
  rewrite Heff2, Heff, Hn, Hid, Hp. cbn [World_new effects globals app].
  rewrite !filter_app, Hs.
  destruct (empty service_name_); cbn [negb andb]; [reflexivity|].
  destruct (g_registration_provider g); reflexivity.
Qed.

(** ** More on the blocking call *)

Lemma resolve_executed `{Protobuf} (a : option (Error * string))
    (peer : SServiceAttr) (method_name_ : string) :
  call_state (resolve a (Call_emplace_back peer method_name_)) =
    call_state_executed <->
  exists response_error response_ response_pb,
    a = Some (response_error, response_) /\
    is_error response_error = false /\
    ParseFromString response_ = Some response_pb /\
    pb_state (pb_header response_pb) = ServiceHeader_eCallState_executed.
Proof.
  unfold resolve, fromSerializedProtobuf. split.
  - destruct a as [[e r]|]; [|discriminate].
    destruct (is_error e) eqn:Ee; [discriminate|].
    destruct (ParseFromString r) as [pb|] eqn:Ep; [|discriminate].
    unfold fromProtobuf. cbn [call_state].
    destruct (pb_state (pb_header pb)) eqn:Es; try discriminate.
    intros _. exists e, r, pb. auto.
  - intros [e [r [pb [-> [Ee [Ep Es]]]]]]. rewrite Ee, Ep.
    unfold fromProtobuf. cbn [call_state]. rewrite Es. reflexivity.
Qed.

(** X11.  What makes a blocking call succeed.  A call that passes its guards
    and returns, returns true exactly when the completion of some peer it
    dispatched to ran before the wait ended, without an error and with a
    response that parses to a header whose state is executed. *)
Theorem Call_true_iff_answered `{Protobuf} (w : World)
    (method_name_ request_ : string) (timeout_ : Z)
    (service_response_vec_ : option ServiceResponseVecT)
    (arrived : nat -> option (Error * string))
    (result : bool) (out : option ServiceResponseVecT)
    (slots : ServiceResponseVecT) (w' : World) :
  Call_guards w method_name_ = true ->
  Call method_name_ request_ timeout_ service_response_vec_ arrived w =
    Ok (Returns result out slots) w' ->
  (result = true <->
   exists i peer response_error response_ response_pb,
     nth_error (peers_at_dispatch w) i = Some peer /\
     arrived i = Some (response_error, response_) /\
     is_error response_error = false /\
     ParseFromString response_ = Some response_pb /\
     pb_state (pb_header response_pb) = ServiceHeader_eCallState_executed).
Proof.
  intros Hguards Hret.
  destruct (Call_guards_true w method_name_ Hguards)
    as [G [Hgate [Hcreated [Hname Hmethod]]]].
  destruct (Call_spec w method_name_ request_ timeout_ service_response_vec_
              arrived G Hgate Hcreated Hname Hmethod)
    as [w1 [w2 [calls [agg [Hw1 [Hcall [_ [_ [_ [_ Hrest]]]]]]]]]].
  cbv zeta in Hrest. destruct Hrest as [_ [Hlen [_ [_ Hslots]]]].
  rewrite <- (peers_at_dispatch_eq w w1 G Hgate Hw1) in Hlen, Hslots.
  rewrite Hcall in Hret.
  destruct ((0 <? timeout_)
            || (expected_service_call_count agg
                =? finished_service_call_count agg));
    [|discriminate Hret].
  injection Hret as <- _ <- _. rewrite Call_any_executed_iff. split.
  - intros [i [slot [Hn Hs]]].
    assert (Hlt : (i < List.length (peers_at_dispatch w))%nat).
    { rewrite <- Hlen. apply nth_error_Some. rewrite Hn. discriminate. }
    destruct (nth_error (peers_at_dispatch w) i) as [peer|] eqn:Hp.
    2:{ apply nth_error_None in Hp. lia. }
    rewrite (Hslots i peer Hp) in Hn. injection Hn as <-.
    apply resolve_executed in Hs.
    destruct Hs as [e [r [pb Hs]]]. exists i, peer, e, r, pb. tauto.
  - intros [i [peer [e [r [pb [Hp [Ha Hs]]]]]]].
    exists i, (resolve (arrived i) (Call_emplace_back peer method_name_)).
    split; [apply Hslots; exact Hp|].
    apply resolve_executed. exists e, r, pb. tauto.
Qed.

Lemma Call_true_iff_answered_witness :
  Call_guards example_client_of_two "echo" = true /\
  @Call example_codec "echo" "hi" 100 (Some []) example_first_arrived
    example_client_of_two =
    Ok (Returns true (Some example_slots) example_slots)
      (world_of (@Call example_codec "echo" "hi" 100 (Some [])
                   example_first_arrived example_client_of_two)) /\
  (true = true <->
   exists i peer response_error response_ response_pb,
     nth_error (peers_at_dispatch example_client_of_two) i = Some peer /\
     example_first_arrived i = Some (response_error, response_) /\
     is_error response_error = false /\
     @ParseFromString example_codec response_ = Some response_pb /\
     pb_state (pb_header response_pb) = ServiceHeader_eCallState_executed).
Proof.
  split; [vm_compute; reflexivity|]. split; [vm_compute; reflexivity|].
  apply (@Call_true_iff_answered example_codec example_client_of_two
           "echo" "hi" 100 (Some []) example_first_arrived true
           (Some example_slots) example_slots
           (world_of (@Call example_codec "echo" "hi" 100 (Some [])
                        example_first_arrived example_client_of_two))).
  - vm_compute; reflexivity.
  - vm_compute; reflexivity.
Defined.

Lemma Call_completions_finished_le `{Protobuf}
    (arrived : nat -> option (Error * string)) (idxs : list nat) :
  forall agg,
    finished_service_call_count agg
      <= finished_service_call_count (Call_completions arrived idxs agg)
      <= finished_service_call_count agg + Z.of_nat (List.length idxs).
Proof.
  induction idxs as [|j idxs IH]; intros agg.
  - simpl. lia.
  - cbn [Call_completions List.length]. destruct (arrived j) as [[e r]|].
    + specialize (IH (Call_response_callback j e r agg)).
      cbn [Call_response_callback finished_service_call_count] in IH. lia.
    + specialize (IH agg). lia.
Qed.

Lemma Call_completions_finished_lt `{Protobuf}
    (arrived : nat -> option (Error * string)) (idxs : list nat) :
  forall agg i,
    In i idxs -> arrived i = None ->
    finished_service_call_count (Call_completions arrived idxs agg)
      < finished_service_call_count agg + Z.of_nat (List.length idxs).
Proof.
  induction idxs as [|j idxs IH]; intros agg i Hin Hnone; [contradiction|].
  cbn [Call_completions List.length]. destruct Hin as [->|Hin].
  - rewrite Hnone.
    pose proof (Call_completions_finished_le arrived idxs agg). lia.
  - destruct (arrived j) as [[e r]|].
    + specialize (IH (Call_response_callback j e r agg) i Hin Hnone).
      cbn [Call_response_callback finished_service_call_count] in IH. lia.
    + specialize (IH agg i Hin Hnone). lia.
Qed.

(** A call past its guards, with the wait spelled out. *)
Lemma Call_wait `{Protobuf} (w : World) (method_name_ request_ : string)
    (timeout_ : Z) (arrived : nat -> option (Error * string)) :
  Call_guards w method_name_ = true ->
  exists w' agg,
    (forall service_response_vec_,
       Call method_name_ request_ timeout_ service_response_vec_ arrived w =
       Ok (if (0 <? timeout_)
              || (expected_service_call_count agg
                  =? finished_service_call_count agg)
           then Returns (Call_any_executed (responses agg))
                  (option_map (fun _ => responses agg) service_response_vec_)
                  (responses agg)
           else Blocks) w') /\
    expected_service_call_count agg =
      Z.of_nat (List.length (peers_at_dispatch w)) /\
    ((forall i, (i < List.length (peers_at_dispatch w))%nat -> arrived i <> None) ->
     finished_service_call_count agg =
       Z.of_nat (List.length (peers_at_dispatch w))) /\
    (forall i, (i < List.length (peers_at_dispatch w))%nat -> arrived i = None ->
     finished_service_call_count agg <
       Z.of_nat (List.length (peers_at_dispatch w))).
Proof.
  intros Hguards.
  destruct (Call_guards_true w method_name_ Hguards)
    as [G [Hgate [Hcreated [Hname Hmethod]]]].
  destruct (CheckForNewServices_returns w) as [w1 Hw1].
  destruct (Call_dispatch_spec method_name_
              (SerializeAsString {| pb_request_mname := method_name_;
                                    pb_request := request_ |})
              (G (m_service_name (this w))) Aggregator_new w1)
    as [dispatched [w' [calls Hd]]].
  destruct Hd as [Hrun [_ [_ [_ [_ [_ [Hresp [Hfin Hexp]]]]]]]].
  cbn [Aggregator_new responses finished_service_call_count
       expected_service_call_count app] in Hresp, Hfin, Hexp.
  rewrite <- (peers_at_dispatch_eq w w1 G Hgate Hw1) in Hresp, Hexp.
  assert (Hdl : List.length (responses dispatched) =
                List.length (peers_at_dispatch w)).
  { rewrite Hresp. apply length_map. }
  exists w',
    (Call_completions arrived (seq 0 (List.length (responses dispatched))) dispatched).
  split; [|split; [|split]].
  - intros service_response_vec_.
    unfold Call. unfold bind at 1. unfold get_globals at 1.
    unfold bind at 1. unfold get_this at 1.
    rewrite Hgate, Hcreated. cbn [negb]. rewrite Hname, Hmethod. cbn [orb].
    unfold bind at 1. rewrite Hw1.
    unfold bind at 1. rewrite Hrun.
    destruct service_response_vec_ as [vec|]; cbn [option_map];
      rewrite ?Call_copy_eq;
      match goal with
      | |- (if ?c then _ else _) _ = _ => destruct c; reflexivity
      end.
  - rewrite Call_completions_expected, Hexp. lia.
  - intros Harr. rewrite Call_completions_finished.
    + rewrite Hfin, length_seq, Hdl. lia.
    + intros i Hi. apply in_seq in Hi. apply Harr. lia.
  - intros i Hi Hnone.
    assert (Hin : In i (seq 0 (List.length (responses dispatched))))
      by (apply in_seq; lia).
    pose proof (Call_completions_finished_lt arrived
                  (seq 0 (List.length (responses dispatched))) dispatched i
                  Hin Hnone) as Hlt.
    rewrite length_seq in Hlt. lia.
Qed.

(** X12.  Without a positive timeout the call waits for everyone.  With
    [timeout_ <= 0] a call that passes its guards returns when every peer
    it dispatched to has completed, and never returns as long as one of
    them has not. *)
Theorem Call_without_timeout `{Protobuf} (w : World)
    (method_name_ request_ : string) (timeout_ : Z)
    (service_response_vec_ : option ServiceResponseVecT)
    (arrived : nat -> option (Error * string)) :
  Call_guards w method_name_ = true ->
  timeout_ <= 0 ->
  ((forall i, (i < List.length (peers_at_dispatch w))%nat -> arrived i <> None) ->
   exists result out slots w',
     Call method_name_ request_ timeout_ service_response_vec_ arrived w =
     Ok (Returns result out slots) w') /\
  (forall i, (i < List.length (peers_at_dispatch w))%nat -> arrived i = None ->
   exists w',
     Call method_name_ request_ timeout_ service_response_vec_ arrived w =
     Ok Blocks w').
Proof.
  intros Hguards Ht.
  destruct (Call_wait w method_name_ request_ timeout_ arrived Hguards)
    as [w' [agg [Hcall [Hexp [Hall Hsome]]]]].
  specialize (Hcall service_response_vec_).
  assert (Hz : (0 <? timeout_) = false) by (apply Z.ltb_ge; exact Ht).
  rewrite Hz in Hcall. cbn [orb] in Hcall. split.
  - intros Harr. rewrite Hcall, Hexp, (Hall Harr), Z.eqb_refl. eauto.
  - intros i Hi Hnone. specialize (Hsome i Hi Hnone).
    assert (Hne : (expected_service_call_count agg
                   =? finished_service_call_count agg) = false).
    { apply Z.eqb_neq. lia. }
    rewrite Hcall, Hne. eauto.
Qed.

Lemma Call_without_timeout_witness :
  Call_guards example_client_of_two "echo" = true /\
  0 <= 0 /\
  ((forall i, (i < List.length (peers_at_dispatch example_client_of_two))%nat ->
      example_first_arrived i <> None) ->
   exists result out slots w',
     @Call example_codec "echo" "hi" 0 (Some []) example_first_arrived
       example_client_of_two = Ok (Returns result out slots) w') /\
  (forall i, (i < List.length (peers_at_dispatch example_client_of_two))%nat ->
   example_first_arrived i = None ->
   exists w',
     @Call example_codec "echo" "hi" 0 (Some []) example_first_arrived
       example_client_of_two = Ok Blocks w').
Proof.
  split; [vm_compute; reflexivity|]. split; [lia|].
  apply (@Call_without_timeout example_codec example_client_of_two
           "echo" "hi" 0 (Some []) example_first_arrived).
  - vm_compute; reflexivity.
  - lia.
Defined.

(** X13.  The output vector is optional.  A call made with [nullptr] for
    the output vector ends as the same call made with a vector: the same
    result, the same slots, the same calls made, or the same endless
    wait. *)
Theorem Call_without_output_vector `{Protobuf} (w : World)
    (method_name_ request_ : string) (timeout_ : Z) (vec : ServiceResponseVecT)
    (arrived : nat -> option (Error * string)) :
  match Call method_name_ request_ timeout_ (Some vec) arrived w with
  | Ok (Returns result _ slots) w' =>
      Call method_name_ request_ timeout_ None arrived w =
      Ok (Returns result None slots) w'
  | Ok Blocks w' =>
      Call method_name_ request_ timeout_ None arrived w = Ok Blocks w'
  | Throw _ _ => False
  end.
Proof.
  destruct (Call_guards w method_name_) eqn:Hguards.
  - destruct (Call_wait w method_name_ request_ timeout_ arrived Hguards)
      as [w' [agg [Hcall _]]].
    rewrite (Hcall (Some vec)), (Hcall None).
    destruct ((0 <? timeout_)
              || (expected_service_call_count agg
                  =? finished_service_call_count agg)); reflexivity.
  - rewrite !(Call_rejected w _ _ _ _ _ Hguards). reflexivity.
Qed.

(** ** The callback variant of the blocking call *)

Lemma Call_callbacks_spec (response_vec : ServiceResponseVecT) :
  forall w,
  exists w',
    Call_callbacks response_vec w = Ok tt w' /\
    this w' = this w /\ globals w' = globals w /\
    effects w' =
      (effects w ++
       match m_response_callback (this w) with
       | Some target => map (response_callback_call target) response_vec
       | None => []
       end)%list.
Proof.
  induction response_vec as [|r rest IH]; intros w.
  - exists w. cbn. unfold ret. repeat split.
    destruct (m_response_callback (this w)); symmetry; apply app_nil_r.
  - cbn [Call_callbacks]. unfold bind at 1. unfold get_this at 1.
    unfold bind at 1.
    destruct (m_response_callback (this w)) as [target|] eqn:Ecb.
    + unfold emit at 1.
      match goal with
      | |- context [Call_callbacks rest ?v] =>
          destruct (IH v) as [w' [Hrun [Hthis [Hg Heff]]]]
      end.
      cbn [this globals effects] in *. rewrite Ecb in Heff.
      exists w'. split; [exact Hrun|]. split; [exact Hthis|]. split; [exact Hg|].
      rewrite Heff, <- app_assoc. reflexivity.
    + unfold ret at 1. destruct (IH w) as [w' [Hrun [Hthis [Hg Heff]]]].
      rewrite Ecb in Heff. exists w'. auto.
Qed.

(** X14.  The callback variant delivers what the blocking call gathered.
    When the blocking call on an empty vector returns, the callback
    variant returns the same result after calling the response callback
    once for every slot, in slot order, with the slot; when no response
    callback is set it calls nothing; and a call turned away at a guard
    has no slot to deliver, so that, unlike [CallAsync], it reports no
    error to the callback. *)
Theorem Call_callback_delivers `{Protobuf} (w w1 : World)
    (method_name_ request_ : string) (timeout_ : Z)
    (arrived : nat -> option (Error * string))
    (result : bool) (out : option ServiceResponseVecT)
    (slots : ServiceResponseVecT) :
  Call method_name_ request_ timeout_ (Some []) arrived w =
    Ok (Returns result out slots) w1 ->
  exists w2,
    Call_callback method_name_ request_ timeout_ arrived w =
      Ok (Some result) w2 /\
    this w2 = this w1 /\ globals w2 = globals w1 /\
    effects w2 =
      (effects w1 ++
       match m_response_callback (this w1) with
       | Some target => map (response_callback_call target) slots
       | None => []
       end)%list /\
    (Call_guards w method_name_ = false -> slots = []).
Proof.
  intros Hret.
  assert (Hout : out = Some slots /\
                 (Call_guards w method_name_ = false -> slots = [])).
  { destruct (Call_guards w method_name_) eqn:Hguards.
    - destruct (Call_wait w method_name_ request_ timeout_ arrived Hguards)
        as [w' [agg [Hcall _]]].
      rewrite (Hcall (Some [])) in Hret.
      destruct ((0 <? timeout_)
                || (expected_service_call_count agg
                    =? finished_service_call_count agg));
        [|discriminate Hret].
      injection Hret as _ <- <- _. split; [reflexivity|discriminate].
    - rewrite (Call_rejected w _ _ _ _ _ Hguards) in Hret.
      injection Hret as _ <- <- _. auto. }
  destruct Hout as [-> Hrej].
  destruct (Call_callbacks_spec slots w1) as [w2 [Hrun [Hthis [Hg Heff]]]].
  exists w2. unfold Call_callback. unfold bind at 1. rewrite Hret.
  unfold bind. rewrite Hrun. unfold ret. auto.
Qed.

Lemma Call_callback_delivers_witness :
  @Call example_codec "echo" "hi" 100 (Some []) example_first_arrived
    example_client_with_callback =
    Ok (Returns true (Some example_slots) example_slots)
      (world_of (@Call example_codec "echo" "hi" 100 (Some [])
                   example_first_arrived example_client_with_callback)) /\
  exists w2,
    @Call_callback example_codec "echo" "hi" 100 example_first_arrived
      example_client_with_callback = Ok (Some true) w2 /\
    this w2 =
      this (world_of (@Call example_codec "echo" "hi" 100 (Some [])
                        example_first_arrived example_client_with_callback)) /\
    globals w2 =
      globals (world_of (@Call example_codec "echo" "hi" 100 (Some [])
                           example_first_arrived example_client_with_callback)) /\
    effects w2 =
      (effects (world_of (@Call example_codec "echo" "hi" 100 (Some [])
                            example_first_arrived example_client_with_callback)) ++
       match
         m_response_callback
           (this (world_of (@Call example_codec "echo" "hi" 100 (Some [])
                              example_first_arrived example_client_with_callback)))
       with
       | Some target => map (response_callback_call target) example_slots
       | None => []
       end)%list /\
    (Call_guards example_client_with_callback "echo" = false -> example_slots = []).
Proof.
  split; [vm_compute; reflexivity|].
  apply (@Call_callback_delivers example_codec example_client_with_callback
           (world_of (@Call example_codec "echo" "hi" 100 (Some [])
                        example_first_arrived example_client_with_callback))
           "echo" "hi" 100 example_first_arrived true (Some example_slots)
           example_slots).
  vm_compute; reflexivity.
Defined.

(** ** The asynchronous call, past its guards *)

(** The calls that [CallAsync] makes for the peers it dispatches to. *)
Definition async_calls (c : CServiceClientImpl) (request : string)
    (peers : list SServiceAttr) : list Effect :=
  flat_map
    (fun peer =>
       match StdMap.find (key peer) (m_client_map c) with
       | Some client =>
           [async_call_service client request
              (async_completion (hname peer) (sname peer))]
       | None => []
       end)
    peers.

Lemma CallAsync_loop_spec (request : string) (service_vec : list SServiceAttr) :
  forall w called,
  exists w',
    CallAsync_loop request service_vec called w =
      Ok (called
          || negb (Nat.eqb (List.length (dispatched_peers (this w) service_vec)) 0))
         w' /\
    this w' = this w /\ globals w' = globals w /\
    effects w' =
      (effects w ++
       async_calls (this w) request (dispatched_peers (this w) service_vec))%list.
Proof.
  induction service_vec as [|service rest IH]; intros w called.
  - exists w. cbn. unfold ret. rewrite orb_false_r, app_nil_r. auto.
  - cbn [CallAsync_loop]. unfold bind at 1. unfold get_this at 1.
    rewrite dispatched_peers_cons. unfold host_matches, has_session.
    destruct (empty (m_host_name (this w))
              || String.eqb (m_host_name (this w)) (hname service));
      cbn [andb]; [|apply IH].
    destruct (StdMap.find (key service) (m_client_map (this w)))
      as [client|] eqn:Ef; [|apply IH].
    unfold bind at 1. unfold emit at 1.
    match goal with
    | |- context [CallAsync_loop request rest true ?v] =>
        destruct (IH v true) as [w' [Hrun [Hthis [Hg Heff]]]]
    end.
    cbn [this globals effects] in *.
    exists w'. split; [rewrite Hrun, orb_true_r; reflexivity|].
    split; [exact Hthis|]. split; [exact Hg|].
    rewrite Heff, <- app_assoc. unfold async_calls. cbn [flat_map].
    rewrite Ef. reflexivity.
Qed.

(** X15.  The asynchronous call, past its guards, refreshes the sessions
    and then makes one [async_call_service] call for every peer that passes
    the host filter and has a session, in the order of the gate's snapshot,
    each with the serialized request and a completion that remembers the
    peer's host and service name; it calls no callback itself and returns
    true exactly when it dispatched to at least one peer. *)
Theorem CallAsync_dispatches `{Protobuf} (w : World)
    (method_name_ request_ : string) :
  Call_guards w method_name_ = true ->
  exists w1 w',
    CheckForNewServices w = Ok tt w1 /\
    CallAsync method_name_ request_ w =
      Ok (negb (Nat.eqb (List.length (peers_at_dispatch w)) 0)) w' /\
    this w' = this w1 /\ globals w' = globals w1 /\
    effects w' =
      (effects w1 ++
       async_calls (this w1)
         (SerializeAsString {| pb_request_mname := method_name_;
                               pb_request := request_ |})
         (peers_at_dispatch w))%list.
Proof.
  intros Hguards.
  destruct (Call_guards_true w method_name_ Hguards)
    as [G [Hgate [Hcreated [Hname Hmethod]]]].
  destruct (CheckForNewServices_returns w) as [w1 Hw1].
  destruct (CallAsync_loop_spec
              (SerializeAsString {| pb_request_mname := method_name_;
                                    pb_request := request_ |})
              (G (m_service_name (this w))) w1 false)
    as [w' [Hrun [Hthis [Hg Heff]]]].
  rewrite <- (peers_at_dispatch_eq w w1 G Hgate Hw1) in Hrun, Heff.
  exists w1, w'. split; [exact Hw1|]. split; [|auto].
  unfold CallAsync. unfold bind at 1. unfold get_globals at 1. rewrite Hgate.
  unfold bind at 1. unfold get_this at 1.
  rewrite Hcreated. cbn [negb]. rewrite Hname, Hmethod. cbn [orb].
  unfold bind at 1. rewrite Hw1. exact Hrun.
Qed.

Lemma CallAsync_dispatches_witness :
  Call_guards example_client_of_two "echo" = true /\
  exists w1 w',
    CheckForNewServices example_client_of_two = Ok tt w1 /\
    @CallAsync example_codec "echo" "hi" example_client_of_two =
      Ok (negb (Nat.eqb (List.length (peers_at_dispatch example_client_of_two)) 0)) w' /\
    this w' = this w1 /\ globals w' = globals w1 /\
    effects w' =
      (effects w1 ++
       async_calls (this w1)
         (@SerializeAsString example_codec
            {| pb_request_mname := "echo"; pb_request := "hi" |})
         (peers_at_dispatch example_client_of_two))%list.
Proof.
  split; [vm_compute; reflexivity|].
  apply (@CallAsync_dispatches example_codec example_client_of_two "echo" "hi").
  vm_compute; reflexivity.
Defined.

(** X16.  A response that arrives after [Destroy] is dropped.  On a client
    that has been destroyed the completion of an asynchronous call finds
    no response callback and does nothing. *)
Theorem CallAsync_response_after_Destroy `{Protobuf} (w : World)
    (hostname servicename : string) (response_error : Error) (response_ : string) :
  m_created (this w) = true ->
  exists w',
    Destroy w = Ok true w' /\
    CallAsync_response_callback hostname servicename response_error response_ w' =
      Ok tt w'.
Proof.
  intros Hc. destruct (Destroy_this w Hc) as [w' [Hd Hthis]].
  exists w'. split; [exact Hd|].
  unfold CallAsync_response_callback, bind, get_this. rewrite Hthis. reflexivity.
Qed.

Lemma CallAsync_response_after_Destroy_witness :
  m_created (this example_client_with_callback) = true /\
  exists w',
    Destroy example_client_with_callback = Ok true w' /\
    @CallAsync_response_callback example_codec "h1" "svc"
      {| is_error := false; ToString := "" |} "+hi" w' = Ok tt w'.
Proof.
  split; [vm_compute; reflexivity|].
  apply (@CallAsync_response_after_Destroy example_codec
           example_client_with_callback "h1" "svc"
           {| is_error := false; ToString := "" |} "+hi").
  vm_compute; reflexivity.
Defined.

(** X17.  What the response callback learns of a failed asynchronous call.
    When the completion of an asynchronous call is called with an error,
    or with a response that does not parse, the response callback, if one
    is set, is called once with the peer's host and service name, call
    state failed, return state 0 and the error's message (or "Could not
    parse server response"), while the method name and the service id of
    the response are empty. *)
Theorem CallAsync_response_failed `{Protobuf} (w : World)
    (hostname servicename : string) (response_error : Error) (response_ : string)
    (target : nat) :
  m_response_callback (this w) = Some target ->
  is_error response_error = true \/ ParseFromString response_ = None ->
  exists w',
    CallAsync_response_callback hostname servicename response_error response_ w =
      Ok tt w' /\
    this w' = this w /\ globals w' = globals w /\
    effects w' =
      (effects w ++
       [response_callback_call target
          {| host_name := hostname; service_name := servicename;
             service_id := ""; method_name := "";
             error_msg :=
               if is_error response_error then ToString response_error
               else "Could not parse server response";
             ret_state := 0;
             call_state := call_state_failed;
             response := "" |}])%list.
Proof.
  intros Hcb Hfail.
  unfold CallAsync_response_callback, bind, get_this, emit.
  rewrite Hcb. eexists. split; [reflexivity|]. cbn [this globals effects].
  repeat split. do 3 f_equal.
  destruct (is_error response_error) eqn:Ee; [reflexivity|].
  destruct Hfail as [Hf|Hf]; [discriminate Hf|].
  unfold fromSerializedProtobuf. rewrite Hf. reflexivity.
Qed.

Lemma CallAsync_response_failed_witness :
  m_response_callback (this example_client_with_callback) = Some 5%nat /\
  (is_error example_refused = true \/
   @ParseFromString example_codec "" = None) /\
  exists w',
    @CallAsync_response_callback example_codec "h1" "svc" example_refused ""
      example_client_with_callback = Ok tt w' /\
    this w' = this example_client_with_callback /\
    globals w' = globals example_client_with_callback /\
    effects w' =
      (effects example_client_with_callback ++
       [response_callback_call 5%nat
          {| host_name := "h1"; service_name := "svc";
             service_id := ""; method_name := "";
             error_msg :=
               if is_error example_refused then ToString example_refused
               else "Could not parse server response";
             ret_state := 0;
             call_state := call_state_failed;
             response := "" |}])%list.
Proof.
  split; [vm_compute; reflexivity|]. split; [left; reflexivity|].
  apply (@CallAsync_response_failed example_codec example_client_with_callback
           "h1" "svc" example_refused "" 5%nat).
  - vm_compute; reflexivity.
  - left. reflexivity.
Defined.

(** ** The deprecated call *)

(** The sessions of the peers a call dispatches to. *)
Definition sessions_of (c : CServiceClientImpl) (peers : list SServiceAttr)
    : list ClientSession :=
  flat_map
    (fun peer =>
       match StdMap.find (key peer) (m_client_map c) with
       | Some client => [client]
       | None => []
       end)
    peers.

Lemma sessions_of_length (c : CServiceClientImpl) (service_vec : list SServiceAttr) :
  List.length (sessions_of c (dispatched_peers c service_vec)) =
  List.length (dispatched_peers c service_vec).
Proof.
  induction service_vec as [|service rest IH]; [reflexivity|].
  rewrite dispatched_peers_cons.
  destruct (host_matches c service); cbn [andb]; [|exact IH].
  destruct (has_session c service) eqn:Eh; [|exact IH].
  unfold has_session in Eh.
  destruct (StdMap.find (key service) (m_client_map c)) eqn:Ef; [|discriminate].
  unfold sessions_of. cbn [flat_map]. rewrite Ef. cbn. f_equal. exact IH.
Qed.

Lemma Call_deprecated_loop_spec `{Protobuf} (method_name_ request_ : string)
    (answers : nat -> Error * string) (service_vec : list SServiceAttr) :
  forall w service_response_ called,
    let request :=
      SerializeAsString {| pb_request_mname := method_name_;
                           pb_request := request_ |} in
    let sessions := sessions_of (this w) (dispatched_peers (this w) service_vec) in
    let base := List.length called in
    ((forall j, (j < List.length sessions)%nat ->
        is_error (fst (answers (base + j)%nat)) = true) ->
     Call_deprecated_loop method_name_ request_ answers service_vec
       service_response_ called w =
     Ok (false, service_response_,
         (called ++ map (fun s => (s, request)) sessions)%list) w) /\
    (forall n,
       (n < List.length sessions)%nat ->
       is_error (fst (answers (base + n)%nat)) = false ->
       (forall j, (j < n)%nat -> is_error (fst (answers (base + j)%nat)) = true) ->
       Call_deprecated_loop method_name_ request_ answers service_vec
         service_response_ called w =
       Ok (true,
           fromSerializedProtobuf (snd (answers (base + n)%nat)) service_response_,
           (called ++ map (fun s => (s, request)) (firstn (S n) sessions))%list) w).
Proof.
  induction service_vec as [|service rest IH]; intros w resp called request.
  - cbn. split.
    + intros _. unfold ret. rewrite app_nil_r. reflexivity.
    + intros n Hn. lia.
  - cbn zeta. cbn [Call_deprecated_loop]. unfold bind at 1 2. unfold get_this.
    rewrite dispatched_peers_cons. unfold host_matches, has_session.
    destruct (empty (m_host_name (this w))
              || String.eqb (m_host_name (this w)) (hname service));
      cbn [andb]; [|apply IH].
    destruct (StdMap.find (key service) (m_client_map (this w)))
      as [client|] eqn:Ef; [|apply IH].
    unfold sessions_of. cbn [flat_map]. rewrite Ef. cbn [app List.length].
    fold (sessions_of (this w) (dispatched_peers (this w) rest)).
    destruct (IH w resp (called ++ [(client, request)])%list) as [IHnone IHsome].
    rewrite length_app in IHnone, IHsome. cbn [List.length] in IHnone, IHsome.
    split.
    + intros Hall.
      pose proof (Hall 0%nat ltac:(lia)) as H0. rewrite Nat.add_0_r in H0.
      rewrite H0. fold request. rewrite IHnone.
      * cbn [map]. rewrite <- app_assoc. reflexivity.
      * intros j Hj. replace (List.length called + 1 + j)%nat
          with (List.length called + S j)%nat by lia.
        apply Hall. lia.
    + intros [|n] Hn Hok Hbefore.
      * rewrite Nat.add_0_r in *. rewrite Hok. unfold ret. reflexivity.
      * pose proof (Hbefore 0%nat ltac:(lia)) as H0. rewrite Nat.add_0_r in H0.
        rewrite H0. fold request.
        replace (List.length called + S n)%nat
          with (List.length called + 1 + n)%nat by lia.
        rewrite (IHsome n).
        -- cbn [firstn map]. rewrite <- app_assoc. reflexivity.
        -- lia.
        -- replace (List.length called + 1 + n)%nat
             with (List.length called + S n)%nat by lia. exact Hok.
        -- intros j Hj. replace (List.length called + 1 + j)%nat
             with (List.length called + S j)%nat by lia.
           apply Hbefore. lia.
Qed.

(** X18.  The deprecated call stops at the first peer that answers.  Past
    its guards it calls the sessions of the dispatched peers in the order
    of the gate's snapshot, each with the same serialized request; it
    returns false with the caller's response untouched when every one of
    them came back with an error, and at the first one without an error it
    returns true, fills the response from that answer and calls no later
    peer.  It returns true also when that answer does not parse: the
    response is then marked failed. *)
Theorem Call_deprecated_first_answer `{Protobuf} (w : World)
    (method_name_ request_ : string) (service_response_ : SServiceResponse)
    (answers : nat -> Error * string) :
  Call_guards w method_name_ = true ->
  let w1 := world_of (CheckForNewServices w) in
  let sessions := sessions_of (this w1) (peers_at_dispatch w) in
  let request :=
    SerializeAsString {| pb_request_mname := method_name_;
                         pb_request := request_ |} in
  ((forall j, (j < List.length sessions)%nat ->
      is_error (fst (answers j)) = true) ->
   Call_deprecated method_name_ request_ service_response_ answers w =
   Ok (false, service_response_, map (fun s => (s, request)) sessions) w1) /\
  (forall n,
     (n < List.length sessions)%nat ->
     is_error (fst (answers n)) = false ->
     (forall j, (j < n)%nat -> is_error (fst (answers j)) = true) ->
     Call_deprecated method_name_ request_ service_response_ answers w =
     Ok (true, fromSerializedProtobuf (snd (answers n)) service_response_,
         map (fun s => (s, request)) (firstn (S n) sessions)) w1 /\
     (ParseFromString (snd (answers n)) = None ->
      call_state (fromSerializedProtobuf (snd (answers n)) service_response_) =
      call_state_failed)).
Proof.
  intros Hguards.
  destruct (Call_guards_true w method_name_ Hguards)
    as [G [Hgate [Hcreated [Hname Hmethod]]]].
  destruct (CheckForNewServices_returns w) as [w1' Hw1].
  unfold peers_at_dispatch. rewrite Hgate, Hw1. cbn [world_of].
  assert (Hcall :
    Call_deprecated method_name_ request_ service_response_ answers w =
    Call_deprecated_loop method_name_ request_ answers
      (G (m_service_name (this w))) service_response_ [] w1').
  { unfold Call_deprecated. unfold bind at 1. unfold get_globals at 1.
    unfold bind at 1. unfold get_this at 1.
    rewrite Hgate, Hcreated, Hname, Hmethod. cbn [negb orb].
    unfold bind at 1. rewrite Hw1. reflexivity. }
  destruct (Call_deprecated_loop_spec method_name_ request_ answers
              (G (m_service_name (this w))) w1' service_response_ [])
    as [Hnone Hsome].
  cbn [List.length Nat.add app] in Hnone, Hsome.
  split.
  - intros Hall. rewrite Hcall. apply Hnone. exact Hall.
  - intros n Hn Hok Hbefore. split.
    + rewrite Hcall. apply Hsome; assumption.
    + intros Hparse. unfold fromSerializedProtobuf. rewrite Hparse. reflexivity.
Qed.

Lemma Call_deprecated_first_answer_witness :
  Call_guards example_client_of_two "echo" = true /\
  @Call_deprecated example_codec "echo" "hi" SServiceResponse_new example_answers
    example_client_of_two =
  Ok (true,
      @fromSerializedProtobuf example_codec (snd (example_answers 1))
        SServiceResponse_new,
      map (fun s => (s, @SerializeAsString example_codec
                          {| pb_request_mname := "echo"; pb_request := "hi" |}))
        (firstn 2
           (sessions_of (this (world_of (CheckForNewServices example_client_of_two)))
              (peers_at_dispatch example_client_of_two))))
    (world_of (CheckForNewServices example_client_of_two)).
Proof.
  split; [vm_compute; reflexivity|].
  apply (proj2 (@Call_deprecated_first_answer example_codec example_client_of_two
                  "echo" "hi" SServiceResponse_new example_answers
                  ltac:(vm_compute; reflexivity)) 1%nat).
  - vm_compute. lia.
  - reflexivity.
  - intros j Hj. assert (j = 0%nat) as -> by lia. reflexivity.
Defined.

(** X19.  A call that is turned away at a guard calls no session and
    leaves the caller's response and the client as they were. *)
Lemma Call_deprecated_rejected `{Protobuf} (w : World)
    (method_name_ request_ : string) (service_response_ : SServiceResponse)
    (answers : nat -> Error * string) :
  Call_guards w method_name_ = false ->
  Call_deprecated method_name_ request_ service_response_ answers w =
  Ok (false, service_response_, []) w.
Proof.
  unfold Call_guards, Call_deprecated. unfold bind at 1. unfold get_globals at 1.
  unfold bind at 1. unfold get_this at 1.
  destruct (g_clientgate (globals w)); [|reflexivity].
  destruct (m_created (this w)); [|reflexivity].
  destruct (empty (m_service_name (this w))); [reflexivity|].
  destruct (empty method_name_); [reflexivity|]. discriminate.
Qed.

Lemma Call_deprecated_rejected_witness :
  Call_guards (World_new uninitialized_globals) "echo" = false /\
  @Call_deprecated example_codec "echo" "hi" SServiceResponse_new example_answers
    (World_new uninitialized_globals) =
  Ok (false, SServiceResponse_new, []) (World_new uninitialized_globals).
Proof.
  split; [reflexivity|].
  apply (@Call_deprecated_rejected example_codec (World_new uninitialized_globals)
           "echo" "hi" SServiceResponse_new example_answers).
  reflexivity.
Defined.

(** ** The host filter *)

(** X20.  The host name [*] stands for no filter.  [SetHostName] always
    returns true and changes nothing but the host filter of the client:
    the filter becomes empty for [*] and the name given otherwise, and
    every other member of the client, the globals and the calls made stay
    as they were.  After [SetHostName host_name_] a call dispatches to the
    peers with a session whose host is [host_name_]; with [*] or the empty
    name, to every peer with a session. *)
Theorem SetHostName_filter (w : World) (host_name_ : string)
    (service_vec : list SServiceAttr) :
  exists w',
    SetHostName host_name_ w = Ok true w' /\
    SetHostName "*" w = SetHostName "" w /\
    globals w' = globals w /\ effects w' = effects w /\
    m_client_map (this w') = m_client_map (this w) /\
    dispatched_peers (this w') service_vec =
    filter
      (fun service =>
         (String.eqb host_name_ "*" || String.eqb host_name_ ""
          || String.eqb host_name_ (hname service))
         && has_session (this w) service)
      service_vec /\
    m_host_name (this w') =
      (if String.eqb host_name_ "*" then "" else host_name_) /\
    m_service_name (this w') = m_service_name (this w) /\
    m_service_id (this w') = m_service_id (this w) /\
    m_connected_services_map (this w') = m_connected_services_map (this w) /\
    m_event_callback_map (this w') = m_event_callback_map (this w) /\
    m_response_callback (this w') = m_response_callback (this w) /\
    m_created (this w') = m_created (this w).
Proof.
  unfold SetHostName.
  destruct (String.eqb host_name_ "*") eqn:Estar.
  - eexists. split; [reflexivity|]. split; [reflexivity|].
    split; [reflexivity|]. split; [reflexivity|]. split; [reflexivity|].
    split; [|repeat split].
    cbn [orb andb]. reflexivity.
  - eexists. split; [reflexivity|]. split; [reflexivity|].
    split; [reflexivity|]. split; [reflexivity|]. split; [reflexivity|].
    split; [|repeat split].
    unfold dispatched_peers. apply filter_ext. intros service.
    unfold host_matches, has_session, empty. cbn.
    destruct host_name_; reflexivity.
Qed.

(** ** What an answer leaves in a slot *)

(** X21.  The return state of a parsed response is the response's
    [ret_state] as an [int]: it lies in the range of [int], differs from
    the value sent by a multiple of [2^32], and is that value when it
    fits. *)
Theorem fromProtobuf_ret_state (response_pb : pb_Response) (r : SServiceResponse) :
  - 2 ^ 31 <= ret_state (fromProtobuf response_pb r) < 2 ^ 31 /\
  (ret_state (fromProtobuf response_pb r) - pb_ret_state response_pb) mod 2 ^ 32 = 0 /\
  (- 2 ^ 31 <= pb_ret_state response_pb < 2 ^ 31 ->
   ret_state (fromProtobuf response_pb r) = pb_ret_state response_pb).
Proof.
  cbn [fromProtobuf ret_state]. unfold static_cast_int.
  set (z := pb_ret_state response_pb).
  pose proof (Z.mod_pos_bound (z + 2 ^ 31) (2 ^ 32) ltac:(lia)) as Hb.
  split; [lia|]. split.
  - pose proof (Z.div_mod (z + 2 ^ 31) (2 ^ 32) ltac:(lia)) as Hdm.
    replace ((z + 2 ^ 31) mod 2 ^ 32 - 2 ^ 31 - z)
      with ((- ((z + 2 ^ 31) / 2 ^ 32)) * 2 ^ 32) by lia.
    apply Z.mod_mul. lia.
  - intros Hz. rewrite Z.mod_small by lia. lia.
Qed.

(** X22.  The slot of a peer that answered.  In a blocking call that
    passes its guards and returns, the slot of a peer whose completion ran
    without an error and with a response that parses holds the fields of
    the response header and the response itself, not the peer's identity
    the slot was prepared with; its call state is executed when the header
    says so and failed otherwise. *)
Theorem Call_answered_slot `{Protobuf} (w : World)
    (method_name_ request_ : string) (timeout_ : Z)
    (service_response_vec_ : option ServiceResponseVecT)
    (arrived : nat -> option (Error * string))
    (i : nat) (peer : SServiceAttr) (response_error : Error) (response_ : string)
    (response_pb : pb_Response) :
  Call_guards w method_name_ = true ->
  nth_error (peers_at_dispatch w) i = Some peer ->
  arrived i = Some (response_error, response_) ->
  is_error response_error = false ->
  ParseFromString response_ = Some response_pb ->
  forall result out slots w',
    Call method_name_ request_ timeout_ service_response_vec_ arrived w =
    Ok (Returns result out slots) w' ->
    nth_error slots i =
    Some {| host_name := pb_hname (pb_header response_pb);
            service_name := pb_sname (pb_header response_pb);
            service_id := pb_sid (pb_header response_pb);
            method_name := pb_mname (pb_header response_pb);
            error_msg := pb_error (pb_header response_pb);
            ret_state := static_cast_int (pb_ret_state response_pb);
            call_state :=
              match pb_state (pb_header response_pb) with
              | ServiceHeader_eCallState_executed => call_state_executed
              | _ => call_state_failed
              end;
            response := pb_response response_pb |}.
Proof.
  intros Hguards Hpeer Harr Hok Hparse result out slots w'' Hret.
  destruct (Call_guards_true w method_name_ Hguards)
    as [G [Hgate [Hcreated [Hname Hmethod]]]].
  destruct (Call_spec w method_name_ request_ timeout_ service_response_vec_
              arrived G Hgate Hcreated Hname Hmethod)
    as [w1 [w' [calls [agg [Hw1 [Hcall [_ [_ [_ [_ Hrest]]]]]]]]]].
  cbv zeta in Hrest. destruct Hrest as [_ [_ [_ [_ Hslots]]]].
  rewrite (peers_at_dispatch_eq w w1 G Hgate Hw1) in Hpeer.
  rewrite Hcall in Hret.
  destruct ((0 <? timeout_)
            || (expected_service_call_count agg
                =? finished_service_call_count agg));
    [|discriminate Hret].
  injection Hret as _ _ <- _.
  rewrite (Hslots i peer Hpeer), Harr.
  unfold resolve. rewrite Hok. unfold fromSerializedProtobuf. rewrite Hparse.
  unfold fromProtobuf. cbn.
  destruct (pb_state (pb_header response_pb)); reflexivity.
Qed.

Lemma Call_answered_slot_witness :
  Call_guards example_client_of_two "echo" = true /\
  nth_error (peers_at_dispatch example_client_of_two) 0 =
    Some (example_peer "k1" "h1" 1) /\
  example_first_arrived 0 = Some ({| is_error := false; ToString := "" |}, "+hi") /\
  @Call example_codec "echo" "hi" 100 (Some []) example_first_arrived
    example_client_of_two =
    Ok (Returns true (Some example_slots) example_slots)
      (world_of (@Call example_codec "echo" "hi" 100 (Some [])
                   example_first_arrived example_client_of_two)) /\
  nth_error example_slots 0 =
    Some {| host_name := "server"; service_name := "svc"; service_id := "1";
            method_name := "echo"; error_msg := "";
            ret_state := static_cast_int 7;
            call_state := call_state_executed; response := "hi" |}.
Proof.
  split; [vm_compute; reflexivity|]. split; [vm_compute; reflexivity|].
  split; [reflexivity|]. split; [vm_compute; reflexivity|].
  apply (@Call_answered_slot example_codec example_client_of_two
           "echo" "hi" 100 (Some []) example_first_arrived 0%nat
           (example_peer "k1" "h1" 1) {| is_error := false; ToString := "" |} "+hi"
           {| pb_header :=
                {| pb_hname := "server"; pb_sname := "svc"; pb_sid := "1";
                   pb_mname := "echo"; pb_error := "";
                   pb_state := ServiceHeader_eCallState_executed |};
              pb_ret_state := 7;
              pb_response := "hi" |}
           ltac:(vm_compute; reflexivity) ltac:(vm_compute; reflexivity)
           eq_refl eq_refl eq_refl
           true (Some example_slots) example_slots
           (world_of (@Call example_codec "echo" "hi" 100 (Some [])
                        example_first_arrived example_client_of_two))).
  vm_compute; reflexivity.
Defined.

(** * Properties of the service server *)

(** The session class of a protocol version. *)
Definition class_of (version : Z) : Server.ServerSession :=
  if version =? 0 then Server.ServerSessionV0 else Server.ServerSessionV1.

Definition effect_of_version (version : Z) (e : Server.Effect) : Prop :=
  match e with
  | Server.session_create _ class => class = class_of version
  | Server.acceptor_async_accept _ v => v = version
  | _ => True
  end.

(** What holds of a server in every state it reaches from [create]. *)
Record server_inv (version : Z) (w : Server.World) : Prop := {
  inv_nodup :
    forall srv, Server.me w = Some srv -> NoDup (Server.session_list_ srv);
  inv_listed :
    forall srv s,
      Server.me w = Some srv -> In s (Server.session_list_ srv) ->
      (s < Server.sessions_created w)%nat /\
      In (Server.session_create s (class_of version)) (Server.effects w) /\
      In (Server.session_start s) (Server.effects w);
  inv_listed_old :
    forall srv s p v,
      Server.me w = Some srv -> In s (Server.session_list_ srv) ->
      Server.accepting w = Some (p, v) -> (s < p)%nat;
  inv_pending :
    forall p v,
      Server.accepting w = Some (p, v) ->
      S p = Server.sessions_created w /\ v = version /\
      Server.alive w p = true /\
      In (Server.session_create p (class_of version)) (Server.effects w);
  inv_effects : Forall (effect_of_version version) (Server.effects w)
}.

Lemma erase_first_In (p : nat -> bool) (l : list nat) (x : nat) :
  In x (Server.erase_first p l) -> In x l.
Proof.
  induction l as [|y rest IH]; cbn; [tauto|].
  destruct (p y); cbn; tauto.
Qed.

Lemma erase_first_NoDup (p : nat -> bool) (l : list nat) :
  NoDup l -> NoDup (Server.erase_first p l).
Proof.
  induction 1 as [|y rest Hy Hnd IH]; cbn; [constructor|].
  destruct (p y); [exact Hnd|].
  constructor; [|exact IH].
  intros Hin. apply Hy. apply (erase_first_In p). exact Hin.
Qed.

Lemma erase_first_filter (s : nat) (p : nat -> bool) (l : list nat) :
  NoDup l ->
  (forall x, In x l -> p x = Nat.eqb x s) ->
  Server.erase_first p l = filter (fun x => negb (Nat.eqb x s)) l.
Proof.
  induction 1 as [|y rest Hy Hnd IH]; intros Hp; [reflexivity|].
  cbn. rewrite (Hp y (or_introl eq_refl)).
  destruct (Nat.eqb y s) eqn:E; cbn.
  - apply Nat.eqb_eq in E. subst y.
    symmetry. apply forallb_filter_id. apply forallb_forall.
    intros x Hx. apply negb_true_iff. apply Nat.eqb_neq.
    intros ->. contradiction.
  - f_equal. apply IH. intros x Hx. apply Hp. right. exact Hx.
Qed.

Lemma server_inv_create (version : Z) : server_inv version (Server.create version).
Proof.
  constructor; cbn.
  - intros srv [= <-]. constructor.
  - intros srv s [= <-] [].
  - intros srv s p v [= <-] [].
  - intros p v [= <- <-]. rewrite Nat.eqb_refl. fold (class_of version). auto.
  - fold (class_of version). repeat constructor.
Qed.

Lemma server_inv_emit (version : Z) (w : Server.World) (e : list Server.Effect) :
  Forall (effect_of_version version) e ->
  server_inv version w -> server_inv version (Server.emit e w).
Proof.
  intros He [Hnd Hl Hlo Hp Hf]. constructor; cbn.
  - exact Hnd.
  - intros srv s Hme Hin. destruct (Hl srv s Hme Hin) as [H1 [H2 H3]].
    repeat split; [exact H1| |]; apply in_or_app; left; assumption.
  - exact Hlo.
  - intros p v Hacc. destruct (Hp p v Hacc) as [H1 [H2 [H3 H4]]].
    repeat split; try assumption. apply in_or_app; left; assumption.
  - apply Forall_app. split; assumption.
Qed.

Lemma server_inv_expire (version : Z) (w : Server.World) (session : nat) :
  server_inv version w ->
  (forall p v, Server.accepting w = Some (p, v) -> session <> p) ->
  server_inv version
    {| Server.me := Server.me w;
       Server.alive := fun s => if Nat.eqb s session then false else Server.alive w s;
       Server.sessions_created := Server.sessions_created w;
       Server.accepting := Server.accepting w;
       Server.effects := Server.effects w |}.
Proof.
  intros [Hnd Hl Hlo Hp Hf] Hne. constructor; cbn; try assumption.
  intros p v Hacc. destruct (Hp p v Hacc) as [H1 [H2 [H3 H4]]].
  repeat split; try assumption.
  destruct (Nat.eqb p session) eqn:E; [|exact H3].
  apply Nat.eqb_eq in E. exfalso. apply (Hne p v Hacc). symmetry. exact E.
Qed.

Ltac known := first [assumption | reflexivity].

Lemma server_inv_step (version : Z) (op : Server.Op) (w : Server.World) :
  server_inv version w -> server_inv version (Server.step op w).
Proof.
  intros Hinv. destruct op as [ec|session_to_remove| | |session]; cbn [Server.step].
  - destruct (Server.accepting w) as [[p v]|] eqn:Eacc; [|exact Hinv].
    destruct Hinv as [Hnd Hl Hlo Hp Hf].
    destruct (Hp p v ltac:(known)) as [Hsc [Hv [Halive Hcreated]]]. subst v.
    destruct ec as [message|].
    + constructor; cbn.
      * exact Hnd.
      * intros srv s Hme Hin. destruct (Hl srv s Hme Hin) as [H1 [H2 H3]].
        repeat split; [exact H1| |]; apply in_or_app; left; assumption.
      * discriminate.
      * discriminate.
      * apply Forall_app. split; [exact Hf|repeat constructor].
    + unfold Server.accept_handler. cbn [Server.me].
      destruct (Server.me w) as [srv|] eqn:Eme; cbn.
      * constructor; cbn.
        -- intros srv' [= <-]. cbn. apply NoDup_app.
           ++ exact (Hnd srv ltac:(known)).
           ++ repeat constructor. intros [].
           ++ intros x Hx [<-|[]].
              pose proof (Hlo srv p p version ltac:(known) Hx ltac:(known)). lia.
        -- intros srv' s [= <-]. cbn. intros Hin.
           apply in_app_or in Hin. destruct Hin as [Hin|[<-|[]]].
           ++ destruct (Hl srv s ltac:(known) Hin) as [H1 [H2 H3]].
              repeat split; [lia| |]; apply in_or_app; left;
                apply in_or_app; left; assumption.
           ++ repeat split; [lia| |].
              ** apply in_or_app; left; apply in_or_app; left; assumption.
              ** apply in_or_app; left; apply in_or_app; right; left; reflexivity.
        -- intros srv' s p' v' [= <-]. cbn. intros Hin [= <- <-].
           apply in_app_or in Hin. destruct Hin as [Hin|[<-|[]]].
           ++ destruct (Hl srv s ltac:(known) Hin) as [H1 _]. exact H1.
           ++ lia.
        -- intros p' v' [= <- <-]. rewrite Nat.eqb_refl.
           fold (class_of version). repeat split.
           apply in_or_app; right; left; reflexivity.
        -- fold (class_of version). apply Forall_app. split.
           ++ apply Forall_app. split; [exact Hf|repeat constructor].
           ++ repeat constructor.
      * constructor; cbn; try discriminate.
        apply Forall_app. split; [exact Hf|repeat constructor].
  - assert (Hsh : forall r, server_inv version (Server.shutdown_callback r w)).
    { intros r. unfold Server.shutdown_callback.
      destruct (Server.me w) as [srv|] eqn:Eme; [|exact Hinv].
      destruct Hinv as [Hnd Hl Hlo Hp Hf]. constructor; cbn.
      - intros srv' [= <-]. cbn. apply erase_first_NoDup. exact (Hnd srv ltac:(known)).
      - intros srv' s [= <-]. cbn. intros Hin. apply erase_first_In in Hin.
        exact (Hl srv s ltac:(known) Hin).
      - intros srv' s p v [= <-]. cbn. intros Hin Hacc.
        apply erase_first_In in Hin. exact (Hlo srv s p v ltac:(known) Hin Hacc).
      - exact Hp.
      - exact Hf. }
    destruct session_to_remove as [s|]; [|apply Hsh].
    destruct (Server.alive w s); [apply Hsh|exact Hinv].
  - unfold Server.stop. destruct (Server.me w) as [srv|]; [|exact Hinv].
    apply server_inv_emit; [|exact Hinv].
    constructor; [exact I|].
    apply Forall_flat_map. apply Forall_forall. intros x _.
    destruct (Server.lock w x); repeat constructor.
  - destruct (Server.me w) as [srv|] eqn:Eme; [|exact Hinv].
    assert (Hstop : server_inv version (Server.stop w)).
    { unfold Server.stop. rewrite Eme. apply server_inv_emit; [|exact Hinv].
      constructor; [exact I|].
      apply Forall_flat_map. apply Forall_forall. intros x _.
      destruct (Server.lock w x); repeat constructor. }
    destruct Hstop as [Hnd Hl Hlo Hp Hf].
    unfold Server.ServerImpl_destructor. constructor; cbn; try discriminate.
    + exact Hp.
    + exact Hf.
  - pose proof (server_inv_expire version w session Hinv) as Hexp.
    destruct (Server.accepting w) as [[p v]|] eqn:Eacc.
    + destruct (Nat.eqb session p) eqn:E; [exact Hinv|].
      apply Hexp. intros p' v' [= <- <-]. apply Nat.eqb_neq. exact E.
    + apply Hexp. discriminate.
Qed.

Lemma server_inv_run (version : Z) (ops : list Server.Op) :
  forall w, server_inv version w -> server_inv version (Server.run ops w).
Proof.
  induction ops as [|op rest IH]; intros w Hinv; [exact Hinv|].
  cbn. apply IH. apply server_inv_step. exact Hinv.
Qed.

(** X23.  A session that reports its shutdown is taken off the list.
    In every state a server reaches from [create], when a session that has
    not expired calls the shutdown callback with itself, the session list
    afterwards is the list before without that session: it is listed no
    more, and the other sessions stay, in their order. *)
Theorem Server_shutdown_removes_session (version : Z) (ops : list Server.Op)
    (s : nat) (srv : Server.ServerImpl) :
  let w := Server.run ops (Server.create version) in
  Server.me w = Some srv ->
  Server.alive w s = true ->
  Server.me (Server.step (Server.OpShutdown (Some s)) w) =
  Some {| Server.session_list_ :=
            filter (fun x => negb (Nat.eqb x s)) (Server.session_list_ srv) |}.
Proof.
  intros w Hme Halive.
  pose proof (server_inv_run version ops _ (server_inv_create version)) as Hinv.
  fold w in Hinv. cbn [Server.step]. rewrite Halive.
  unfold Server.shutdown_callback. rewrite Hme. cbn. f_equal. f_equal.
  apply erase_first_filter.
  - exact (inv_nodup version w Hinv srv Hme).
  - intros x _. unfold Server.lock.
    destruct (Server.alive w x) eqn:Ex; cbn.
    + apply Nat.eqb_sym.
    + symmetry. apply Nat.eqb_neq. intros ->. congruence.
Qed.

Lemma Server_shutdown_removes_session_witness :
  Server.me (Server.run [Server.OpAccepted None; Server.OpAccepted None]
               (Server.create 1)) =
    Some {| Server.session_list_ := [0%nat; 1%nat] |} /\
  Server.alive (Server.run [Server.OpAccepted None; Server.OpAccepted None]
                  (Server.create 1)) 0%nat = true /\
  Server.me (Server.step (Server.OpShutdown (Some 0%nat))
               (Server.run [Server.OpAccepted None; Server.OpAccepted None]
                  (Server.create 1))) =
    Some {| Server.session_list_ :=
              filter (fun x => negb (Nat.eqb x 0)) [0%nat; 1%nat] |}.
Proof.
  split; [reflexivity|]. split; [reflexivity|].
  apply (Server_shutdown_removes_session 1
           [Server.OpAccepted None; Server.OpAccepted None] 0%nat
           {| Server.session_list_ := [0%nat; 1%nat] |}); reflexivity.
Defined.

(** X24.  The sessions of a server.  In every state a server reaches
    from [create version], every session was created of the class of
    [version] (the first class for version 0, the second otherwise) and
    every accept was posted with [version]; no session is listed twice, and
    every listed session was created and started. *)
Theorem Server_sessions_listed_once (version : Z) (ops : list Server.Op) :
  let w := Server.run ops (Server.create version) in
  Forall (effect_of_version version) (Server.effects w) /\
  match Server.me w with
  | Some srv =>
      NoDup (Server.session_list_ srv) /\
      Forall
        (fun s =>
           In (Server.session_create s (class_of version)) (Server.effects w) /\
           In (Server.session_start s) (Server.effects w))
        (Server.session_list_ srv)
  | None => True
  end.
Proof.
  intros w.
  pose proof (server_inv_run version ops _ (server_inv_create version)) as Hinv.
  fold w in Hinv. split; [exact (inv_effects version w Hinv)|].
  destruct (Server.me w) as [srv|] eqn:Eme; [|exact I]. split.
  - exact (inv_nodup version w Hinv srv Eme).
  - apply Forall_forall. intros s Hin.
    destruct (inv_listed version w Hinv srv s Eme Hin) as [_ H]. exact H.
Qed.

Lemma stop_calls (w : Server.World) (l : list nat) :
  flat_map
    (fun session_weak =>
       match Server.lock w session_weak with
       | Some session => [Server.session_stop session]
       | None => []
       end) l =
  map Server.session_stop (filter (Server.alive w) l).
Proof.
  induction l as [|x rest IH]; [reflexivity|].
  cbn. unfold Server.lock at 1. destruct (Server.alive w x); cbn; rewrite IH;
    reflexivity.
Qed.

(** X25.  Stopping a server.  In every state a server reaches from
    [create], [stop] closes the acceptor and then stops every listed
    session that has not expired, each one once and in the order of the
    list; it takes no session off the list, so the connection count is
    what it was. *)
Theorem Server_stop_stops_each_session (version : Z) (ops : list Server.Op) :
  let w := Server.run ops (Server.create version) in
  match Server.me w with
  | Some srv =>
      let stopped := filter (Server.alive w) (Server.session_list_ srv) in
      Server.effects (Server.stop w) =
        (Server.effects w
         ++ Server.acceptor_close :: map Server.session_stop stopped)%list /\
      NoDup stopped /\
      Server.me (Server.stop w) = Some srv
  | None => Server.stop w = w
  end.
Proof.
  intros w.
  pose proof (server_inv_run version ops _ (server_inv_create version)) as Hinv.
  fold w in Hinv. unfold Server.stop.
  destruct (Server.me w) as [srv|] eqn:Eme; [|reflexivity].
  cbn. rewrite stop_calls. split; [reflexivity|]. split; [|exact Eme].
  apply NoDup_filter. exact (inv_nodup version w Hinv srv Eme).
Qed.

(** Effects that start nothing: a session stopped, the acceptor closed. *)
Definition is_stop_effect (e : Server.Effect) : Prop :=
  match e with
  | Server.session_stop _ | Server.acceptor_close => True
  | _ => False
  end.

Lemma Forall_stop_calls (w : Server.World) (l : list nat) :
  Forall is_stop_effect
    (Server.acceptor_close
     :: flat_map
          (fun session_weak =>
             match Server.lock w session_weak with
             | Some session => [Server.session_stop session]
             | None => []
             end) l).
Proof.
  constructor; [exact I|]. rewrite stop_calls.
  apply Forall_forall. intros e He. apply in_map_iff in He.
  destruct He as [s [<- _]]. exact I.
Qed.

(** A server with no accept pending: what a step may do. *)
Record accept_ended (w w' : Server.World) : Prop := {
  ended_accepting : Server.accepting w' = None;
  ended_sessions_created : Server.sessions_created w' = Server.sessions_created w;
  ended_sessions :
    forall srv', Server.me w' = Some srv' ->
      exists srv, Server.me w = Some srv /\
        incl (Server.session_list_ srv') (Server.session_list_ srv);
  ended_effects :
    exists more, Server.effects w' = (Server.effects w ++ more)%list /\
      Forall is_stop_effect more
}.

Lemma accept_ended_refl (w : Server.World) :
  Server.accepting w = None -> accept_ended w w.
Proof.
  intros Hacc. constructor; [exact Hacc|reflexivity| |].
  - intros srv' Hme. exists srv'. split; [exact Hme|apply incl_refl].
  - exists []. split; [symmetry; apply app_nil_r|constructor].
Qed.

Lemma accept_ended_trans (w1 w2 w3 : Server.World) :
  accept_ended w1 w2 -> accept_ended w2 w3 -> accept_ended w1 w3.
Proof.
  intros [Ha1 Hc1 Hs1 [m1 [He1 Hf1]]] [Ha2 Hc2 Hs2 [m2 [He2 Hf2]]].
  constructor; [exact Ha2|congruence| |].
  - intros srv3 Hme3. destruct (Hs2 srv3 Hme3) as [srv2 [Hme2 Hi2]].
    destruct (Hs1 srv2 Hme2) as [srv1 [Hme1 Hi1]].
    exists srv1. split; [exact Hme1|]. eapply incl_tran; eassumption.
  - exists (m1 ++ m2)%list. split.
    + rewrite He2, He1, app_assoc. reflexivity.
    + apply Forall_app. split; assumption.
Qed.

Lemma accept_ended_emit (w : Server.World) (e : list Server.Effect) :
  Server.accepting w = None -> Forall is_stop_effect e ->
  accept_ended w (Server.emit e w).
Proof.
  intros Hacc He. constructor; cbn; [exact Hacc|reflexivity| |].
  - intros srv' Hme. exists srv'. split; [exact Hme|apply incl_refl].
  - exists e. split; [reflexivity|exact He].
Qed.

Lemma accept_ended_step (op : Server.Op) (w : Server.World) :
  Server.accepting w = None -> accept_ended w (Server.step op w).
Proof.
  intros Hacc.
  destruct op as [ec|session_to_remove| | |session]; cbn [Server.step].
  - rewrite Hacc. apply accept_ended_refl. exact Hacc.
  - assert (Hsh : forall r, accept_ended w (Server.shutdown_callback r w)).
    { intros r. unfold Server.shutdown_callback.
      destruct (Server.me w) as [srv|] eqn:Eme;
        [|apply accept_ended_refl; exact Hacc].
      constructor; cbn; [exact Hacc|reflexivity| |].
      - intros srv' [= <-]. exists srv. split; [exact Eme|].
        cbn. intros x Hx. apply erase_first_In in Hx. exact Hx.
      - exists []. split; [symmetry; apply app_nil_r|constructor]. }
    destruct session_to_remove as [s|]; [|apply Hsh].
    destruct (Server.alive w s); [apply Hsh|apply accept_ended_refl; exact Hacc].
  - unfold Server.stop.
    destruct (Server.me w) as [srv|]; [|apply accept_ended_refl; exact Hacc].
    apply accept_ended_emit; [exact Hacc|apply Forall_stop_calls].
  - destruct (Server.me w) as [srv|] eqn:Eme;
      [|apply accept_ended_refl; exact Hacc].
    unfold Server.ServerImpl_destructor, Server.stop. rewrite Eme.
    constructor; cbn; [exact Hacc|reflexivity|discriminate|].
    eexists. split; [reflexivity|apply Forall_stop_calls].
  - rewrite Hacc. constructor; cbn; [reflexivity|reflexivity| |].
    + intros srv' Hme. exists srv'. split; [exact Hme|apply incl_refl].
    + exists []. split; [symmetry; apply app_nil_r|constructor].
Qed.

Lemma accept_ended_run (ops : list Server.Op) :
  forall w, Server.accepting w = None -> accept_ended w (Server.run ops w).
Proof.
  induction ops as [|op rest IH]; intros w Hacc;
    [apply accept_ended_refl; exact Hacc|].
  cbn. pose proof (accept_ended_step op w Hacc) as Hstep.
  eapply accept_ended_trans; [exact Hstep|].
  apply IH. exact (ended_accepting _ _ Hstep).
Qed.

(** X26.  An accept that fails is the last one.  Once the pending
    accept has completed with an error, whatever happens to the server
    afterwards, no accept is pending, no session is created or started, and
    the session list gains no session: all the server still does is stop
    sessions and close its acceptor. *)
Theorem Server_accept_error_is_final (w : Server.World) (message : string)
    (ops : list Server.Op) :
  let w1 := Server.step (Server.OpAccepted (Some message)) w in
  let w2 := Server.run ops w1 in
  Server.accepting w2 = None /\
  Server.sessions_created w2 = Server.sessions_created w /\
  (forall srv2, Server.me w2 = Some srv2 ->
     exists srv, Server.me w = Some srv /\
       incl (Server.session_list_ srv2) (Server.session_list_ srv)) /\
  exists more,
    Server.effects w2 = (Server.effects w1 ++ more)%list /\
    Forall is_stop_effect more.
Proof.
  intros w1 w2.
  assert (H1 : Server.accepting w1 = None /\
               Server.sessions_created w1 = Server.sessions_created w /\
               Server.me w1 = Server.me w).
  { unfold w1. cbn [Server.step].
    destruct (Server.accepting w) as [[p v]|] eqn:Eacc; cbn; auto. }
  destruct H1 as [Hacc [Hsc Hme]].
  destruct (accept_ended_run ops w1 Hacc) as [Ha Hc Hs He]. fold w2 in Ha, Hc, Hs, He.
  split; [exact Ha|]. split; [congruence|]. split; [|exact He].
  intros srv2 Hme2. destruct (Hs srv2 Hme2) as [srv [Hm Hi]].
  exists srv. split; [congruence|exact Hi].
Qed.

Definition is_logger (e : Server.Effect) : Prop :=
  match e with
  | Server.logger _ _ => True
  | _ => False
  end.

Lemma destroyed_run (ops : list Server.Op) :
  forall w,
    Server.me w = None ->
    let w' := Server.run ops w in
    Server.me w' = None /\
    Server.sessions_created w' = Server.sessions_created w /\
    exists more,
      Server.effects w' = (Server.effects w ++ more)%list /\
      Forall is_logger more /\
      (List.length more <=
       match Server.accepting w with Some _ => 1 | None => 0 end)%nat.
Proof.
  induction ops as [|op rest IH]; intros w Hme.
  - cbn. split; [exact Hme|]. split; [reflexivity|].
    exists []. split; [symmetry; apply app_nil_r|]. split; [constructor|].
    cbn. lia.
  - cbn [Server.run]. cbv zeta.
    assert (Hstep :
      Server.me (Server.step op w) = None /\
      Server.sessions_created (Server.step op w) = Server.sessions_created w /\
      exists one,
        Server.effects (Server.step op w) = (Server.effects w ++ one)%list /\
        Forall is_logger one /\
        (List.length one
         + match Server.accepting (Server.step op w) with
           | Some _ => 1 | None => 0 end <=
         match Server.accepting w with Some _ => 1 | None => 0 end)%nat).
    { destruct op as [ec|session_to_remove| | |session]; cbn [Server.step].
      - destruct (Server.accepting w) as [[p v]|] eqn:Eacc.
        + unfold Server.accept_handler. cbn [Server.me]. rewrite Hme.
          destruct ec as [message|]; cbn; rewrite ?Hme;
            (split; [reflexivity|]); (split; [reflexivity|]);
            eexists; (split; [reflexivity|]);
            (split; [repeat constructor|cbn; lia]).
        + rewrite ?Eacc. split; [exact Hme|]. split; [reflexivity|].
          exists []. split; [symmetry; apply app_nil_r|].
          split; [constructor|cbn; lia].
      - assert (Hsh : forall r, Server.shutdown_callback r w = w).
        { intros r. unfold Server.shutdown_callback. rewrite Hme. reflexivity. }
        assert (Hw : (match session_to_remove with
                      | Some s =>
                          if Server.alive w s
                          then Server.shutdown_callback session_to_remove w
                          else w
                      | None => Server.shutdown_callback None w
                      end) = w).
        { destruct session_to_remove as [s|]; [|apply Hsh].
          destruct (Server.alive w s); [apply Hsh|reflexivity]. }
        rewrite Hw. split; [exact Hme|]. split; [reflexivity|].
        exists []. split; [symmetry; apply app_nil_r|].
        split; [constructor|cbn; lia].
      - unfold Server.stop. rewrite Hme. split; [exact Hme|].
        split; [reflexivity|].
        exists []. split; [symmetry; apply app_nil_r|].
        split; [constructor|cbn; lia].
      - rewrite Hme. split; [exact Hme|]. split; [reflexivity|].
        exists []. split; [symmetry; apply app_nil_r|].
        split; [constructor|cbn; lia].
      - destruct (Server.accepting w) as [[p v]|] eqn:Eacc.
        + destruct (Nat.eqb session p); cbn; rewrite ?Eacc;
            (split; [exact Hme|]); (split; [reflexivity|]);
            exists []; (split; [symmetry; apply app_nil_r|]);
            (split; [constructor|cbn; lia]).
        + cbn. rewrite ?Eacc. split; [exact Hme|]. split; [reflexivity|].
          exists []. split; [symmetry; apply app_nil_r|].
          split; [constructor|cbn; lia]. }
    destruct Hstep as [Hme1 [Hsc1 [one [He1 [Hf1 Hlen1]]]]].
    destruct (IH (Server.step op w) Hme1) as [Hme2 [Hsc2 [more [He2 [Hf2 Hlen2]]]]].
    split; [exact Hme2|]. split; [congruence|].
    exists (one ++ more)%list. split.
    + rewrite He2, He1, app_assoc. reflexivity.
    + split; [apply Forall_app; split; assumption|].
      rewrite length_app. lia.
Qed.

(** X27.  A destroyed server starts nothing.  After the destructor,
    whatever happens afterwards (the pending accept completing, with or
    without an error, sessions calling the shutdown callback or expiring),
    no session is created, started or stopped and no accept is posted: the
    server only writes to its logger, and at most once. *)
Theorem Server_destroyed_only_logs (w : Server.World) (ops : list Server.Op) :
  let w1 := Server.step Server.OpDestroy w in
  let w2 := Server.run ops w1 in
  Server.me w2 = None /\
  Server.sessions_created w2 = Server.sessions_created w /\
  exists more,
    Server.effects w2 = (Server.effects w1 ++ more)%list /\
    Forall is_logger more /\ (List.length more <= 1)%nat.
Proof.
  intros w1 w2.
  assert (H1 : Server.me w1 = None /\
               Server.sessions_created w1 = Server.sessions_created w).
  { unfold w1. cbn [Server.step].
    destruct (Server.me w) as [srv|] eqn:Eme.
    - unfold Server.ServerImpl_destructor, Server.stop. rewrite Eme. cbn. auto.
    - auto. }
  destruct H1 as [Hme Hsc].
  destruct (destroyed_run ops w1 Hme) as [Hme2 [Hsc2 [more [He [Hf Hlen]]]]].
  fold w2 in Hme2, Hsc2, He.
  split; [exact Hme2|]. split; [congruence|].
  exists more. split; [exact He|]. split; [exact Hf|].
  destruct (Server.accepting w1); lia.
Qed.

(** * Properties of topic information *)

(** X28.  [operator==] of [TopicInformation] tells equality of all
    three fields, and [operator!=] the contrary: two values compare equal
    exactly when they are the same value. *)
Theorem TopicInformation_operator_eq (a b : TopicInformation.TopicInformation) :
  (TopicInformation.operator_eq a b = true <-> a = b) /\
  (TopicInformation.operator_neq a b = true <-> a <> b) /\
  TopicInformation.operator_eq a b = TopicInformation.operator_eq b a.
Proof.
  assert (Heq : TopicInformation.operator_eq a b = true <-> a = b).
  { unfold TopicInformation.operator_eq. destruct a as [e1 t1 d1], b as [e2 t2 d2].
    cbn. rewrite !andb_true_iff, !String.eqb_eq. split.
    - intros [[-> ->] ->]. reflexivity.
    - intros [= -> -> ->]. auto. }
  split; [exact Heq|]. split.
  - unfold TopicInformation.operator_neq. rewrite negb_true_iff.
    rewrite <- not_true_iff_false, Heq. tauto.
  - unfold TopicInformation.operator_eq.
    rewrite (String.eqb_sym (TopicInformation.encoding a)),
      (String.eqb_sym (TopicInformation.type a)),
      (String.eqb_sym (TopicInformation.descriptor a)). reflexivity.
Qed.
